(** * MarkJSCanvasUI: a shallow embedding of [markjscanvasui.js]

    The widget manager, its controls, the modal and toast subsystems are
    embedded as functions over explicit state.

    Conventions of the embedding.
    - A JavaScript number is an exact rational ([Q]).  The embedding is
      faithful where the JavaScript arithmetic stays finite: no division by
      zero, no [NaN], no infinity, no rounding.  Properties that depend on
      exact sums or edges are stated for integers of moderate size
      ([smallInt], [wholeMs]), which doubles compute exactly.  Indices ([focusIndex],
      [selectedIndex]) are integers ([Z]) and [%] is [Z.rem], the truncating
      remainder of JavaScript.
    - An object has an identity ([ref]); controls live in a heap and the
      manager's arrays hold references, as in the source.
    - A caller-supplied function is opaque: invoking it is recorded as a
      [HostCall] event in the trace of the world, and it is taken not to
      re-enter the library.  An uncaught [TypeError] is recorded too.
    - [setTimeout] registers an entry in the host's timer queue; the queue
      only advances through [elapse], the passing of host time.
    - Strings are byte strings; [toLowerCase] is modelled on ASCII letters.
    - Painting is embedded for the background layer of [render] only;
      [addText] with its font strings, the pointer cursor of [onMouseMove]
      and [destroy] are not embedded. *)

From Stdlib Require Import Ascii String ZArith QArith Qround Lia Lqa.
From stdpp Require Import base option list gmap strings.

Local Open Scope Z_scope.

(** ** JavaScript values *)

Definition ref := nat.

Inductive jsval :=
| JUndefined
| JStr (s : string)
| JNum (q : Q)
| JBool (b : bool).

(** Truthiness of a value, as tested by [if (v)] and [v || d]. *)
Definition truthy (v : jsval) : bool :=
  match v with
  | JUndefined => false
  | JStr s => negb (String.eqb s "")
  | JNum q => negb (Qeq_bool q 0)
  | JBool b => b
  end.

(** [o || d] for an optional number: [undefined] and [0] give the default. *)
Definition num_or (o : option Q) (d : Q) : Q :=
  match o with
  | Some q => if Qeq_bool q 0 then d else q
  | None => d
  end.

(** [o || d] for an optional string: [undefined] and [''] give the default. *)
Definition str_or (o : option string) (d : string) : string :=
  match o with
  | Some s => if String.eqb s "" then d else s
  | None => d
  end.

Definition Qmax (a b : Q) : Q := if Qle_bool a b then b else a.
Definition Qmin (a b : Q) : Q := if Qle_bool a b then a else b.

(** [Math.round]: the nearest integer, halves towards plus infinity. *)
Definition Math_round (q : Q) : Q := inject_Z (Qfloor (q + (1 # 2))%Q).

Definition Qnat (n : nat) : Q := inject_Z (Z.of_nat n).

(** [l[i]] for an integer index: [undefined] out of range. *)
Definition at_index {A} (l : list A) (i : Z) : option A :=
  if i <? 0 then None else l !! Z.to_nat i.

(** [toLowerCase] on the letters A to Z.  On a string of ASCII characters
    this is the [toLowerCase] of JavaScript; its Unicode case mapping of
    other characters is not embedded. *)
Definition lower_ascii (c : ascii) : ascii :=
  let n := nat_of_ascii c in
  if (65 <=? n)%nat && (n <=? 90)%nat then ascii_of_nat (n + 32) else c.

Fixpoint toLowerCase (s : string) : string :=
  match s with
  | EmptyString => EmptyString
  | String c s' => String (lower_ascii c) (toLowerCase s')
  end.

(** ** Callbacks, events and timers *)

(** The callback of a modal button: a function of the caller, or the
    [() => this.close()] of the button a modal makes for itself. *)
Inductive ButtonCallback :=
| BHost (f : nat)
| BClose (modal : ref).

(** The callback of a menu item: a function of the caller, or the wrapper
    the modal builds around each of its buttons. *)
Inductive Callback :=
| Host (f : nat)
| ModalButton (modal : ref) (inner : option ButtonCallback).

Inductive Event :=
| HostCall (f : nat) (args : list jsval)
| HandleClick (target : ref) (px py : Q)
| TypeError.

(** What a pending [setTimeout] does when it fires. *)
Inductive TimerAction :=
| FireItem (menu : ref) (i : nat)      (* this.items[i].callback() *)
| FireSelected (menu : ref)            (* this.items[this.selectedIndex].callback() *)
| DismissToast (toast : ref).

(** The effects of a control's handler: the functions of the caller it
    invoked, in order, and the timeouts it registered. *)
Record Effects := {
  events : list Event;
  timeouts : list (TimerAction * Q)
}.

Definition no_effects : Effects := {| events := []; timeouts := [] |}.
Definition emit (e : Event) : Effects := {| events := [e]; timeouts := [] |}.
Definition setTimeout (a : TimerAction) (delay : Q) : Effects :=
  {| events := []; timeouts := [(a, delay)] |}.

(** [if (this.callback) this.callback(args)] *)
Definition call_if (cb : option nat) (args : list jsval) : Effects :=
  match cb with
  | Some f => emit (HostCall f args)
  | None => no_effects
  end.

Record KeyEvent := {
  key : string;
  shiftKey : bool;
  ctrlKey : bool;
  metaKey : bool
}.

Definition key_of (k : string) : KeyEvent :=
  {| key := k; shiftKey := false; ctrlKey := false; metaKey := false |}.

(** ** Control: the base class *)

(** The options of a control that its handlers read.  Colours, fonts and
    border keys only reach the painting code. *)
Record Options := {
  o_orientation : option string;
  o_gap : option Q;
  o_width : option Q;
  o_height : option Q;
  o_padding : option Q;
  o_arrowSize : option Q
}.

Definition no_options : Options :=
  {| o_orientation := None; o_gap := None; o_width := None;
     o_height := None; o_padding := None; o_arrowSize := None |}.

Record Bounds := {
  bx : Q;
  by_ : Q;
  bwidth : Q;
  bheight : Q
}.

(** [x >= b.x && x <= b.x + b.width && y >= b.y && y <= b.y + b.height] *)
Definition inBounds (px py : Q) (b : Bounds) : bool :=
  Qle_bool (bx b) px && Qle_bool px (bx b + bwidth b)
  && Qle_bool (by_ b) py && Qle_bool py (by_ b + bheight b).

Module Base.
Record t := {
  x : Q;
  y : Q;
  width : Q;
  height : Q;
  attached : bool;            (* this.manager !== null *)
  rawOptions : Options;       (* this._rawOptions *)
  padding : Q                 (* this.options.padding *)
}.

Definition new (x y width height : Q) (options : Options) : t :=
  {| x := x; y := y; width := width; height := height;
     attached := false;
     rawOptions := options;
     padding := match o_padding options with Some p => p | None => 10 end |}.

(** [applyTheme]: the theme's value under the control's own option. *)
Definition applyTheme (themePadding : Q) (b : t) : t :=
  if attached b then
    {| x := x b; y := y b; width := width b; height := height b;
       attached := attached b;
       rawOptions := rawOptions b;
       padding := match o_padding (rawOptions b) with
                  | Some p => p
                  | None => themePadding
                  end |}
  else b.

Definition setManager (b : t) : t :=
  {| x := x b; y := y b; width := width b; height := height b;
     attached := true;
     rawOptions := rawOptions b;
     padding := padding b |}.

Definition bounds (b : t) : Bounds :=
  {| bx := x b; by_ := y b; bwidth := width b; bheight := height b |}.

Definition containsPoint (b : t) (px py : Q) : bool :=
  inBounds px py (bounds b).
End Base.

(** ** Menu *)

Module Menu.
Record item := {
  label : string;
  callback : option Callback
}.

Record t := {
  base : Base.t;
  itemWidth : Q;
  itemHeight : Q;
  items : list item;
  selectedIndex : Z;
  orientation : string;
  gap : Q;
  pressed : bool;
  pressedTime : Q;
  pressedDuration : Q
}.

Definition new (x y : Q) (items : list item) (options : Options) : t :=
  let orientation := str_or (o_orientation options) "vertical" in
  let gap := num_or (o_gap options) 0 in
  let width := num_or (o_width options) 200 in
  let height := num_or (o_height options) 50 in
  let n := Qnat (length items) in
  let totalWidth :=
    if String.eqb orientation "horizontal"
    then (n * width + (n - 1) * gap)%Q else width in
  let totalHeight :=
    if String.eqb orientation "horizontal"
    then height else (n * height + (n - 1) * gap)%Q in
  {| base := Base.new x y totalWidth totalHeight options;
     itemWidth := width;
     itemHeight := height;
     items := items;
     selectedIndex := 0;
     orientation := orientation;
     gap := gap;
     pressed := false;
     pressedTime := 0;
     pressedDuration := 300 |}.

(** The edges are exact rationals: they are the edges the code computes
    where its doubles do not round, as on integers of moderate size. *)
Definition getItemBounds (m : t) (index : nat) : Bounds :=
  if String.eqb (orientation m) "horizontal" then
    {| bx := (Base.x (base m) + Qnat index * (itemWidth m + gap m))%Q;
       by_ := Base.y (base m);
       bwidth := itemWidth m;
       bheight := itemHeight m |}
  else
    {| bx := Base.x (base m);
       by_ := (Base.y (base m) + Qnat index * (itemHeight m + gap m))%Q;
       bwidth := itemWidth m;
       bheight := itemHeight m |}.

(** The loop [for (i = from; i < from + fuel; i++)] looking for the first
    item whose bounds hold the point. *)
Fixpoint firstItemAt (m : t) (px py : Q) (from fuel : nat) : option nat :=
  match fuel with
  | O => None
  | S fuel' =>
      if inBounds px py (getItemBounds m from) then Some from
      else firstItemAt m px py (S from) fuel'
  end.

Definition itemAt (m : t) (px py : Q) : option nat :=
  firstItemAt m px py 0 (length (items m)).

Definition isOverInteractiveArea (m : t) (px py : Q) : bool :=
  match itemAt m px py with Some _ => true | None => false end.

Definition press (m : t) (sel : Z) : t :=
  {| base := base m; itemWidth := itemWidth m; itemHeight := itemHeight m;
     items := items m;
     selectedIndex := sel;
     orientation := orientation m; gap := gap m;
     pressed := true;
     pressedTime := 0;
     pressedDuration := pressedDuration m |}.

Definition select (m : t) (sel : Z) : t :=
  {| base := base m; itemWidth := itemWidth m; itemHeight := itemHeight m;
     items := items m;
     selectedIndex := sel;
     orientation := orientation m; gap := gap m;
     pressed := pressed m;
     pressedTime := pressedTime m;
     pressedDuration := pressedDuration m |}.

Definition handleClick (self : ref) (m : t) (px py : Q) : t * Effects :=
  match itemAt m px py with
  | Some i =>
      (press m (Z.of_nat i),
       match items m !! i with
       | Some it =>
           match callback it with
           | Some _ => setTimeout (FireItem self i) (pressedDuration m)
           | None => no_effects
           end
       | None => no_effects
       end)
  | None => (m, no_effects)
  end.

(** The body shared by [activate] and the Enter/Space branch of
    [handleKeyDown]: the test [this.items[this.selectedIndex].callback]
    raises a TypeError when the selected index names no item. *)
Definition activate (self : ref) (m : t) : t * Effects :=
  (press m (selectedIndex m),
   match at_index (items m) (selectedIndex m) with
   | Some it =>
       match callback it with
       | Some _ => setTimeout (FireSelected self) (pressedDuration m)
       | None => no_effects
       end
   | None => emit TypeError
   end).

Definition count (m : t) : Z := Z.of_nat (length (items m)).

Definition handleGamepadLeft (m : t) : t :=
  select m (Z.rem (selectedIndex m - 1 + count m) (count m)).

Definition handleGamepadRight (m : t) : t :=
  select m (Z.rem (selectedIndex m + 1) (count m)).

Definition handleKeyDown (self : ref) (m : t) (e : KeyEvent) : t * Effects :=
  let isVertical := String.eqb (orientation m) "vertical" in
  let prevKey := if isVertical then "ArrowUp" else "ArrowLeft" in
  let nextKey := if isVertical then "ArrowDown" else "ArrowRight" in
  if String.eqb (key e) prevKey || String.eqb (key e) "ArrowUp"
     || String.eqb (key e) "ArrowLeft" then
    (handleGamepadLeft m, no_effects)
  else if String.eqb (key e) nextKey || String.eqb (key e) "ArrowDown"
          || String.eqb (key e) "ArrowRight" then
    (handleGamepadRight m, no_effects)
  else if String.eqb (key e) "Enter" || String.eqb (key e) " " then
    activate self m
  else (m, no_effects).

(** [pressedTime] is the exact sum of the frame times: the sum the code
    computes where its doubles do not round, as on whole milliseconds. *)
Definition update (m : t) (deltaTime : Q) : t :=
  if pressed m then
    let time := (pressedTime m + deltaTime)%Q in
    if Qle_bool (pressedDuration m) time then
      {| base := base m; itemWidth := itemWidth m;
         itemHeight := itemHeight m; items := items m;
         selectedIndex := selectedIndex m;
         orientation := orientation m; gap := gap m;
         pressed := false;
         pressedTime := 0;
         pressedDuration := pressedDuration m |}
    else
      {| base := base m; itemWidth := itemWidth m;
         itemHeight := itemHeight m; items := items m;
         selectedIndex := selectedIndex m;
         orientation := orientation m; gap := gap m;
         pressed := true;
         pressedTime := time;
         pressedDuration := pressedDuration m |}
  else m.

Definition withBase (m : t) (b : Base.t) : t :=
  {| base := b; itemWidth := itemWidth m; itemHeight := itemHeight m;
     items := items m; selectedIndex := selectedIndex m;
     orientation := orientation m; gap := gap m;
     pressed := pressed m; pressedTime := pressedTime m;
     pressedDuration := pressedDuration m |}.
End Menu.

(** ** Toggle *)

Module Toggle.
Record t := {
  base : Base.t;
  label : string;
  value : bool;
  callback : option nat
}.

Definition new (x y : Q) (label : string) (initialValue : bool)
    (callback : option nat) (options : Options) : t :=
  {| base := Base.new x y (num_or (o_width options) 250)
               (num_or (o_height options) 50) options;
     label := label;
     value := initialValue;
     callback := callback |}.

Definition toggle (c : t) : t * Effects :=
  let v := negb (value c) in
  ({| base := base c; label := label c; value := v;
      callback := callback c |},
   call_if (callback c) [JBool v]).

Definition handleClick (c : t) (px py : Q) : t * Effects := toggle c.

Definition handleKeyDown (c : t) (e : KeyEvent) : t * Effects :=
  if String.eqb (key e) "Enter" || String.eqb (key e) " " then toggle c
  else (c, no_effects).

Definition activate (c : t) : t * Effects := toggle c.

Definition withBase (c : t) (b : Base.t) : t :=
  {| base := b; label := label c; value := value c;
     callback := callback c |}.
End Toggle.

(** ** TextInput *)

Module TextInput.
Record t := {
  base : Base.t;
  placeholder : string;
  value : string;
  cursorPos : nat;
  cursorVisible : bool;
  cursorBlinkTime : Q
}.

Definition new (x y : Q) (placeholder : string) (options : Options) : t :=
  {| base := Base.new x y (num_or (o_width options) 300)
               (num_or (o_height options) 50) options;
     placeholder := placeholder;
     value := "";
     cursorPos := 0;
     cursorVisible := true;
     cursorBlinkTime := 0 |}.

(** [s.slice(0, n)] and [s.slice(n)] *)
Definition slice_to (s : string) (n : nat) : string := substring 0 n s.
Definition slice_from (s : string) (n : nat) : string :=
  substring n (String.length s - n) s.

Definition edit (c : t) (v : string) (pos : nat) : t :=
  {| base := base c; placeholder := placeholder c;
     value := v; cursorPos := pos;
     cursorVisible := true;
     cursorBlinkTime := 0 |}.

Definition handleClick (c : t) (px py : Q) : t :=
  {| base := base c; placeholder := placeholder c;
     value := value c;
     cursorPos := String.length (value c);
     cursorVisible := cursorVisible c;
     cursorBlinkTime := cursorBlinkTime c |}.

Definition handleKeyDown (c : t) (e : KeyEvent) : t :=
  let v := value c in
  let pos := cursorPos c in
  if String.eqb (key e) "Backspace" then
    if (0 <? pos)%nat
    then edit c (slice_to v (pos - 1) +:+ slice_from v pos) (pos - 1)
    else edit c v pos
  else if String.eqb (key e) "Delete" then
    if (pos <? String.length v)%nat
    then edit c (slice_to v pos +:+ slice_from v (pos + 1)) pos
    else edit c v pos
  else if String.eqb (key e) "ArrowLeft" then edit c v (Nat.pred pos)
  else if String.eqb (key e) "ArrowRight" then
    edit c v (Nat.min (String.length v) (pos + 1))
  else if String.eqb (key e) "Home" then edit c v 0%nat
  else if String.eqb (key e) "End" then edit c v (String.length v)
  else if (String.length (key e) =? 1)%nat && negb (ctrlKey e)
          && negb (metaKey e) then
    edit c (slice_to v pos +:+ key e +:+ slice_from v pos) (pos + 1)
  else edit c v pos.

Definition update (c : t) (deltaTime : Q) : t :=
  let time := (cursorBlinkTime c + deltaTime)%Q in
  if Qle_bool 500 time then
    {| base := base c; placeholder := placeholder c;
       value := value c; cursorPos := cursorPos c;
       cursorVisible := negb (cursorVisible c);
       cursorBlinkTime := 0 |}
  else
    {| base := base c; placeholder := placeholder c;
       value := value c; cursorPos := cursorPos c;
       cursorVisible := cursorVisible c;
       cursorBlinkTime := time |}.

Definition withBase (c : t) (b : Base.t) : t :=
  {| base := b; placeholder := placeholder c; value := value c;
     cursorPos := cursorPos c; cursorVisible := cursorVisible c;
     cursorBlinkTime := cursorBlinkTime c |}.
End TextInput.

(** ** Radio *)

Module Radio.
Record t := {
  base : Base.t;
  itemWidth : Q;
  itemHeight : Q;
  items : list string;
  selectedIndex : Z;
  label : string;
  labelHeight : Q;
  callback : option nat;
  orientation : string;
  gap : Q
}.

Definition new (x y : Q) (items : list string) (selectedIndex : Z)
    (label : string) (callback : option nat) (options : Options) : t :=
  let orientation := str_or (o_orientation options) "vertical" in
  let gap := num_or (o_gap options) 0 in
  let width := num_or (o_width options) 250 in
  let height := num_or (o_height options) 45 in
  let labelHeight := (if String.eqb label "" then 0 else 30)%Q in
  let n := Qnat (length items) in
  let totalWidth :=
    if String.eqb orientation "horizontal"
    then (n * width + (n - 1) * gap)%Q else width in
  let totalHeight :=
    if String.eqb orientation "horizontal"
    then (height + labelHeight)%Q
    else (n * height + (n - 1) * gap + labelHeight)%Q in
  {| base := Base.new x y totalWidth totalHeight options;
     itemWidth := width; itemHeight := height;
     items := items; selectedIndex := selectedIndex;
     label := label; labelHeight := labelHeight;
     callback := callback; orientation := orientation; gap := gap |}.

Definition getItemBounds (c : t) (index : nat) : Bounds :=
  if String.eqb (orientation c) "horizontal" then
    {| bx := (Base.x (base c) + Qnat index * (itemWidth c + gap c))%Q;
       by_ := (Base.y (base c) + labelHeight c)%Q;
       bwidth := itemWidth c;
       bheight := itemHeight c |}
  else
    {| bx := Base.x (base c);
       by_ := (Base.y (base c) + labelHeight c
               + Qnat index * (itemHeight c + gap c))%Q;
       bwidth := itemWidth c;
       bheight := itemHeight c |}.

Fixpoint firstItemAt (c : t) (px py : Q) (from fuel : nat) : option nat :=
  match fuel with
  | O => None
  | S fuel' =>
      if inBounds px py (getItemBounds c from) then Some from
      else firstItemAt c px py (S from) fuel'
  end.

Definition item_arg (c : t) (i : Z) : jsval :=
  match at_index (items c) i with
  | Some s => JStr s
  | None => JUndefined
  end.

(** [this.selectedIndex = i; if (this.callback) this.callback(i, items[i])] *)
Definition select (c : t) (i : Z) : t * Effects :=
  ({| base := base c; itemWidth := itemWidth c;
      itemHeight := itemHeight c; items := items c;
      selectedIndex := i;
      label := label c; labelHeight := labelHeight c;
      callback := callback c; orientation := orientation c;
      gap := gap c |},
   call_if (callback c) [JNum (inject_Z i); item_arg c i]).

Definition handleClick (c : t) (px py : Q) : t * Effects :=
  match firstItemAt c px py 0 (length (items c)) with
  | Some i => select c (Z.of_nat i)
  | None => (c, no_effects)
  end.

Definition count (c : t) : Z := Z.of_nat (length (items c)).

Definition handleGamepadLeft (c : t) : t * Effects :=
  select c (Z.rem (selectedIndex c - 1 + count c) (count c)).

Definition handleGamepadRight (c : t) : t * Effects :=
  select c (Z.rem (selectedIndex c + 1) (count c)).

Definition handleKeyDown (c : t) (e : KeyEvent) : t * Effects :=
  let isVertical := String.eqb (orientation c) "vertical" in
  let prevKey := if isVertical then "ArrowUp" else "ArrowLeft" in
  let nextKey := if isVertical then "ArrowDown" else "ArrowRight" in
  if String.eqb (key e) prevKey then handleGamepadLeft c
  else if String.eqb (key e) nextKey then handleGamepadRight c
  else (c, no_effects).

Definition withBase (c : t) (b : Base.t) : t :=
  {| base := b; itemWidth := itemWidth c; itemHeight := itemHeight c;
     items := items c; selectedIndex := selectedIndex c;
     label := label c; labelHeight := labelHeight c;
     callback := callback c; orientation := orientation c;
     gap := gap c |}.
End Radio.

(** ** Carousel *)

Module Carousel.
Record t := {
  base : Base.t;
  items : list string;
  selectedIndex : Z;
  label : string;
  callback : option nat;
  orientation : string;
  arrowSize : Q
}.

Definition new (x y : Q) (items : list string) (selectedIndex : Z)
    (label : string) (callback : option nat) (options : Options) : t :=
  {| base := Base.new x y (num_or (o_width options) 250)
               (num_or (o_height options) 60) options;
     items := items; selectedIndex := selectedIndex;
     label := label; callback := callback;
     orientation := str_or (o_orientation options) "horizontal";
     arrowSize := num_or (o_arrowSize options) 12 |}.

(** [getArrowBounds]: the pair (left, right), or (up, down). *)
Definition getArrowBounds (c : t) : Bounds * Bounds :=
  let b := base c in
  if String.eqb (orientation c) "horizontal" then
    ({| bx := (Base.x b + Base.padding b)%Q;
        by_ := Base.y b;
        bwidth := (arrowSize c * 2)%Q;
        bheight := Base.height b |},
     {| bx := (Base.x b + Base.width b - Base.padding b - arrowSize c * 2)%Q;
        by_ := Base.y b;
        bwidth := (arrowSize c * 2)%Q;
        bheight := Base.height b |})
  else
    ({| bx := Base.x b;
        by_ := (Base.y b + Base.padding b)%Q;
        bwidth := Base.width b;
        bheight := (arrowSize c * 2)%Q |},
     {| bx := Base.x b;
        by_ := (Base.y b + Base.height b - Base.padding b - arrowSize c * 2)%Q;
        bwidth := Base.width b;
        bheight := (arrowSize c * 2)%Q |}).

Definition containsPointInBounds (px py : Q) (b : Bounds) : bool :=
  inBounds px py b.

Definition item_arg (c : t) (i : Z) : jsval :=
  match at_index (items c) i with
  | Some s => JStr s
  | None => JUndefined
  end.

Definition select (c : t) (i : Z) : t * Effects :=
  ({| base := base c; items := items c;
      selectedIndex := i;
      label := label c; callback := callback c;
      orientation := orientation c; arrowSize := arrowSize c |},
   call_if (callback c) [JNum (inject_Z i); item_arg c i]).

Definition count (c : t) : Z := Z.of_nat (length (items c)).

Definition selectPrevious (c : t) : t * Effects :=
  select c (Z.rem (selectedIndex c - 1 + count c) (count c)).

Definition selectNext (c : t) : t * Effects :=
  select c (Z.rem (selectedIndex c + 1) (count c)).

Definition handleClick (c : t) (px py : Q) : t * Effects :=
  let '(first, second) := getArrowBounds c in
  if containsPointInBounds px py first then selectPrevious c
  else if containsPointInBounds px py second then selectNext c
  else (c, no_effects).

Definition handleKeyDown (c : t) (e : KeyEvent) : t * Effects :=
  if String.eqb (orientation c) "horizontal" then
    if String.eqb (key e) "ArrowLeft" then selectPrevious c
    else if String.eqb (key e) "ArrowRight" then selectNext c
    else (c, no_effects)
  else
    if String.eqb (key e) "ArrowUp" then selectPrevious c
    else if String.eqb (key e) "ArrowDown" then selectNext c
    else (c, no_effects).

Definition handleGamepadLeft (c : t) : t * Effects := selectPrevious c.
Definition handleGamepadRight (c : t) : t * Effects := selectNext c.

Definition withBase (c : t) (b : Base.t) : t :=
  {| base := b; items := items c; selectedIndex := selectedIndex c;
     label := label c; callback := callback c;
     orientation := orientation c; arrowSize := arrowSize c |}.
End Carousel.

(** ** Slider *)

Module Slider.
Record t := {
  base : Base.t;
  min : Q;
  max : Q;
  value : Q;
  step : Q;
  label : string;
  callback : option nat;
  dragging : bool
}.

Definition new (x y min max value step : Q) (label : string)
    (callback : option nat) (options : Options) : t :=
  {| base := Base.new x y (num_or (o_width options) 300)
               (num_or (o_height options) 80) options;
     min := min; max := max; value := value; step := step;
     label := label; callback := callback; dragging := false |}.

Definition setValue (s : t) (v : Q) : t :=
  {| base := base s; min := min s; max := max s;
     value := v;
     step := step s; label := label s; callback := callback s;
     dragging := dragging s |}.

(** The track: [sliderX] and [sliderWidth] of [updateValueFromX]. *)
Definition sliderX (s : t) : Q := (Base.x (base s) + Base.padding (base s))%Q.
Definition sliderWidth (s : t) : Q :=
  (Base.width (base s) - Base.padding (base s) * 2)%Q.

(** The value [updateValueFromX] computes for the abscissa [px], in exact
    arithmetic.  It is meant for a step and a track width other than zero:
    at zero the code divides by zero and stores [NaN], which is not
    embedded. *)
Definition valueFromX (s : t) (px : Q) : Q :=
  let percent := Qmax 0 (Qmin 1 ((px - sliderX s) / sliderWidth s)) in
  let newValue := (min s + percent * (max s - min s))%Q in
  let newValue := (Math_round (newValue / step s) * step s)%Q in
  Qmax (min s) (Qmin (max s) newValue).

Definition updateValueFromX (s : t) (px : Q) : t * Effects :=
  let newValue := valueFromX s px in
  if negb (Qeq_bool newValue (value s)) then
    (setValue s newValue, call_if (callback s) [JNum newValue])
  else (s, no_effects).

Definition handleClick (s : t) (px py : Q) : t * Effects :=
  updateValueFromX s px.

Definition stepDown (s : t) : Q := Qmax (min s) (value s - step s).
Definition stepUp (s : t) : Q := Qmin (max s) (value s + step s).

Definition handleKeyDown (s : t) (e : KeyEvent) : t * Effects :=
  if String.eqb (key e) "ArrowLeft" then
    (setValue s (stepDown s), call_if (callback s) [JNum (stepDown s)])
  else if String.eqb (key e) "ArrowRight" then
    (setValue s (stepUp s), call_if (callback s) [JNum (stepUp s)])
  else (s, no_effects).

Definition handleGamepadAxis (s : t) (direction : Q) : t * Effects :=
  let v := if negb (Qle_bool 0 direction) then stepDown s else stepUp s in
  (setValue s v, call_if (callback s) [JNum v]).

Definition withBase (s : t) (b : Base.t) : t :=
  {| base := b; min := min s; max := max s; value := value s;
     step := step s; label := label s; callback := callback s;
     dragging := dragging s |}.
End Slider.

(** ** Panel *)

Module Panel.
Definition new (x y : Q) (options : Options) : Base.t :=
  Base.new x y (num_or (o_width options) 500)
    (num_or (o_height options) 500) options.

(** Panels don't receive focus or input. *)
Definition containsPoint (b : Base.t) (px py : Q) : bool := false.
End Panel.

(** ** The control objects of the heap *)

Inductive Control :=
| CBase (b : Base.t)
| CMenu (m : Menu.t)
| CToggle (c : Toggle.t)
| CTextInput (c : TextInput.t)
| CRadio (c : Radio.t)
| CCarousel (c : Carousel.t)
| CSlider (s : Slider.t)
| CPanel (b : Base.t).

Module Ctl.
Definition base (c : Control) : Base.t :=
  match c with
  | CBase b | CPanel b => b
  | CMenu m => Menu.base m
  | CToggle c => Toggle.base c
  | CTextInput c => TextInput.base c
  | CRadio c => Radio.base c
  | CCarousel c => Carousel.base c
  | CSlider s => Slider.base s
  end.

Definition withBase (c : Control) (b : Base.t) : Control :=
  match c with
  | CBase _ => CBase b
  | CPanel _ => CPanel b
  | CMenu m => CMenu (Menu.withBase m b)
  | CToggle c => CToggle (Toggle.withBase c b)
  | CTextInput c => CTextInput (TextInput.withBase c b)
  | CRadio c => CRadio (Radio.withBase c b)
  | CCarousel c => CCarousel (Carousel.withBase c b)
  | CSlider s => CSlider (Slider.withBase s b)
  end.

(** [control.constructor.name === 'Panel'] *)
Definition isPanel (c : Control) : bool :=
  match c with CPanel _ => true | _ => false end.

Definition containsPoint (c : Control) (px py : Q) : bool :=
  match c with
  | CPanel b => Panel.containsPoint b px py
  | _ => Base.containsPoint (base c) px py
  end.

Definition lift {A} (inj : A -> Control) (r : A * Effects)
  : option (Control * Effects) := Some (inj r.1, r.2).

(** Each handler is [None] where the class of the control does not
    define the method: the manager tests [if (control.handleClick)]. *)
Definition handleClick (self : ref) (c : Control) (px py : Q)
  : option (Control * Effects) :=
  match c with
  | CBase _ | CPanel _ => None
  | CMenu m => lift CMenu (Menu.handleClick self m px py)
  | CToggle c => lift CToggle (Toggle.handleClick c px py)
  | CTextInput c => Some (CTextInput (TextInput.handleClick c px py), no_effects)
  | CRadio c => lift CRadio (Radio.handleClick c px py)
  | CCarousel c => lift CCarousel (Carousel.handleClick c px py)
  | CSlider s => lift CSlider (Slider.handleClick s px py)
  end.

Definition handleKeyDown (self : ref) (c : Control) (e : KeyEvent)
  : option (Control * Effects) :=
  match c with
  | CBase _ | CPanel _ => None
  | CMenu m => lift CMenu (Menu.handleKeyDown self m e)
  | CToggle c => lift CToggle (Toggle.handleKeyDown c e)
  | CTextInput c => Some (CTextInput (TextInput.handleKeyDown c e), no_effects)
  | CRadio c => lift CRadio (Radio.handleKeyDown c e)
  | CCarousel c => lift CCarousel (Carousel.handleKeyDown c e)
  | CSlider s => lift CSlider (Slider.handleKeyDown s e)
  end.

Definition activate (self : ref) (c : Control) : option (Control * Effects) :=
  match c with
  | CMenu m => lift CMenu (Menu.activate self m)
  | CToggle c => lift CToggle (Toggle.activate c)
  | _ => None
  end.

Definition handleGamepadAxis (c : Control) (direction : Q)
  : option (Control * Effects) :=
  match c with
  | CSlider s => lift CSlider (Slider.handleGamepadAxis s direction)
  | _ => None
  end.

Definition handleGamepadLeft (c : Control) : option (Control * Effects) :=
  match c with
  | CMenu m => Some (CMenu (Menu.handleGamepadLeft m), no_effects)
  | CRadio c => lift CRadio (Radio.handleGamepadLeft c)
  | CCarousel c => lift CCarousel (Carousel.handleGamepadLeft c)
  | _ => None
  end.

Definition handleGamepadRight (c : Control) : option (Control * Effects) :=
  match c with
  | CMenu m => Some (CMenu (Menu.handleGamepadRight m), no_effects)
  | CRadio c => lift CRadio (Radio.handleGamepadRight c)
  | CCarousel c => lift CCarousel (Carousel.handleGamepadRight c)
  | _ => None
  end.

(** [if (control.update) control.update(deltaTime)] *)
Definition update (c : Control) (deltaTime : Q) : Control :=
  match c with
  | CMenu m => CMenu (Menu.update m deltaTime)
  | CTextInput c => CTextInput (TextInput.update c deltaTime)
  | _ => c
  end.

(** [control.manager = this; control.applyTheme()] *)
Definition attach (themePadding : Q) (c : Control) : Control :=
  withBase c (Base.applyTheme themePadding (Base.setManager (base c))).
End Ctl.

(** ** Toast *)

Module Toast.
(** What [draw] reads from [this.config]; [None] is [undefined]. *)
Record style := {
  color : option string;
  icon : option string
}.

Definition mk (c i : string) : style := {| color := Some c; icon := Some i |}.

Definition info : style := mk "#2196F3" "ℹ".

(** The own properties of [this.typeConfig]. *)
Definition typeConfig : gmap string style :=
  list_to_map
    [("info", info);
     ("success", mk "#4CAF50" "✓");
     ("warning", mk "#FF9800" "⚠");
     ("error", mk "#F44336" "✕")].

(** [typeConfig] is an object literal: a key it does not own is looked up
    on [Object.prototype], whose properties are these; each holds a
    function or an object, with no [color] and no [icon]. *)
Definition objectPrototypeKeys : list string :=
  ["constructor"; "__defineGetter__"; "__defineSetter__";
   "hasOwnProperty"; "__lookupGetter__"; "__lookupSetter__";
   "isPrototypeOf"; "propertyIsEnumerable"; "toString"; "valueOf";
   "__proto__"; "toLocaleString"].

Definition inherited : style := {| color := None; icon := None |}.

(** [this.typeConfig[type]] *)
Definition lookupType (type : string) : option style :=
  match typeConfig !! type with
  | Some c => Some c
  | None =>
      if existsb (String.eqb type) objectPrototypeKeys
      then Some inherited else None
  end.

Record t := {
  id : ref;
  message : string;
  type : string;
  duration : Q;
  width : Q;
  height : Q;
  padding : Q;
  config : style
}.

(** [this.config = this.typeConfig[type] || this.typeConfig.info]: every
    value found is an object or a function, hence truthy. *)
Definition new (id : ref) (message type : string) (duration : Q) : t :=
  {| id := id; message := message; type := type; duration := duration;
     width := 300; height := 80; padding := 15;
     config := match lookupType type with
               | Some c => c
               | None => info
               end |}.
End Toast.

(** ** The drawing surface *)

Record Canvas := {
  canvasWidth : Q;
  canvasHeight : Q;
  measureText : string -> Q    (* ctx.measureText(s).width *)
}.

(** [s.split(' ')] *)
Fixpoint split_space (s : string) (word : string) : list string :=
  match s with
  | EmptyString => [word]
  | String c s' =>
      if Ascii.eqb c " " then word :: split_space s' ""
      else split_space s' (word +:+ String c "")
  end.

(** ** Modal *)

Module Modal.
Record button := {
  label : string;
  callback : option ButtonCallback
}.

Record options := {
  o_escapeButtonLabel : option string;
  o_modalWidth : option Q;
  o_modalHeight : option Q
}.

Definition no_options : options :=
  {| o_escapeButtonLabel := None; o_modalWidth := None;
     o_modalHeight := None |}.

Record t := {
  id : ref;
  title : string;
  message : string;
  buttons : list button;
  escapeButtonLabel : option string;
  x : Q;
  y : Q;
  width : Q;
  height : Q;
  buttonMenu : ref
}.

(** The word-wrap loop of the constructor: the number of lines. *)
Fixpoint countLines (cv : Canvas) (maxWidth : Q) (words : list string)
    (line : string) (lineCount : Q) : Q :=
  match words with
  | [] => lineCount
  | word :: rest =>
      let testLine := line +:+ word +:+ " " in
      if negb (Qle_bool (measureText cv testLine) maxWidth)
         && negb (String.eqb line "")
      then countLines cv maxWidth rest (word +:+ " ") (lineCount + 1)%Q
      else countLines cv maxWidth rest testLine lineCount
  end.

(** [width] and [height] of the dialog. *)
Definition size (cv : Canvas) (message : string) (o : options) : Q * Q :=
  let w := num_or (o_modalWidth o) 0 in
  let h := num_or (o_modalHeight o) 0 in
  if negb (Qeq_bool w 0) && negb (Qeq_bool h 0) then
    (Qmin w (canvasWidth cv * (9 # 10)), Qmin h (canvasHeight cv * (9 # 10)))
  else
    let maxWidth := (Qmin 600 (canvasWidth cv * (8 # 10)) - 40)%Q in
    let lineCount := countLines cv maxWidth (split_space message "") "" 1 in
    let titleHeight := 60%Q in
    let messageHeight := (lineCount * 25 + 40)%Q in
    let buttonsHeight := 90%Q in
    let minHeight := 200%Q in
    (Qmin 600 (canvasWidth cv * (8 # 10)),
     Qmax minHeight
       (Qmin (titleHeight + messageHeight + buttonsHeight)
             (canvasHeight cv * (8 # 10)))).

(** [buttons.length > 0 ? buttons : [{ label: 'OK', callback: () => this.close() }]] *)
Definition buttonsOrOK (self : ref) (buttons : list button) : list button :=
  match buttons with
  | [] => [{| label := "OK"; callback := Some (BClose self) |}]
  | _ => buttons
  end.

(** The menu item made of a button: its label, and the wrapper that calls
    the button's callback, if any, and closes the dialog. *)
Definition menuItem (self : ref) (b : button) : Menu.item :=
  {| Menu.label := label b;
     Menu.callback := Some (ModalButton self (callback b)) |}.

(** The constructor: the dialog and the menu of its buttons.  Sizes and
    positions are exact rationals: the fields the code stores where its
    doubles do not round, as on integer sizes. *)
Definition new (self menu : ref) (cv : Canvas) (themePadding : Q)
    (title message : string) (buttons : list button) (o : options)
  : t * Menu.t :=
  let buttons := buttonsOrOK self buttons in
  let '(width, height) := size cv message o in
  let x := ((canvasWidth cv - width) / 2)%Q in
  let y := ((canvasHeight cv - height) / 2)%Q in
  let buttonHeight := 50%Q in
  let buttonWidth := 150%Q in
  let buttonSpacing := 20%Q in
  let n := Qnat (length buttons) in
  let totalButtonWidth := (n * buttonWidth + (n - 1) * buttonSpacing)%Q in
  let buttonsX := (x + (width - totalButtonWidth) / 2)%Q in
  let buttonsY := (y + height - buttonHeight - 20)%Q in
  let m :=
    Menu.new buttonsX buttonsY (map (menuItem self) buttons)
      {| o_orientation := Some "horizontal";
         o_gap := Some buttonSpacing;
         o_width := Some buttonWidth;
         o_height := Some buttonHeight;
         o_padding := Some 10%Q;
         o_arrowSize := None |} in
  ({| id := self; title := title; message := message;
      buttons := buttons;
      escapeButtonLabel :=
        match o_escapeButtonLabel o with
        | Some s => if String.eqb s "" then None else Some s
        | None => None
        end;
      x := x; y := y; width := width; height := height;
      buttonMenu := menu |},
   Menu.withBase m
     (Base.applyTheme themePadding (Base.setManager (Menu.base m)))).

(** The button Escape stands for: [this.buttons.find(...)]. *)
Definition escapeButton (m : t) : option button :=
  match escapeButtonLabel m with
  | Some l =>
      List.find (fun b => String.eqb (toLowerCase (label b)) (toLowerCase l))
        (buttons m)
  | None =>
      List.find
        (fun b => existsb (String.eqb (toLowerCase (label b)))
                    ["exit"; "close"; "cancel"])
        (buttons m)
  end.

(** The button gamepad button 1 stands for. *)
Definition exitButton (m : t) : option button :=
  List.find
    (fun b => String.eqb (toLowerCase (label b)) "exit"
              || String.eqb (toLowerCase (label b)) "close"
              || String.eqb (toLowerCase (label b)) "cancel")
    (buttons m).
End Modal.

(** ** MarkJSCanvasUI: the state of the manager *)

Record GradientStop := {
  offset : Q;
  stopColor : jsval
}.

Record ImageObj := {
  image : ref;
  imageX : Q;
  imageY : Q;
  imageWidth : Q;
  imageHeight : Q
}.

Record TextObj := {
  text : string;
  textX : Q;
  textY : Q;
  font : string;
  textColor : jsval;
  align : string;
  baseline : string
}.

Record Font := {
  family : jsval;
  size : jsval;
  weight : jsval;
  style : jsval
}.

(** [this.options]: the configuration of the background. *)
Record Background := {
  backgroundColor : jsval;
  backgroundGradient : option (list GradientStop);
  gradientDirection : option string;
  noBackground : bool
}.

(** The [options] argument of the constructor. *)
Record Config := {
  input : bool;                           (* options.input is given *)
  c_backgroundColor : option jsval;
  c_backgroundGradient : option (list GradientStop);
  c_gradientDirection : option string;
  c_noBackground : option bool
}.

(** What [render] asks of the drawing surface for its background. *)
Inductive CanvasOp :=
| FillStyle (v : jsval)
| FillStyleGradient (x0 y0 x1 y1 : Q) (stops : list GradientStop)
| FillRect (x y w h : Q).

(** [m[k]]: [undefined] when the key is absent. *)
Definition get (m : gmap string jsval) (k : string) : jsval :=
  default JUndefined (m !! k).

(** [a || b] *)
Definition js_or (a b : jsval) : jsval := if truthy a then a else b.

(** [l.indexOf(r)], by identity. *)
Fixpoint indexOf (r : ref) (l : list ref) : option nat :=
  match l with
  | [] => None
  | r' :: l' => if Nat.eqb r' r then Some 0%nat else S <$> indexOf r l'
  end.

(** [l.splice(i, 1)] *)
Definition splice1 {A} (i : nat) (l : list A) : list A := take i l ++ drop (S i) l.

Module UI.
Record t := {
  controls : list ref;
  focusIndex : Z;
  modals : list Modal.t;
  toasts : list Toast.t;
  images : list ImageObj;
  texts : list TextObj;
  theme : gmap string jsval;
  defaultFont : Font;
  options : Background;
  onEscape : option nat;
  keys : gmap string bool
}.

Definition defaultTheme : gmap string jsval :=
  list_to_map
    [("controlColor", JStr "#4CAF50");
     ("controlSurfaceColor", JStr "#333333");
     ("controlTextColor", JStr "#ffffff");
     ("controlBorderColor", JStr "#666666");
     ("controlFocusBorderColor", JStr "#4CAF50");
     ("controlClickColor", JStr "#388E3C");
     ("menuButtonColor", JStr "#4CAF50");
     ("menuButtonActiveColor", JStr "#388E3C");
     ("menuButtonClickColor", JStr "#2E7D32");
     ("menuButtonBorderColor", JStr "#666666");
     ("menuButtonFocusBorderColor", JStr "#4CAF50");
     ("menuButtonFontSize", JNum 16);
     ("modalSurfaceColor", JStr "#222222");
     ("modalBorderColor", JStr "#888888");
     ("modalTextColor", JStr "#ffffff");
     ("modalText2Color", JStr "#cccccc");
     ("modalTextFontSize", JNum 18);
     ("modalText2FontSize", JNum 14);
     ("panelSurfaceColor", JStr "#2a2a2a");
     ("panelBorderColor", JStr "#4CAF50");
     ("borderRadius", JNum 6);
     ("borderWidth", JNum 2);
     ("fontFamily", JStr "Arial");
     ("fontSize", JNum 16);
     ("padding", JNum 10)].

(** The state the constructor builds. *)
Definition initial (cfg : Config) : t :=
  {| controls := []; focusIndex := -1; modals := []; toasts := [];
     images := []; texts := [];
     theme := defaultTheme;
     defaultFont :=
       {| family := JStr "Arial"; size := JNum 16;
          weight := JStr "normal"; style := JStr "normal" |};
     options :=
       {| backgroundColor :=
            match c_backgroundColor cfg with
            | Some v => v
            | None => JStr "#1a1a1a"
            end;
          backgroundGradient := c_backgroundGradient cfg;
          gradientDirection := c_gradientDirection cfg;
          noBackground := default false (c_noBackground cfg) |};
     onEscape := None;
     keys := ∅ |}.

(** The constructor; [None] is the error it throws without an input
    manager. *)
Definition new (cfg : Config) : option t :=
  if input cfg then Some (initial cfg) else None.

Definition setFocus (u : t) (i : Z) : t :=
  {| controls := controls u; focusIndex := i; modals := modals u;
     toasts := toasts u; images := images u; texts := texts u;
     theme := theme u; defaultFont := defaultFont u;
     options := options u; onEscape := onEscape u; keys := keys u |}.

Definition setControls (u : t) (l : list ref) : t :=
  {| controls := l; focusIndex := focusIndex u; modals := modals u;
     toasts := toasts u; images := images u; texts := texts u;
     theme := theme u; defaultFont := defaultFont u;
     options := options u; onEscape := onEscape u; keys := keys u |}.

Definition setModals (u : t) (l : list Modal.t) : t :=
  {| controls := controls u; focusIndex := focusIndex u; modals := l;
     toasts := toasts u; images := images u; texts := texts u;
     theme := theme u; defaultFont := defaultFont u;
     options := options u; onEscape := onEscape u; keys := keys u |}.

Definition setToasts (u : t) (l : list Toast.t) : t :=
  {| controls := controls u; focusIndex := focusIndex u; modals := modals u;
     toasts := l; images := images u; texts := texts u;
     theme := theme u; defaultFont := defaultFont u;
     options := options u; onEscape := onEscape u; keys := keys u |}.

Definition setOptions (u : t) (o : Background) : t :=
  {| controls := controls u; focusIndex := focusIndex u; modals := modals u;
     toasts := toasts u; images := images u; texts := texts u;
     theme := theme u; defaultFont := defaultFont u;
     options := o; onEscape := onEscape u; keys := keys u |}.

Definition count (u : t) : Z := Z.of_nat (length (controls u)).

Definition focusNext (u : t) : t :=
  if count u =? 0 then u
  else setFocus u (Z.rem (focusIndex u + 1) (count u)).

Definition focusPrevious (u : t) : t :=
  if count u =? 0 then u
  else setFocus u (Z.rem (focusIndex u - 1 + count u) (count u)).

(** The part of [addControl] that acts on the manager. *)
Definition pushControl (u : t) (r : ref) : t :=
  let u' := setControls u (controls u ++ [r]) in
  if (focusIndex u' =? -1) && (count u' =? 1) then setFocus u' 0 else u'.

Definition removeControl (u : t) (r : ref) : t :=
  match indexOf r (controls u) with
  | Some index =>
      let u' := setControls u (splice1 index (controls u)) in
      if count u' <=? focusIndex u' then setFocus u' (count u' - 1) else u'
  | None => u
  end.

Definition removeAllControls (u : t) : t :=
  {| controls := []; focusIndex := -1; modals := [];
     toasts := []; images := []; texts := [];
     theme := theme u; defaultFont := defaultFont u;
     options := options u; onEscape := None; keys := keys u |}.

Definition removeAllControlsExceptToasts (u : t) : t :=
  {| controls := []; focusIndex := -1; modals := [];
     toasts := toasts u; images := []; texts := [];
     theme := theme u; defaultFont := defaultFont u;
     options := options u; onEscape := None; keys := keys u |}.

Definition addImage (u : t) (img : ImageObj) : t :=
  {| controls := controls u; focusIndex := focusIndex u; modals := modals u;
     toasts := toasts u; images := images u ++ [img]; texts := texts u;
     theme := theme u; defaultFont := defaultFont u;
     options := options u; onEscape := onEscape u; keys := keys u |}.

Definition setBackground (u : t) (color : jsval) : t :=
  setOptions u
    {| backgroundColor := color;
       backgroundGradient := None;
       gradientDirection := gradientDirection (options u);
       noBackground := false |}.

Definition setBackgroundGradient (u : t) (gradient : option (list GradientStop))
    (direction : string) : t :=
  setOptions u
    {| backgroundColor := backgroundColor (options u);
       backgroundGradient := gradient;
       gradientDirection := Some direction;
       noBackground := false |}.

Definition setBackgroundNone (u : t) : t :=
  setOptions u
    {| backgroundColor := backgroundColor (options u);
       backgroundGradient := backgroundGradient (options u);
       gradientDirection := gradientDirection (options u);
       noBackground := true |}.

(** Is one of the font keys of [themeOptions] truthy? *)
Definition hasFontKey (o : gmap string jsval) : bool :=
  existsb (fun k => truthy (get o k))
    ["fontFamily"; "fontSize"; "fontWeight"; "fontStyle";
     "family"; "size"; "weight"; "style"].

Definition setTheme (u : t) (themeOptions : gmap string jsval) : t :=
  {| controls := controls u; focusIndex := focusIndex u; modals := modals u;
     toasts := toasts u; images := images u; texts := texts u;
     theme := themeOptions ∪ theme u;
     defaultFont :=
       if hasFontKey themeOptions then
         let d := defaultFont u in
         {| family := js_or (get themeOptions "fontFamily")
                        (js_or (get themeOptions "family") (family d));
            size := js_or (get themeOptions "fontSize")
                      (js_or (get themeOptions "size") (size d));
            weight := js_or (get themeOptions "fontWeight")
                        (js_or (get themeOptions "weight") (weight d));
            style := js_or (get themeOptions "fontStyle")
                       (js_or (get themeOptions "style") (style d)) |}
       else defaultFont u;
     options :=
       if truthy (get themeOptions "backgroundColor") then
         {| backgroundColor := get themeOptions "backgroundColor";
            backgroundGradient := backgroundGradient (options u);
            gradientDirection := gradientDirection (options u);
            noBackground := noBackground (options u) |}
       else options u;
     onEscape := onEscape u; keys := keys u |}.

(** [modals.indexOf(modal)], by identity. *)
Definition modalIndex (u : t) (m : ref) : option nat :=
  indexOf m (map Modal.id (modals u)).

Definition closeModal (u : t) (m : ref) : t :=
  match modalIndex u m with
  | Some index => setModals u (splice1 index (modals u))
  | None => u
  end.

(** The timer of [showToast]: [toasts.indexOf(toast)], then [splice]. *)
Definition dismissToast (u : t) (toast : ref) : t :=
  match indexOf toast (map Toast.id (toasts u)) with
  | Some index => setToasts u (splice1 index (toasts u))
  | None => u
  end.

(** The modal on top of the stack: [modals[modals.length - 1]]. *)
Definition topModal (u : t) : option Modal.t := last (modals u).

(** [theme.padding], read as a number by the arithmetic of the
    controls; a padding that is no number is outside the embedding and
    is read as 0. *)
Definition themePadding (u : t) : Q :=
  match get (theme u) "padding" with
  | JNum q => q
  | _ => 0
  end.

(** The background layer of [render]: the first operations it asks of
    the drawing surface. *)
Definition render_background (u : t) (cv : Canvas) : list CanvasOp :=
  if noBackground (options u) then []
  else
    (match backgroundGradient (options u) with
     | Some stops =>
         let direction := str_or (gradientDirection (options u)) "diagonal" in
         if String.eqb direction "horizontal" then
           FillStyleGradient 0 0 (canvasWidth cv) 0 stops
         else if String.eqb direction "vertical" then
           FillStyleGradient 0 0 0 (canvasHeight cv) stops
         else
           FillStyleGradient 0 0 (canvasWidth cv) (canvasHeight cv) stops
     | None => FillStyle (backgroundColor (options u))
     end)
    :: [FillRect 0 0 (canvasWidth cv) (canvasHeight cv)].
End UI.

(** ** The world: the manager, the heap of controls, the host's timers *)

Record Timer := {
  action : TimerAction;
  remaining : Q        (* host time left before the timeout fires *)
}.

Record World := {
  ui : UI.t;
  heap : gmap ref Control;
  canvas : Canvas;
  timers : list Timer;
  trace : list Event;
  nextRef : ref
}.

Definition withUI (w : World) (u : UI.t) : World :=
  {| ui := u; heap := heap w; canvas := canvas w; timers := timers w;
     trace := trace w; nextRef := nextRef w |}.

Definition withHeap (w : World) (h : gmap ref Control) : World :=
  {| ui := ui w; heap := h; canvas := canvas w; timers := timers w;
     trace := trace w; nextRef := nextRef w |}.

Definition withTimers (w : World) (l : list Timer) : World :=
  {| ui := ui w; heap := heap w; canvas := canvas w; timers := l;
     trace := trace w; nextRef := nextRef w |}.

Definition log (w : World) (evs : list Event) : World :=
  {| ui := ui w; heap := heap w; canvas := canvas w; timers := timers w;
     trace := trace w ++ evs; nextRef := nextRef w |}.

(** A manager and nothing else. *)
Definition worldOf (cv : Canvas) (u : UI.t) : World :=
  {| ui := u; heap := ∅; canvas := cv; timers := []; trace := [];
     nextRef := 0%nat |}.

Definition initWorld (cv : Canvas) (cfg : Config) : option World :=
  worldOf cv <$> UI.new cfg.

(** [new C(...)]: a fresh object in the heap. *)
Definition alloc (w : World) (c : Control) : ref * World :=
  (nextRef w,
   {| ui := ui w; heap := <[nextRef w := c]> (heap w); canvas := canvas w;
      timers := timers w; trace := trace w; nextRef := S (nextRef w) |}).

(** The effects of a handler reach the host: the calls join the trace, the
    timeouts join the timer queue. *)
Definition perform (w : World) (eff : Effects) : World :=
  withTimers (log w (events eff))
    (timers w ++ map (fun p => {| action := p.1; remaining := p.2 |}) (timeouts eff)).

(** The outcome of a handler of the control [r]. *)
Definition store (w : World) (r : ref) (res : Control * Effects) : World :=
  perform (withHeap w (<[r := res.1]> (heap w))) res.2.

Definition on_ui (f : UI.t -> UI.t) (w : World) : World := withUI w (f (ui w)).

Definition focusNext : World -> World := on_ui UI.focusNext.
Definition focusPrevious : World -> World := on_ui UI.focusPrevious.
Definition removeAllControls : World -> World := on_ui UI.removeAllControls.
Definition removeAllControlsExceptToasts : World -> World :=
  on_ui UI.removeAllControlsExceptToasts.

Definition removeControl (w : World) (control : ref) : World :=
  on_ui (fun u => UI.removeControl u control) w.

Definition closeModal (w : World) (modal : ref) : World :=
  on_ui (fun u => UI.closeModal u modal) w.

Definition setTheme (w : World) (themeOptions : gmap string jsval) : World :=
  on_ui (fun u => UI.setTheme u themeOptions) w.

Definition addControl (w : World) (control : ref) : World :=
  on_ui (fun u => UI.pushControl u control)
    (withHeap w (alter (Ctl.attach (UI.themePadding (ui w))) control (heap w))).

Definition showModal (w : World) (title message : string)
    (buttons : list Modal.button) (o : Modal.options) : Modal.t * World :=
  let self := nextRef w in
  let menu := S self in
  let '(modal, m) :=
    Modal.new self menu (canvas w) (UI.themePadding (ui w)) title message
      buttons o in
  (modal,
   {| ui := UI.setModals (ui w) (UI.modals (ui w) ++ [modal]);
      heap := <[menu := CMenu m]> (heap w);
      canvas := canvas w; timers := timers w; trace := trace w;
      nextRef := S menu |}).

Definition showToast (w : World) (message type : string) (duration : Q)
  : Toast.t * World :=
  let toast := Toast.new (nextRef w) message type duration in
  (toast,
   {| ui := UI.setToasts (ui w) (UI.toasts (ui w) ++ [toast]);
      heap := heap w; canvas := canvas w;
      timers := timers w
                ++ [{| action := DismissToast (nextRef w); remaining := duration |}];
      trace := trace w;
      nextRef := S (nextRef w) |}).

(** *** Calling a callback *)

Definition callButton (w : World) (cb : ButtonCallback) : World :=
  match cb with
  | BHost f => log w [HostCall f []]
  | BClose modal => closeModal w modal
  end.

Definition call (w : World) (cb : Callback) : World :=
  match cb with
  | Host f => log w [HostCall f []]
  | ModalButton modal inner =>
      closeModal
        (match inner with Some b => callButton w b | None => w end) modal
  end.

(** *** The host's timers *)

Definition menuAt (w : World) (r : ref) : option Menu.t :=
  match heap w !! r with
  | Some (CMenu m) => Some m
  | _ => None
  end.

(** [this.items[i].callback] and [this.items[this.selectedIndex].callback],
    [None] where JavaScript finds no function to call. *)
Definition itemCallback (m : Menu.t) (i : nat) : option Callback :=
  match Menu.items m !! i with
  | Some it => Menu.callback it
  | None => None
  end.

Definition selectedCallback (m : Menu.t) : option Callback :=
  match at_index (Menu.items m) (Menu.selectedIndex m) with
  | Some it => Menu.callback it
  | None => None
  end.

(** What a timeout does when it fires.  The menu's callbacks are read at
    that moment, and so is its selected index. *)
Definition fire (w : World) (a : TimerAction) : World :=
  match a with
  | FireItem menu i =>
      match menuAt w menu with
      | Some m =>
          match itemCallback m i with
          | Some cb => call w cb
          | None => log w [TypeError]
          end
      | None => log w [TypeError]
      end
  | FireSelected menu =>
      match menuAt w menu with
      | Some m =>
          match selectedCallback m with
          | Some cb => call w cb
          | None => log w [TypeError]
          end
      | None => log w [TypeError]
      end
  | DismissToast toast => on_ui (fun u => UI.dismissToast u toast) w
  end.

Definition isDue (dt : Q) (t : Timer) : bool := Qle_bool (remaining t) dt.

(** The timeouts that are due fire in the order of their deadlines, and in
    the order of registration when deadlines are equal. *)
Fixpoint insertDue (t : Timer) (l : list Timer) : list Timer :=
  match l with
  | [] => [t]
  | t' :: l' =>
      if Qle_bool (remaining t') (remaining t) then t' :: insertDue t l'
      else t :: l
  end.

Definition sortDue (l : list Timer) : list Timer :=
  fold_left (fun acc t => insertDue t acc) l [].

Definition later (dt : Q) (t : Timer) : Timer :=
  {| action := action t; remaining := (remaining t - dt)%Q |}.

(** Host time passes: [dt] milliseconds on the clock of [setTimeout]. *)
Definition elapse (w : World) (dt : Q) : World :=
  let due := sortDue (List.filter (isDue dt) (timers w)) in
  let rest := map (later dt) (List.filter (fun t => negb (isDue dt t)) (timers w)) in
  fold_left (fun w t => fire w (action t)) due (withTimers w rest).

(** *** Modal: the methods that act on the manager *)

Definition Modal_close (w : World) (m : Modal.t) : World :=
  closeModal w (Modal.id m).

(** A method of the menu of the dialog's buttons. *)
Definition onMenu (w : World) (m : Modal.t)
    (f : ref -> Menu.t -> Menu.t * Effects) : World :=
  match menuAt w (Modal.buttonMenu m) with
  | Some menu =>
      let r := f (Modal.buttonMenu m) menu in
      store w (Modal.buttonMenu m) (CMenu r.1, r.2)
  | None => w
  end.

Definition Modal_handleClick (w : World) (m : Modal.t) (px py : Q) : World :=
  onMenu w m
    (fun self menu =>
       if Menu.isOverInteractiveArea menu px py
       then Menu.handleClick self menu px py
       else (menu, no_effects)).

(** [if (escapeBtn && escapeBtn.callback) escapeBtn.callback()] *)
Definition callButtonOf (w : World) (b : option Modal.button) : World :=
  match b with
  | Some b =>
      match Modal.callback b with
      | Some cb => callButton w cb
      | None => w
      end
  | None => w
  end.

Definition Modal_handleKeyDown (w : World) (m : Modal.t) (e : KeyEvent) : World :=
  if String.eqb (key e) "Escape" then
    Modal_close (callButtonOf w (Modal.escapeButton m)) m
  else
    onMenu w m (fun self menu => Menu.handleKeyDown self menu e).

Definition Modal_handleGamepadButton (w : World) (m : Modal.t) (buttonIndex : Z)
  : World :=
  if buttonIndex =? 1 then
    Modal_close (callButtonOf w (Modal.exitButton m)) m
  else if buttonIndex =? 0 then onMenu w m Menu.activate
  else if buttonIndex =? 14 then
    onMenu w m (fun _ menu => (Menu.handleGamepadLeft menu, no_effects))
  else if buttonIndex =? 15 then
    onMenu w m (fun _ menu => (Menu.handleGamepadRight menu, no_effects))
  else w.

Definition Modal_update (w : World) (m : Modal.t) (deltaTime : Q) : World :=
  withHeap w (alter (fun c => Ctl.update c deltaTime) (Modal.buttonMenu m) (heap w)).

(** *** The frame tick *)

Definition update (w : World) (deltaTime : Q) : World :=
  let w1 :=
    fold_left
      (fun w r => withHeap w (alter (fun c => Ctl.update c deltaTime) r (heap w)))
      (UI.controls (ui w)) w in
  fold_left (fun w m => Modal_update w m deltaTime) (UI.modals (ui w1)) w1.

(** *** Input dispatch *)

(** The focused control, when [focusIndex] is within the sequence. *)
Definition focused (w : World) : option (ref * Control) :=
  match at_index (UI.controls (ui w)) (UI.focusIndex (ui w)) with
  | Some r =>
      match heap w !! r with
      | Some c => Some (r, c)
      | None => None
      end
  | None => None
  end.

(** [if (control.h) control.h(...)] on the focused control. *)
Definition toFocused (w : World)
    (h : ref -> Control -> option (Control * Effects)) : World :=
  match focused w with
  | Some (r, c) =>
      match h r c with
      | Some res => store w r res
      | None => w
      end
  | None => w
  end.

Definition pressKey (w : World) (k : string) : World :=
  on_ui (fun u =>
    {| UI.controls := UI.controls u; UI.focusIndex := UI.focusIndex u;
       UI.modals := UI.modals u; UI.toasts := UI.toasts u;
       UI.images := UI.images u; UI.texts := UI.texts u;
       UI.theme := UI.theme u; UI.defaultFont := UI.defaultFont u;
       UI.options := UI.options u; UI.onEscape := UI.onEscape u;
       UI.keys := <[k := true]> (UI.keys u) |}) w.

Definition onKeyDown (w : World) (e : KeyEvent) : World :=
  let w := pressKey w (key e) in
  if String.eqb (key e) "Escape" then
    match UI.topModal (ui w) with
    | Some modal => Modal_handleKeyDown w modal e
    | None =>
        match UI.onEscape (ui w) with
        | Some f => log w [HostCall f []]
        | None => w
        end
    end
  else
    match UI.topModal (ui w) with
    | Some modal => Modal_handleKeyDown w modal e
    | None =>
        if String.eqb (key e) "Tab" then
          if shiftKey e then focusPrevious w else focusNext w
        else toFocused w (fun r c => Ctl.handleKeyDown r c e)
    end.

(** The loop of [onMouseClick]: the indices [n - 1], ..., [0] of the
    sequence, the first control that holds the point. *)
Fixpoint scanClick (w : World) (px py : Q) (n : nat) : option (nat * ref * Control) :=
  match n with
  | O => None
  | S i =>
      match UI.controls (ui w) !! i with
      | Some r =>
          match heap w !! r with
          | Some c =>
              if Ctl.containsPoint c px py then Some (i, r, c)
              else scanClick w px py i
          | None => scanClick w px py i
          end
      | None => scanClick w px py i
      end
  end.

(** The call [control.handleClick(x, y, button)] is recorded in the trace
    before what the handler itself does. *)
Definition onMouseClick (w : World) (px py : Q) (button : Z) : World :=
  match UI.topModal (ui w) with
  | Some modal => Modal_handleClick w modal px py
  | None =>
      match scanClick w px py (length (UI.controls (ui w))) with
      | Some (i, r, c) =>
          let w := on_ui (fun u => UI.setFocus u (Z.of_nat i)) w in
          match Ctl.handleClick r c px py with
          | Some res => store (log w [HandleClick r px py]) r res
          | None => w
          end
      | None => w
      end
  end.

Definition onGamepadButton (w : World) (buttonIndex : Z) : World :=
  match UI.topModal (ui w) with
  | Some modal => Modal_handleGamepadButton w modal buttonIndex
  | None =>
      if buttonIndex =? 0 then toFocused w Ctl.activate
      else if buttonIndex =? 1 then
        match UI.onEscape (ui w) with
        | Some f => log w [HostCall f []]
        | None => w
        end
      else if buttonIndex =? 12 then focusPrevious w
      else if buttonIndex =? 13 then focusNext w
      else if buttonIndex =? 14 then
        toFocused w (fun _ c =>
          match Ctl.handleGamepadAxis c (-1) with
          | Some res => Some res
          | None => Ctl.handleGamepadLeft c
          end)
      else if buttonIndex =? 15 then
        toFocused w (fun _ c =>
          match Ctl.handleGamepadAxis c 1 with
          | Some res => Some res
          | None => Ctl.handleGamepadRight c
          end)
      else w
  end.

(** ** Runs of the manager *)

(** What the host does to a manager between two frames. *)
Inductive Op :=
| OpNew (c : Control)
| OpAddControl (control : ref)
| OpRemoveControl (control : ref)
| OpRemoveAllControls
| OpRemoveAllControlsExceptToasts
| OpFocusNext
| OpFocusPrevious
| OpClick (px py : Q) (button : Z)
| OpShowModal (title message : string) (buttons : list Modal.button)
    (o : Modal.options).

Definition run (w : World) (op : Op) : World :=
  match op with
  | OpNew c => (alloc w c).2
  | OpAddControl r => addControl w r
  | OpRemoveControl r => removeControl w r
  | OpRemoveAllControls => removeAllControls w
  | OpRemoveAllControlsExceptToasts => removeAllControlsExceptToasts w
  | OpFocusNext => focusNext w
  | OpFocusPrevious => focusPrevious w
  | OpClick px py button => onMouseClick w px py button
  | OpShowModal title message buttons o =>
      (showModal w title message buttons o).2
  end.

Definition runs (w : World) (ops : list Op) : World := fold_left run ops w.

(** The focus index is within the sequence, and is -1 exactly when the
    sequence is empty. *)
Definition focusInv (u : UI.t) : Prop :=
  -1 <= UI.focusIndex u <= UI.count u - 1
  /\ (UI.focusIndex u = -1 <-> UI.controls u = []).


(** The calls of the function [f] of the caller recorded in a trace. *)
Definition callsOf (f : nat) (l : list Event) : nat :=
  length (List.filter
            (fun e => match e with HostCall g _ => Nat.eqb g f | _ => false end) l).

(** What a timeout that fires does to the toasts: it reads nothing but the
    toasts themselves. *)
Definition toastsAfter (l : list Toast.t) (a : TimerAction) : list Toast.t :=
  match a with
  | DismissToast toast =>
      match indexOf toast (map Toast.id l) with
      | Some index => splice1 index l
      | None => l
      end
  | _ => l
  end.

(** ** Frames and host time *)

(** The host either runs a frame, [update(deltaTime)], or lets [dt]
    milliseconds pass on the clock of its timers. *)
Inductive Tick :=
| Frame (deltaTime : Q)
| Wait (dt : Q).

Definition tick (w : World) (t : Tick) : World :=
  match t with
  | Frame deltaTime => update w deltaTime
  | Wait dt => elapse w dt
  end.

Definition play (w : World) (ts : list Tick) : World := fold_left tick ts w.

(** The time given to the frames, and the host time that passed. *)
Fixpoint frameTime (ts : list Tick) : Q :=
  match ts with
  | [] => 0
  | Frame deltaTime :: ts => deltaTime + frameTime ts
  | Wait _ :: ts => frameTime ts
  end.

Fixpoint waited (ts : list Tick) : Q :=
  match ts with
  | [] => 0
  | Frame _ :: ts => waited ts
  | Wait dt :: ts => dt + waited ts
  end.

(** Host time does not run backwards. *)
Definition forwards (ts : list Tick) : Prop :=
  Forall (fun t => match t with Wait dt => (0 <= dt)%Q | Frame _ => True end) ts.

(** The three ways to activate the item [i] of the menu [m]: a click on
    it, Enter or Space while it is selected, the gamepad while it is
    selected. *)
Inductive activation (self : ref) (m : Menu.t) (i : nat)
  : Menu.t * Effects -> Prop :=
| ByClick (px py : Q) :
    Menu.itemAt m px py = Some i ->
    activation self m i (Menu.handleClick self m px py)
| ByKey (e : KeyEvent) :
    key e = "Enter" \/ key e = " " ->
    Menu.selectedIndex m = Z.of_nat i ->
    activation self m i (Menu.handleKeyDown self m e)
| ByGamepad :
    Menu.selectedIndex m = Z.of_nat i ->
    activation self m i (Menu.activate self m).

(** The menu at [r] has the items and the selection of an activation of
    its item [i]. *)
Definition menuKeptAt (r : ref) (items : list Menu.item) (i : nat) (w : World)
  : Prop :=
  exists m, menuAt w r = Some m /\ Menu.items m = items
            /\ Menu.selectedIndex m = Z.of_nat i.

(** The timeout such an activation registers. *)
Definition armedFor (r : ref) (i : nat) (a : TimerAction) : Prop :=
  a = FireItem r i \/ a = FireSelected r.

(** After [q] of host time: the timeout of duration [D] is pending and
    nothing was called, or it has fired and the callback [f] was called
    once. *)
Definition pendingOrFiredAt (r : ref) (items : list Menu.item) (i f : nat)
    (D : Q) (before : list Event) (w : World) (q : Q) : Prop :=
  menuKeptAt r items i w
  /\ ((~ (D <= q)%Q
       /\ exists a rem, armedFor r i a
            /\ timers w = [{| action := a; remaining := rem |}]
            /\ (rem == D - q)%Q /\ trace w = before)
      \/ ((D <= q)%Q /\ timers w = []
          /\ trace w = before ++ [HostCall f []])).

(** ** A manager to run the code on *)

Definition exampleCanvas : Canvas :=
  {| canvasWidth := 800; canvasHeight := 600;
     measureText := fun s => (Qnat (String.length s) * 8)%Q |}.

Definition exampleConfig : Config :=
  {| input := true; c_backgroundColor := None; c_backgroundGradient := None;
     c_gradientDirection := None; c_noBackground := None |}.

Definition exampleWorld : World :=
  worldOf exampleCanvas (UI.initial exampleConfig).

(** The dialog of the documentation: two buttons, Escape standing for
    the second. *)
Definition confirmButtons : list Modal.button :=
  [{| Modal.label := "Yes"; Modal.callback := Some (BHost 1) |};
   {| Modal.label := "No"; Modal.callback := Some (BHost 2) |}].

Definition confirmWorld : World :=
  (showModal exampleWorld "Confirm Action" "Are you sure you want to proceed?"
     confirmButtons
     {| Modal.o_escapeButtonLabel := Some "No";
        Modal.o_modalWidth := None; Modal.o_modalHeight := None |}).2.

(** The slider of the documentation, its value at the minimum. *)
Definition exampleSlider : Slider.t :=
  Slider.new 100 100 0 100 0 5 "Volume" (Some 7%nat) no_options.

(** A menu of two items, attached to the manager. *)
Definition exampleMenu : Menu.t :=
  Menu.new 0 0
    [{| Menu.label := "Start"; Menu.callback := Some (Host 1) |};
     {| Menu.label := "Quit"; Menu.callback := Some (Host 2) |}]
    no_options.

Definition exampleMenuWorld : World :=
  addControl (alloc exampleWorld (CMenu exampleMenu)).2 0%nat.

(** The menu as [addControl] leaves it in the heap. *)
Definition exampleMenuAttached : Menu.t :=
  Menu.withBase exampleMenu
    (Base.applyTheme 10 (Base.setManager (Menu.base exampleMenu))).

(** Three controls in the sequence, the focus on the second. *)
Definition exampleOps : list Op :=
  [OpNew (CMenu exampleMenu);
   OpNew (CSlider exampleSlider);
   OpNew (CPanel (Panel.new 0 0 no_options));
   OpAddControl 0%nat; OpAddControl 1%nat; OpAddControl 2%nat;
   OpFocusNext].

Definition exampleControls : World := runs exampleWorld exampleOps.

(** ** Statements of the specification that the code does not meet *)

(** "Calling setTheme with an object containing a backgroundColor key
    overwrites the manager's background fill color." *)
Definition setTheme_key_overwrites_fill : Prop :=
  forall (u : UI.t) (themeOptions : gmap string jsval) (v : jsval),
    themeOptions !! "backgroundColor" = Some v ->
    backgroundColor (UI.options (UI.setTheme u themeOptions)) = v.

(** "Any arrow-key step whose computed value equals the prior value fires
    no callback." *)
Definition slider_step_silent_when_unchanged : Prop :=
  forall (s : Slider.t) (e : KeyEvent),
    (Slider.value (Slider.handleKeyDown s e).1 == Slider.value s)%Q ->
    events (Slider.handleKeyDown s e).2 = [].

(** "After an activation the callback of the item is not invoked while
    the cumulative deltaTime passed to update is less than pressedDuration,
    and is invoked exactly once when it reaches pressedDuration." *)
Definition menu_callback_follows_frame_time : Prop :=
  forall (w : World) (r : ref) (m : Menu.t) (i f : nat)
         (res : Menu.t * Effects) (ts : list Tick),
    menuAt w r = Some m ->
    itemCallback m i = Some (Host f) ->
    activation r m i res ->
    timers w = [] ->
    forwards ts ->
    callsOf f (trace (play (store w r (CMenu res.1, res.2)) ts))
    = (callsOf f (trace w)
       + if Qle_bool (Menu.pressedDuration m) (frameTime ts) then 1 else 0)%nat.

(** Every modal of the stack is an object allocated before [nextRef]. *)
Definition modalsAllocated (w : World) : Prop :=
  Forall (fun m => (Modal.id m < nextRef w)%nat) (UI.modals (ui w)).

(** ** More values to run the code on *)

(** The selection of a menu names one of its items. *)
Definition menuSelectionValid (m : Menu.t) : Prop :=
  0 <= Menu.selectedIndex m < Menu.count m.

Definition exampleCarousel : Carousel.t :=
  Carousel.new 100 300 ["Easy"; "Normal"; "Hard"] 1 "Difficulty"
    (Some 5%nat) no_options.

Definition exampleRadio : Radio.t :=
  Radio.new 100 400 ["Low"; "Medium"; "High"] 0 "Quality" (Some 6%nat)
    no_options.


(** The frame time a list of frames adds up to. *)
Fixpoint sumQ (l : list Q) : Q :=
  match l with
  | [] => 0
  | d :: l => d + sumQ l
  end.


(** The caret of a text input is within its text. *)
Definition textCursorValid (c : TextInput.t) : Prop :=
  (TextInput.cursorPos c <= String.length (TextInput.value c))%nat.

(** A text input with the text [v] and the caret at [pos]. *)
Definition exampleTextInput (v : string) (pos : nat) : TextInput.t :=
  TextInput.edit (TextInput.new 100 200 "Enter your name..." no_options) v pos.


(** The value of a slider is within its range. *)
Definition sliderInRange (s : Slider.t) : Prop :=
  (Slider.min s <= Slider.value s)%Q /\ (Slider.value s <= Slider.max s)%Q.


(** [getThemeValue(key, fallback)]: the theme's value unless it is
    [undefined]. *)
Definition getThemeValue (u : UI.t) (k : string) (fallback : jsval) : jsval :=
  match get (UI.theme u) k with
  | JUndefined => fallback
  | v => v
  end.


(** The toast [t] is in the list, and no other toast of the list has its
    identity. *)
Definition onlyToast (t : Toast.t) (l : list Toast.t) : Prop :=
  exists l1 l2, l = l1 ++ t :: l2
    /\ (Toast.id t ∉ map Toast.id l1) /\ (Toast.id t ∉ map Toast.id l2).

(** No toast of the list has the identity [i]. *)
Definition toastGone (i : ref) (l : list Toast.t) : Prop :=
  i ∉ map Toast.id l.


(** What a modal on top leaves alone: the sequence of controls, the focus
    index, and every object but the menu of its buttons. *)
Definition controlsUntouched (m : Modal.t) (w w' : World) : Prop :=
  UI.controls (ui w') = UI.controls (ui w)
  /\ UI.focusIndex (ui w') = UI.focusIndex (ui w)
  /\ forall r, r ≠ Modal.buttonMenu m -> heap w' !! r = heap w !! r.

(** The menu [showModal] makes of the buttons of the dialog. *)
Definition showModalMenu (w : World) (title message : string)
    (buttons : list Modal.button) (o : Modal.options) : Menu.t :=
  (Modal.new (nextRef w) (S (nextRef w)) (canvas w) (UI.themePadding (ui w))
     title message buttons o).2.


(** The classes that define [update]. *)
Definition hasUpdate (c : Control) : bool :=
  match c with
  | CMenu _ | CTextInput _ => true
  | _ => false
  end.

(** The gradient [render] builds for a direction. *)
Definition gradientFor (cv : Canvas) (direction : string)
    (stops : list GradientStop) : CanvasOp :=
  if String.eqb direction "horizontal" then
    FillStyleGradient 0 0 (canvasWidth cv) 0 stops
  else if String.eqb direction "vertical" then
    FillStyleGradient 0 0 0 (canvasHeight cv) stops
  else FillStyleGradient 0 0 (canvasWidth cv) (canvasHeight cv) stops.


(** The test [options.width && options.height] of the constructor of
    [Modal]. *)
Definition customSize (o : Modal.options) : bool :=
  negb (Qeq_bool (num_or (Modal.o_modalWidth o) 0) 0)
  && negb (Qeq_bool (num_or (Modal.o_modalHeight o) 0) 0).


(** The Tab key, with or without Shift. *)
Definition tabKey (shift : bool) : KeyEvent :=
  {| key := "Tab"; shiftKey := shift; ctrlKey := false; metaKey := false |}.


(** The selection of a radio group names one of its items. *)
Definition radioSelectionValid (c : Radio.t) : Prop :=
  0 <= Radio.selectedIndex c < Radio.count c.

(** What a handler of a radio group did: nothing, or a selection of an
    item of the group, reported to the callback with its index. *)
Definition radioOutcome (c : Radio.t) (r : Radio.t * Effects) : Prop :=
  r = (c, no_effects)
  \/ exists (i : nat) (s : string),
       Radio.items c !! i = Some s
       /\ Radio.selectedIndex r.1 = Z.of_nat i
       /\ r.2 = call_if (Radio.callback c) [JNum (inject_Z (Z.of_nat i)); JStr s].

Definition exampleToggle : Toggle.t :=
  Toggle.new 100 100 "Sound" true (Some 7%nat) no_options.

(** A manager whose only control is [exampleToggle], under the focus. *)
Definition exampleToggleWorld : World :=
  let w := worldOf exampleCanvas (UI.initial exampleConfig) in
  let '(r, w) := alloc w (CToggle exampleToggle) in
  addControl w r.


(** The dialog of [confirmWorld]. *)
Definition confirmModal : Modal.t :=
  (showModal exampleWorld "Confirm Action" "Are you sure you want to proceed?"
     confirmButtons
     {| Modal.o_escapeButtonLabel := Some "No";
        Modal.o_modalWidth := None; Modal.o_modalHeight := None |}).1.

(** A dialog whose Escape label names none of its buttons. *)
Definition orphanOptions : Modal.options :=
  {| Modal.o_escapeButtonLabel := Some "Cancel";
     Modal.o_modalWidth := None; Modal.o_modalHeight := None |}.

Definition orphanModal : Modal.t :=
  (showModal exampleWorld "Confirm Action" "Proceed?" confirmButtons
     orphanOptions).1.

Definition orphanWorld : World :=
  (showModal exampleWorld "Confirm Action" "Proceed?" confirmButtons
     orphanOptions).2.

(** The toggle as [addControl] leaves it in the heap. *)
Definition exampleToggleAttached : Toggle.t :=
  Toggle.withBase exampleToggle
    (Base.applyTheme (UI.themePadding (UI.initial exampleConfig))
       (Base.setManager (Toggle.base exampleToggle))).


(** The panel of [exampleOps] as [addControl] leaves it in the heap. *)
Definition examplePanelAttached : Base.t :=
  Base.applyTheme (UI.themePadding (UI.initial exampleConfig))
    (Base.setManager (Panel.new 0 0 no_options)).


(** ** Where the embedding is exact *)

(** A string of ASCII characters: on these [toLowerCase] is the
    [toLowerCase] of JavaScript. *)
Definition isASCII (s : string) : bool :=
  forallb (fun c => (nat_of_ascii c <? 128)%nat) (list_ascii_of_string s).

(** An integer of magnitude at most 2^30.  The doubles of JavaScript add,
    subtract and multiply a few of these without rounding. *)
Definition smallInt (q : Q) : Prop :=
  exists z : Z, (q == inject_Z z)%Q /\ Z.abs z <= 2 ^ 30.

(** A magnitude of at most 2^1000: sums and differences of a few of
    these stay finite in the doubles of JavaScript. *)
Definition moderate (q : Q) : Prop :=
  (inject_Z (- 2 ^ 1000) <= q /\ q <= inject_Z (2 ^ 1000))%Q.


(** A frame time of a whole, non-negative number of milliseconds. *)
Definition wholeMs (d : Q) : Prop :=
  exists z : Z, (d == inject_Z z)%Q /\ 0 <= z.

(** * Properties *)

(** ** Records *)

Lemma setFocus_id (u : UI.t) : UI.setFocus u (UI.focusIndex u) = u.
Proof. by destruct u. Qed.

Lemma withUI_id (w : World) : withUI w (ui w) = w.
Proof. by destruct w. Qed.

Lemma on_ui_on_ui (f g : UI.t -> UI.t) (w : World) :
  on_ui f (on_ui g w) = on_ui (fun u => f (g u)) w.
Proof. reflexivity. Qed.

Lemma iter_on_ui (f : UI.t -> UI.t) (n : nat) (w : World) :
  Nat.iter n (on_ui f) w = withUI w (Nat.iter n f (ui w)).
Proof.
  induction n as [|n IH]; simpl.
  - by rewrite withUI_id.
  - by rewrite IH.
Qed.

Lemma fold_left_proj {A B C} (proj : A -> C) (f : A -> B -> A) (l : list B) (a : A) :
  (forall a b, proj (f a b) = proj a) -> proj (fold_left f l a) = proj a.
Proof.
  intros H. revert a. induction l as [|b l IH]; intros a; simpl; [done|].
  by rewrite IH, H.
Qed.

Lemma fold_left_pres {A B} (P : A -> Prop) (f : A -> B -> A) (l : list B) (a : A) :
  (forall a b, P a -> P (f a b)) -> P a -> P (fold_left f l a).
Proof.
  intros H. revert a. induction l as [|b l IH]; intros a Ha; simpl; [done|].
  apply IH. by apply H.
Qed.

(** ** Focus navigation *)

Section Focus.
Variable u : UI.t.
Let n := UI.count u.
Hypothesis nonempty : 0 < n.
Hypothesis valid : 0 <= UI.focusIndex u < n.

Lemma iter_focusNext (k : nat) :
  Nat.iter k UI.focusNext u
  = UI.setFocus u ((UI.focusIndex u + Z.of_nat k) mod n).
Proof using nonempty valid.
  induction k as [|k IH].
  - simpl. rewrite Z.add_0_r, Z.mod_small by lia. by rewrite setFocus_id.
  - rewrite Nat.iter_succ, IH. unfold UI.focusNext.
    change (UI.count (UI.setFocus u _)) with n. simpl.
    destruct (Z.eqb_spec n 0) as [E|_]; [lia|].
    rewrite Z.rem_mod_nonneg.
    + rewrite Zplus_mod_idemp_l. do 2 f_equal. lia.
    + pose proof (Z.mod_pos_bound (UI.focusIndex u + Z.of_nat k) n). lia.
    + lia.
Qed.

Lemma iter_focusPrevious (k : nat) :
  Nat.iter k UI.focusPrevious u
  = UI.setFocus u ((UI.focusIndex u - Z.of_nat k) mod n).
Proof using nonempty valid.
  induction k as [|k IH].
  - simpl. rewrite Z.sub_0_r, Z.mod_small by lia. by rewrite setFocus_id.
  - rewrite Nat.iter_succ, IH. unfold UI.focusPrevious.
    change (UI.count (UI.setFocus u _)) with n. simpl.
    destruct (Z.eqb_spec n 0) as [E|_]; [lia|].
    rewrite Z.rem_mod_nonneg.
    + replace ((UI.focusIndex u - Z.of_nat k) mod n - 1 + n)
        with ((UI.focusIndex u - Z.of_nat k) mod n + (n - 1)) by lia.
      rewrite Zplus_mod_idemp_l.
      replace (UI.focusIndex u - Z.of_nat k + (n - 1))
        with (UI.focusIndex u - Z.of_nat (S k) + 1 * n) by lia.
      by rewrite Z_mod_plus_full.
    + pose proof (Z.mod_pos_bound (UI.focusIndex u - Z.of_nat k) n). lia.
    + lia.
Qed.
End Focus.

(** C6. On a manager with a sequence of n > 0 controls and a focus index
    within it, n calls of [focusNext] restore the manager, and so do n
    calls of [focusPrevious]; on an empty sequence one call of either
    leaves the whole state as it was. *)
Theorem focus_wraparound (w : World) (n : nat) :
  length (UI.controls (ui w)) = n ->
  (n = 0%nat \/ 0 <= UI.focusIndex (ui w) < Z.of_nat n) ->
  Nat.iter n focusNext w = w
  /\ Nat.iter n focusPrevious w = w
  /\ (n = 0%nat -> focusNext w = w /\ focusPrevious w = w).
Proof.
  intros Hn Hv. unfold focusNext, focusPrevious.
  destruct (decide (n = 0%nat)) as [->|Hpos].
  - simpl. split; [done|]. split; [done|]. intros _.
    unfold on_ui, UI.focusNext, UI.focusPrevious, UI.count.
    rewrite Hn. simpl. by rewrite withUI_id.
  - destruct Hv as [?|Hv]; [done|].
    assert (Hc : UI.count (ui w) = Z.of_nat n) by (unfold UI.count; by rewrite Hn).
    rewrite !iter_on_ui.
    rewrite iter_focusNext, iter_focusPrevious by (rewrite Hc; lia).
    rewrite Hc.
    replace ((UI.focusIndex (ui w) + Z.of_nat n) mod Z.of_nat n)
      with (UI.focusIndex (ui w)).
    2:{ replace (UI.focusIndex (ui w) + Z.of_nat n)
          with (UI.focusIndex (ui w) + 1 * Z.of_nat n) by lia.
        rewrite Z_mod_plus_full, Z.mod_small; lia. }
    replace ((UI.focusIndex (ui w) - Z.of_nat n) mod Z.of_nat n)
      with (UI.focusIndex (ui w)).
    2:{ replace (UI.focusIndex (ui w) - Z.of_nat n)
          with (UI.focusIndex (ui w) + (-1) * Z.of_nat n) by lia.
        rewrite Z_mod_plus_full, Z.mod_small; lia. }
    rewrite setFocus_id, withUI_id. split; [done|]. split; [done|]. lia.
Qed.

(** ** What a handler leaves alone *)

Lemma ui_perform (w : World) (eff : Effects) : ui (perform w eff) = ui w.
Proof. reflexivity. Qed.

Lemma ui_store (w : World) (r : ref) (res : Control * Effects) :
  ui (store w r res) = ui w.
Proof. reflexivity. Qed.

Lemma ui_onMenu (w : World) (m : Modal.t) f : ui (onMenu w m f) = ui w.
Proof. unfold onMenu. by destruct (menuAt w (Modal.buttonMenu m)). Qed.

Lemma ui_Modal_handleClick (w : World) (m : Modal.t) (px py : Q) :
  ui (Modal_handleClick w m px py) = ui w.
Proof. apply ui_onMenu. Qed.

(** ** Arrays *)

Lemma indexOf_lt (r : ref) (l : list ref) (i : nat) :
  indexOf r l = Some i -> (i < length l)%nat.
Proof.
  revert i. induction l as [|r' l IH]; intros i; simpl; [done|].
  destruct (Nat.eqb r' r).
  - intros [= <-]. lia.
  - destruct (indexOf r l) as [j|]; simpl; [|done].
    intros [= <-]. specialize (IH j eq_refl). lia.
Qed.

Lemma indexOf_elem (r : ref) (l : list ref) :
  r ∈ l -> is_Some (indexOf r l).
Proof.
  induction l as [|r' l IH]; simpl.
  - by intros ?%elem_of_nil.
  - intros [->|Hin]%elem_of_cons.
    + rewrite Nat.eqb_refl. eauto.
    + destruct (Nat.eqb r' r); [eauto|].
      destruct (IH Hin) as [j ->]. simpl. eauto.
Qed.

Lemma indexOf_lookup (r : ref) (l : list ref) (i : nat) :
  indexOf r l = Some i -> l !! i = Some r.
Proof.
  revert i. induction l as [|r' l IH]; intros i; simpl; [done|].
  destruct (Nat.eqb_spec r' r) as [->|_].
  - by intros [= <-].
  - destruct (indexOf r l) as [j|]; simpl; [|done].
    intros [= <-]. by apply IH.
Qed.

Lemma length_splice1 {A} (i : nat) (l : list A) :
  (i < length l)%nat -> length (splice1 i l) = (length l - 1)%nat.
Proof.
  intros Hi. unfold splice1.
  rewrite length_app, length_take, length_drop. lia.
Qed.

Lemma scanClick_lt (w : World) (px py : Q) (n i : nat) r c :
  scanClick w px py n = Some (i, r, c) -> (i < n)%nat.
Proof.
  induction n as [|n IH]; simpl; [done|].
  destruct (UI.controls (ui w) !! n) as [r'|]; [|intros ?%IH; lia].
  destruct (heap w !! r') as [c'|]; [|intros ?%IH; lia].
  destruct (Ctl.containsPoint c' px py); [|intros ?%IH; lia].
  intros [= <- <- <-]. lia.
Qed.

(** ** The invariant of the focus index *)

Lemma focusInv_initial (cfg : Config) : focusInv (UI.initial cfg).
Proof. unfold focusInv, UI.count. simpl. split; [lia|done]. Qed.

Lemma focusInv_empty (u : UI.t) :
  UI.controls u = [] -> UI.focusIndex u = -1 -> focusInv u.
Proof.
  intros Hc Hf. unfold focusInv, UI.count. rewrite Hc, Hf. simpl.
  split; [lia|done].
Qed.

(** A focus index within a non-empty sequence. *)
Lemma focusInv_within (u : UI.t) :
  0 <= UI.focusIndex u < UI.count u -> focusInv u.
Proof.
  intros H. unfold focusInv. split; [lia|]. split; [lia|].
  intros Hc. unfold UI.count in H. rewrite Hc in H. simpl in H. lia.
Qed.

Lemma focusInv_cases (u : UI.t) :
  focusInv u ->
  (UI.controls u = [] /\ UI.focusIndex u = -1)
  \/ 0 <= UI.focusIndex u < UI.count u.
Proof.
  intros [Hr Hi]. destruct (decide (UI.focusIndex u = -1)) as [E|E].
  - left. split; [by apply Hi|done].
  - right. lia.
Qed.

Lemma focusInv_focusNext (u : UI.t) : focusInv u -> focusInv (UI.focusNext u).
Proof.
  intros H. unfold UI.focusNext.
  destruct (Z.eqb_spec (UI.count u) 0) as [E|E]; [done|].
  destruct (focusInv_cases u H) as [[Hc _]|Hv].
  { unfold UI.count in E. rewrite Hc in E. done. }
  apply focusInv_within. change (UI.count (UI.setFocus u _)) with (UI.count u).
  simpl. rewrite Z.rem_mod_nonneg by lia.
  apply Z.mod_pos_bound. lia.
Qed.

Lemma focusInv_focusPrevious (u : UI.t) :
  focusInv u -> focusInv (UI.focusPrevious u).
Proof.
  intros H. unfold UI.focusPrevious.
  destruct (Z.eqb_spec (UI.count u) 0) as [E|E]; [done|].
  destruct (focusInv_cases u H) as [[Hc _]|Hv].
  { unfold UI.count in E. rewrite Hc in E. done. }
  apply focusInv_within. change (UI.count (UI.setFocus u _)) with (UI.count u).
  simpl. rewrite Z.rem_mod_nonneg by lia.
  apply Z.mod_pos_bound. lia.
Qed.

Lemma focusInv_pushControl (u : UI.t) (r : ref) :
  focusInv u -> focusInv (UI.pushControl u r).
Proof.
  intros H. unfold UI.pushControl.
  destruct (focusInv_cases u H) as [[Hc Hf]|Hv].
  - destruct u; simpl in *; subst. simpl.
    apply focusInv_within. unfold UI.count. simpl. lia.
  - simpl. destruct (Z.eqb_spec (UI.focusIndex u) (-1)) as [E|_]; [lia|].
    simpl. apply focusInv_within. unfold UI.count in *. simpl.
    rewrite length_app. simpl. lia.
Qed.

Lemma focusInv_removeControl (u : UI.t) (r : ref) :
  focusInv u -> focusInv (UI.removeControl u r).
Proof.
  intros H. unfold UI.removeControl.
  destruct (indexOf r (UI.controls u)) as [i|] eqn:Hi; [|done].
  apply indexOf_lt in Hi.
  destruct (focusInv_cases u H) as [[Hc _]|Hv].
  { rewrite Hc in Hi. simpl in Hi. lia. }
  pose proof (length_splice1 i (UI.controls u) Hi) as Hl.
  unfold UI.count in *. simpl. rewrite Hl.
  destruct (Z.leb_spec (Z.of_nat (length (UI.controls u) - 1)) (UI.focusIndex u))
    as [Hge|Hlt].
  - destruct (decide (length (UI.controls u) = 1%nat)) as [E1|E1].
    + apply focusInv_empty; simpl.
      * apply nil_length_inv. lia.
      * rewrite E1. done.
    + apply focusInv_within. unfold UI.count. simpl. rewrite Hl. lia.
  - apply focusInv_within. unfold UI.count. simpl. rewrite Hl. lia.
Qed.

Lemma focusInv_onMouseClick (w : World) (px py : Q) (button : Z) :
  focusInv (ui w) -> focusInv (ui (onMouseClick w px py button)).
Proof.
  intros H. unfold onMouseClick.
  destruct (UI.topModal (ui w)) as [m|]; [by rewrite ui_Modal_handleClick|].
  destruct (scanClick w px py (length (UI.controls (ui w))))
    as [[[i r] c]|] eqn:Hs; [|done].
  apply scanClick_lt in Hs.
  assert (focusInv (UI.setFocus (ui w) (Z.of_nat i))) as Hi.
  { apply focusInv_within. unfold UI.count. simpl. lia. }
  by destruct (Ctl.handleClick r c px py).
Qed.

Lemma focusInv_run (w : World) (op : Op) :
  focusInv (ui w) -> focusInv (ui (run w op)).
Proof.
  intros H. destruct op; simpl; try done.
  - by apply focusInv_pushControl.
  - by apply focusInv_removeControl.
  - by apply focusInv_focusNext.
  - by apply focusInv_focusPrevious.
  - by apply focusInv_onMouseClick.
  - unfold showModal. by destruct (Modal.new _ _ _ _ _ _ _ _).
Qed.

Lemma focusInv_runs (ops : list Op) (w : World) :
  focusInv (ui w) -> focusInv (ui (runs w ops)).
Proof.
  revert w. induction ops as [|op ops IH]; intros w H; simpl; [done|].
  apply IH. by apply focusInv_run.
Qed.

(** The sequence after the controls [rs] were added one by one. *)
Lemma controls_addControls (rs : list ref) (w : World) :
  UI.controls (ui (fold_left addControl rs w)) = UI.controls (ui w) ++ rs.
Proof.
  revert w. induction rs as [|r rs IH]; intros w; simpl.
  - by rewrite app_nil_r.
  - rewrite IH. unfold addControl, on_ui, UI.pushControl. simpl.
    destruct (_ && _); simpl; by rewrite <- app_assoc.
Qed.

Lemma focusInv_addControls (rs : list ref) (w : World) :
  focusInv (ui w) -> focusInv (ui (fold_left addControl rs w)).
Proof.
  revert w. induction rs as [|r rs IH]; intros w H; simpl; [done|].
  apply IH. by apply focusInv_pushControl.
Qed.

(** C5. From a new manager, after any sequence of operations (controls
    made, added, removed, all removed, focus moved forwards or backwards,
    clicks, modals shown), the focus index lies in [-1, length - 1] and is
    -1 exactly when the sequence of controls is empty.  In particular, after
    N controls are added and one of them is removed, the focus index lies
    in [-1, N - 2] and is -1 exactly when the sequence is empty. *)
Theorem focus_index_invariant (cv : Canvas) (cfg : Config) (w0 : World) :
  initWorld cv cfg = Some w0 ->
  (forall ops : list Op, focusInv (ui (runs w0 ops)))
  /\ (forall (rs : list ref) (r : ref),
        r ∈ rs ->
        let u := ui (removeControl (fold_left addControl rs w0) r) in
        -1 <= UI.focusIndex u <= Z.of_nat (length rs) - 2
        /\ (UI.focusIndex u = -1 <-> UI.controls u = [])).
Proof.
  unfold initWorld, UI.new. intros H0.
  destruct (input cfg); simpl in H0; [|done].
  injection H0 as <-. split.
  - intros ops. apply focusInv_runs. apply focusInv_initial.
  - intros rs r Hin. cbv zeta.
    set (u := ui (removeControl _ r)).
    pose proof (focusInv_addControls rs (worldOf cv (UI.initial cfg))
                  (focusInv_initial cfg)) as Hadd.
    assert (focusInv u) as [Hrange Hiff]
      by exact (focusInv_removeControl _ r Hadd).
    split; [|done].
    assert (UI.count u = Z.of_nat (length rs) - 1) as Hlen; [|lia].
    subst u. unfold removeControl, on_ui, UI.removeControl. simpl.
    rewrite controls_addControls. simpl.
    destruct (indexOf_elem r rs Hin) as [i Hi]. rewrite Hi.
    pose proof (length_splice1 i rs (indexOf_lt _ _ _ Hi)) as Hl.
    apply indexOf_lt in Hi.
    destruct (_ <=? _); unfold UI.count; simpl; rewrite Hl; lia.
Qed.

(** ** Clearing the manager *)

Lemma toasts_closeModal (w : World) (m : ref) :
  UI.toasts (ui (closeModal w m)) = UI.toasts (ui w).
Proof.
  unfold closeModal, on_ui, UI.closeModal. simpl.
  by destruct (UI.modalIndex (ui w) m).
Qed.

Lemma toasts_callButton (w : World) (cb : ButtonCallback) :
  UI.toasts (ui (callButton w cb)) = UI.toasts (ui w).
Proof. destruct cb; unfold callButton; [done|apply toasts_closeModal]. Qed.

Lemma toasts_call (w : World) (cb : Callback) :
  UI.toasts (ui (call w cb)) = UI.toasts (ui w).
Proof.
  destruct cb as [f|m [b|]]; unfold call; [done| |].
  - by rewrite toasts_closeModal, toasts_callButton.
  - by rewrite toasts_closeModal.
Qed.

Lemma toasts_fire (w : World) (a : TimerAction) :
  UI.toasts (ui (fire w a)) = toastsAfter (UI.toasts (ui w)) a.
Proof.
  destruct a as [menu i|menu|toast]; simpl.
  - destruct (menuAt w menu) as [m|]; [|done].
    destruct (itemCallback m i); [apply toasts_call|done].
  - destruct (menuAt w menu) as [m|]; [|done].
    destruct (selectedCallback m); [apply toasts_call|done].
  - unfold UI.dismissToast.
    by destruct (indexOf toast (map Toast.id (UI.toasts (ui w)))).
Qed.

Lemma toasts_fires (due : list Timer) (w : World) :
  UI.toasts (ui (fold_left (fun w t => fire w (action t)) due w))
  = fold_left (fun l t => toastsAfter l (action t)) due (UI.toasts (ui w)).
Proof.
  revert w. induction due as [|t due IH]; intros w; simpl; [done|].
  by rewrite IH, toasts_fire.
Qed.

(** The toasts left after [dt] of host time depend on the toasts and on
    the pending timeouts only. *)
Lemma toasts_elapse (w1 w2 : World) (dt : Q) :
  UI.toasts (ui w1) = UI.toasts (ui w2) -> timers w1 = timers w2 ->
  UI.toasts (ui (elapse w1 dt)) = UI.toasts (ui (elapse w2 dt)).
Proof.
  intros Ht Hq. unfold elapse. rewrite !toasts_fires. simpl.
  by rewrite Ht, Hq.
Qed.

(** C7. [removeAllControls] empties the controls, the overlay texts and
    images, the modals and the toasts, sets the focus index to -1 and drops
    the escape handler; [removeAllControlsExceptToasts] does the same but
    leaves the toasts as they were, and the timeouts pending in the host
    too, so that each toast goes when it would have gone; neither touches
    the background configuration. *)
Theorem removeAll_frame (w : World) :
  let a := removeAllControls w in
  let b := removeAllControlsExceptToasts w in
  (UI.controls (ui a) = [] /\ UI.focusIndex (ui a) = -1
   /\ UI.texts (ui a) = [] /\ UI.images (ui a) = []
   /\ UI.modals (ui a) = [] /\ UI.toasts (ui a) = []
   /\ UI.onEscape (ui a) = None)
  /\ (UI.controls (ui b) = [] /\ UI.focusIndex (ui b) = -1
      /\ UI.texts (ui b) = [] /\ UI.images (ui b) = []
      /\ UI.modals (ui b) = [] /\ UI.onEscape (ui b) = None)
  /\ (UI.toasts (ui b) = UI.toasts (ui w) /\ timers b = timers w
      /\ forall dt : Q,
           UI.toasts (ui (elapse b dt)) = UI.toasts (ui (elapse w dt)))
  /\ (UI.options (ui a) = UI.options (ui w)
      /\ UI.options (ui b) = UI.options (ui w)).
Proof.
  cbv zeta. split; [by repeat split|]. split; [by repeat split|].
  split; [|by split]. split; [done|]. split; [done|].
  intros dt. by apply toasts_elapse.
Qed.

(** ** Click dispatch *)




Lemma scanClick_Some (w : World) (px py : Q) (n i : nat) r c :
  scanClick w px py n = Some (i, r, c) ->
  UI.controls (ui w) !! i = Some r /\ heap w !! r = Some c
  /\ Ctl.containsPoint c px py = true
  /\ forall j r' c', (i < j < n)%nat -> UI.controls (ui w) !! j = Some r' ->
       heap w !! r' = Some c' -> Ctl.containsPoint c' px py = false.
Proof.
  induction n as [|n IH]; simpl; [done|].
  assert (scanClick w px py n = Some (i, r, c) ->
          (forall r' c', UI.controls (ui w) !! n = Some r' ->
             heap w !! r' = Some c' -> Ctl.containsPoint c' px py = false) ->
          UI.controls (ui w) !! i = Some r /\ heap w !! r = Some c
          /\ Ctl.containsPoint c px py = true
          /\ forall j r' c', (i < j < S n)%nat ->
               UI.controls (ui w) !! j = Some r' ->
               heap w !! r' = Some c' -> Ctl.containsPoint c' px py = false)
    as Hstep.
  { intros Hs Hn. destruct (IH Hs) as (H1 & H2 & H3 & H4).
    repeat split; try done. intros j r' c' Hj Hr' Hc'.
    destruct (decide (j = n)) as [->|Hne]; [by eapply Hn|].
    apply (H4 j r' c'); [lia|done|done]. }
  destruct (UI.controls (ui w) !! n) as [r'|] eqn:Hr.
  - destruct (heap w !! r') as [c'|] eqn:Hc.
    + destruct (Ctl.containsPoint c' px py) eqn:Hp.
      * intros [= <- <- <-]. repeat split; try done. intros j ? ? ?. lia.
      * intros Hs. apply Hstep; [done|]. intros r'' c'' [= <-]. congruence.
    + intros Hs. apply Hstep; [done|]. intros r'' c'' [= <-]. congruence.
  - intros Hs. apply Hstep; [done|]. intros r'' c'' [=].
Qed.


Lemma heap_store_ne (w : World) (r r' : ref) res :
  r' ≠ r -> heap (store w r res) !! r' = heap w !! r'.
Proof. intros Hne. simpl. by rewrite lookup_insert_ne. Qed.

Lemma heap_onMenu_ne (w : World) (m : Modal.t) f (r : ref) :
  r ≠ Modal.buttonMenu m -> heap (onMenu w m f) !! r = heap w !! r.
Proof.
  intros Hne. unfold onMenu. destruct (menuAt w (Modal.buttonMenu m)); [|done].
  by apply heap_store_ne.
Qed.


(** ** Modals *)

Lemma indexOf_None (r : ref) (l : list ref) :
  (forall x, x ∈ l -> x ≠ r) -> indexOf r l = None.
Proof.
  induction l as [|x l IH]; intros H; simpl; [done|].
  destruct (Nat.eqb_spec x r) as [->|_].
  - exfalso. apply (H r); [left|done].
  - rewrite IH; [done|]. intros y Hy. apply H. by right.
Qed.

Lemma indexOf_last (r : ref) (l : list ref) :
  (forall x, x ∈ l -> x ≠ r) -> indexOf r (l ++ [r]) = Some (length l).
Proof.
  induction l as [|x l IH]; intros H; simpl.
  - by rewrite Nat.eqb_refl.
  - destruct (Nat.eqb_spec x r) as [->|_].
    + exfalso. apply (H r); [left|done].
    + rewrite IH; [done|]. intros y Hy. apply H. by right.
Qed.

Lemma splice1_last {A} (l : list A) (x : A) : splice1 (length l) (l ++ [x]) = l.
Proof.
  unfold splice1. rewrite take_app_length.
  rewrite drop_ge; [by rewrite app_nil_r|].
  rewrite length_app. simpl. lia.
Qed.

(** Closing the modal that was just pushed gives back the stack. *)
Lemma closeModal_last (u : UI.t) (m : Modal.t) :
  (forall m', m' ∈ UI.modals u -> Modal.id m' ≠ Modal.id m) ->
  UI.modals (UI.closeModal (UI.setModals u (UI.modals u ++ [m])) (Modal.id m))
  = UI.modals u.
Proof.
  intros Hfresh. unfold UI.closeModal, UI.modalIndex. simpl.
  rewrite map_app. simpl. rewrite indexOf_last.
  - simpl. rewrite length_map. apply splice1_last.
  - intros x (m' & -> & Hin)%list_elem_of_fmap. by apply Hfresh.
Qed.

(** Closing a modal that is not in the stack changes nothing. *)
Lemma closeModal_absent (u : UI.t) (r : ref) :
  (forall m', m' ∈ UI.modals u -> Modal.id m' ≠ r) -> UI.closeModal u r = u.
Proof.
  intros Hfresh. unfold UI.closeModal, UI.modalIndex.
  rewrite indexOf_None; [done|].
  intros x (m' & -> & Hin)%list_elem_of_fmap. by apply Hfresh.
Qed.

Lemma topModal_push (u : UI.t) (m : Modal.t) :
  UI.topModal (UI.setModals u (UI.modals u ++ [m])) = Some m.
Proof. unfold UI.topModal. simpl. apply last_snoc. Qed.

Lemma modals_pushControl (u : UI.t) (r : ref) :
  UI.modals (UI.pushControl u r) = UI.modals u.
Proof. unfold UI.pushControl. by destruct (_ && _). Qed.

Lemma modals_removeControl (u : UI.t) (r : ref) :
  UI.modals (UI.removeControl u r) = UI.modals u.
Proof.
  unfold UI.removeControl. destruct (indexOf r (UI.controls u)); [|done].
  by destruct (_ <=? _).
Qed.

Lemma modals_focusNext (u : UI.t) : UI.modals (UI.focusNext u) = UI.modals u.
Proof. unfold UI.focusNext. by destruct (_ =? _). Qed.

Lemma modals_focusPrevious (u : UI.t) :
  UI.modals (UI.focusPrevious u) = UI.modals u.
Proof. unfold UI.focusPrevious. by destruct (_ =? _). Qed.

Lemma nextRef_onMenu (w : World) (m : Modal.t) f : nextRef (onMenu w m f) = nextRef w.
Proof. unfold onMenu. by destruct (menuAt w (Modal.buttonMenu m)). Qed.

Lemma modalsAllocated_onMouseClick (w : World) (px py : Q) (button : Z) :
  modalsAllocated w -> modalsAllocated (onMouseClick w px py button).
Proof.
  unfold modalsAllocated, onMouseClick. intros H.
  destruct (UI.topModal (ui w)) as [m|].
  - unfold Modal_handleClick. by rewrite ui_onMenu, nextRef_onMenu.
  - destruct (scanClick w px py (length (UI.controls (ui w)))) as [[[i r] c]|];
      [|done].
    by destruct (Ctl.handleClick r c px py).
Qed.

(** In every state a run reaches from a new manager the next object is
    none of the modals of the stack. *)
Lemma modalsAllocated_run (w : World) (op : Op) :
  modalsAllocated w -> modalsAllocated (run w op).
Proof.
  unfold modalsAllocated. intros H. destruct op; simpl.
  - eapply Forall_impl; [exact H|]. simpl. intros; lia.
  - by rewrite modals_pushControl.
  - by rewrite modals_removeControl.
  - constructor.
  - constructor.
  - by rewrite modals_focusNext.
  - by rewrite modals_focusPrevious.
  - by apply modalsAllocated_onMouseClick.
  - unfold showModal. destruct (Modal.new _ _ _ _ _ _ _ _) as [modal m] eqn:E.
    simpl. apply Forall_app. split.
    + eapply Forall_impl; [exact H|]. simpl. intros; lia.
    + constructor; [|constructor].
      unfold Modal.new in E. destruct (Modal.size _ _ _).
      injection E as <- _. simpl. lia.
Qed.

Lemma modalsAllocated_runs (ops : list Op) (cv : Canvas) (cfg : Config) :
  Forall (fun m => Modal.id m ≠ nextRef (runs (worldOf cv (UI.initial cfg)) ops))
    (UI.modals (ui (runs (worldOf cv (UI.initial cfg)) ops))).
Proof.
  assert (modalsAllocated (runs (worldOf cv (UI.initial cfg)) ops)) as H.
  { unfold runs. apply fold_left_pres.
    - intros a b. apply modalsAllocated_run.
    - constructor. }
  eapply Forall_impl; [exact H|]. simpl. intros; lia.
Qed.

(** C8. [showModal] with no buttons makes a modal with one button, labelled
    OK; it is pushed on the stack, and Escape takes it off the stack again
    without calling any function of the caller.  The modal is a new object:
    no modal of the stack has the identity it is given. *)
Theorem showModal_no_buttons_escape (w : World) (title message : string)
    (o : Modal.options) (e : KeyEvent) :
  key e = "Escape" ->
  Forall (fun m' => Modal.id m' ≠ nextRef w) (UI.modals (ui w)) ->
  let m := (showModal w title message [] o).1 in
  let w1 := (showModal w title message [] o).2 in
  map Modal.label (Modal.buttons m) = ["OK"]
  /\ UI.modals (ui w1) = UI.modals (ui w) ++ [m]
  /\ UI.modals (ui (onKeyDown w1 e)) = UI.modals (ui w)
  /\ trace (onKeyDown w1 e) = trace w.
Proof.
  intros He Hfresh. rewrite Forall_forall in Hfresh.
  cbv zeta. unfold showModal, Modal.new.
  destruct (Modal.size (canvas w) message o) as [width height]. simpl.
  split; [done|]. split; [done|].
  unfold onKeyDown. rewrite He. simpl.
  set (m := {| Modal.id := nextRef w |}).
  unfold pressKey, on_ui, UI.topModal. simpl. rewrite last_snoc.
  unfold Modal_handleKeyDown. rewrite He. simpl.
  set (u1 := {| UI.controls := UI.controls (ui w) |}).
  assert (UI.modals (UI.closeModal u1 (nextRef w)) = UI.modals (ui w)) as Hclose.
  { pose proof (closeModal_last
                  {| UI.controls := UI.controls (ui w);
                     UI.focusIndex := UI.focusIndex (ui w);
                     UI.modals := UI.modals (ui w);
                     UI.toasts := UI.toasts (ui w);
                     UI.images := UI.images (ui w);
                     UI.texts := UI.texts (ui w);
                     UI.theme := UI.theme (ui w);
                     UI.defaultFont := UI.defaultFont (ui w);
                     UI.options := UI.options (ui w);
                     UI.onEscape := UI.onEscape (ui w);
                     UI.keys := <["Escape":=true]> (UI.keys (ui w)) |}
                  m Hfresh) as H.
    exact H. }
  assert (forall u, UI.modals u = UI.modals (ui w) ->
            UI.modals (UI.closeModal u (nextRef w)) = UI.modals (ui w)) as Hagain.
  { intros u Hu. rewrite closeModal_absent; [done|]. by rewrite Hu. }
  unfold Modal_close, closeModal, on_ui. simpl.
  destruct (Modal.escapeButton m) as [b|] eqn:Hb; simpl.
  - assert (In b (Modal.buttons m)) as Hin.
    { unfold Modal.escapeButton in Hb.
      destruct (Modal.escapeButtonLabel m); by apply find_some in Hb as [? _]. }
    destruct Hin as [<-|[]].
    simpl. split; [|done]. by apply Hagain.
  - split; [|done]. exact Hclose.
Qed.

(** ** Themes and the background *)

Lemma options_pushControl (u : UI.t) (r : ref) :
  UI.options (UI.pushControl u r) = UI.options u.
Proof. unfold UI.pushControl. by destruct (_ && _). Qed.

Lemma options_removeControl (u : UI.t) (r : ref) :
  UI.options (UI.removeControl u r) = UI.options u.
Proof.
  unfold UI.removeControl. destruct (indexOf r (UI.controls u)); [|done].
  by destruct (_ <=? _).
Qed.

Lemma options_focusNext (u : UI.t) : UI.options (UI.focusNext u) = UI.options u.
Proof. unfold UI.focusNext. by destruct (_ =? _). Qed.

Lemma options_focusPrevious (u : UI.t) :
  UI.options (UI.focusPrevious u) = UI.options u.
Proof. unfold UI.focusPrevious. by destruct (_ =? _). Qed.

Lemma options_onMouseClick (w : World) (px py : Q) (button : Z) :
  UI.options (ui (onMouseClick w px py button)) = UI.options (ui w).
Proof.
  unfold onMouseClick.
  destruct (UI.topModal (ui w)) as [m|]; [by rewrite ui_Modal_handleClick|].
  destruct (scanClick w px py (length (UI.controls (ui w)))) as [[[i r] c]|];
    [|done].
  by destruct (Ctl.handleClick r c px py).
Qed.

(** No operation of a run sets the background. *)
Lemma options_run (w : World) (op : Op) :
  UI.options (ui (run w op)) = UI.options (ui w).
Proof.
  destruct op; simpl; try done.
  - apply options_pushControl.
  - apply options_removeControl.
  - apply options_focusNext.
  - apply options_focusPrevious.
  - apply options_onMouseClick.
  - unfold showModal. by destruct (Modal.new _ _ _ _ _ _ _ _).
Qed.

Lemma options_runs (ops : list Op) (w : World) :
  UI.options (ui (runs w ops)) = UI.options (ui w).
Proof.
  unfold runs. revert w. induction ops as [|op ops IH]; intros w; simpl; [done|].
  by rewrite IH, options_run.
Qed.

(** The empty string is a value for the key, and it is falsy: the theme
    takes it, the fill colour stays. *)
Lemma setTheme_empty_color_keeps_fill : ~ setTheme_key_overwrites_fill.
Proof.
  intros H.
  specialize (H (UI.initial exampleConfig) {[ "backgroundColor" := JStr "" ]}
                (JStr "") eq_refl).
  vm_compute in H. discriminate H.
Qed.

(** C9, amended. [setTheme] merges its argument over the theme, key by
    key.  When the value under [backgroundColor] is truthy it also becomes
    the fill colour of the background, the rest of the background
    configuration staying as it was: in solid-colour mode [render] then
    fills the whole surface with it, also after any run of operations that
    do not set the background.  When the value is falsy the background
    configuration is left as it was. *)
Theorem setTheme_backgroundColor (u : UI.t) (themeOptions : gmap string jsval)
    (v : jsval) :
  themeOptions !! "backgroundColor" = Some v ->
  let u' := UI.setTheme u themeOptions in
  UI.theme u' !! "backgroundColor" = Some v
  /\ (forall k x, themeOptions !! k = Some x -> UI.theme u' !! k = Some x)
  /\ (forall k, themeOptions !! k = None -> UI.theme u' !! k = UI.theme u !! k)
  /\ (truthy v = true ->
        backgroundColor (UI.options u') = v
        /\ backgroundGradient (UI.options u') = backgroundGradient (UI.options u)
        /\ gradientDirection (UI.options u') = gradientDirection (UI.options u)
        /\ noBackground (UI.options u') = noBackground (UI.options u)
        /\ (noBackground (UI.options u) = false ->
            backgroundGradient (UI.options u) = None ->
            forall (w : World) (ops : list Op),
              ui w = u' ->
              UI.render_background (ui (runs w ops)) (canvas w)
              = [FillStyle v;
                 FillRect 0 0 (canvasWidth (canvas w)) (canvasHeight (canvas w))]))
  /\ (truthy v = false -> UI.options u' = UI.options u).
Proof.
  intros Hv. cbv zeta.
  assert (forall k x, themeOptions !! k = Some x ->
            UI.theme (UI.setTheme u themeOptions) !! k = Some x) as Hmerge.
  { intros k x Hk. simpl. by apply lookup_union_Some_l. }
  split; [by apply Hmerge|]. split; [done|]. split.
  { intros k Hk. simpl. by rewrite lookup_union_r. }
  assert (get themeOptions "backgroundColor" = v) as Hget.
  { unfold get. by rewrite Hv. }
  split; intros Ht; simpl; rewrite Hget, Ht; [|done].
  repeat split. intros Hno Hgrad w ops Hw.
  unfold UI.render_background. rewrite options_runs, Hw. simpl.
  by rewrite Hget, Ht, Hno, Hgrad.
Qed.

(** ** Toasts *)

(** A type that is neither one of the four kinds nor a property of
    [Object.prototype] gets the info configuration. *)
Lemma showToast_unknown_type (w : World) (message type : string) (duration : Q) :
  type ∉ ["info"; "success"; "warning"; "error"] ->
  existsb (String.eqb type) Toast.objectPrototypeKeys = false ->
  Toast.config (showToast w message type duration).1 = Toast.info.
Proof.
  intros Hown Hproto. simpl. unfold Toast.lookupType.
  rewrite Hproto.
  assert (Toast.typeConfig !! type = None) as ->; [|done].
  apply not_elem_of_list_to_map_1. exact Hown.
Qed.

(** C10. The code at the type ['constructor']: the lookup in [typeConfig]
    finds the property inherited from [Object.prototype], so the fallback to
    the info configuration is not taken and the toast has neither the
    accent colour nor the glyph of an info toast. *)
Theorem showToast_inherited_type :
  let t := (showToast exampleWorld "Saved" "constructor" 3000).1 in
  let i := (showToast exampleWorld "Saved" "info" 3000).1 in
  Toast.config i = Toast.info
  /\ Toast.color (Toast.config i) = Some "#2196F3"
  /\ Toast.config t = Toast.inherited
  /\ Toast.color (Toast.config t) = None
  /\ Toast.icon (Toast.config t) = None
  /\ Toast.config t <> Toast.config i.
Proof. vm_compute. repeat split. discriminate. Qed.

(** ** Escape and gamepad button 1 on a modal *)

Lemma find_ext {A} (p q : A -> bool) (l : list A) :
  (forall x, p x = q x) -> List.find p l = List.find q l.
Proof.
  intros H. induction l as [|x l IH]; simpl; [done|].
  by rewrite H, IH.
Qed.

(** Without [escapeButtonLabel] the two inputs stand for the same button. *)
Lemma exitButton_escapeButton (m : Modal.t) :
  Modal.escapeButtonLabel m = None -> Modal.exitButton m = Modal.escapeButton m.
Proof.
  intros H. unfold Modal.exitButton, Modal.escapeButton. rewrite H.
  apply find_ext. intros b. simpl. by rewrite orb_false_r, orb_assoc.
Qed.

Lemma gamepad_like_escape_without_label (w : World) (m : Modal.t) (e : KeyEvent) :
  key e = "Escape" -> Modal.escapeButtonLabel m = None ->
  Modal_handleGamepadButton w m 1 = Modal_handleKeyDown w m e.
Proof.
  intros He Hl. unfold Modal_handleGamepadButton, Modal_handleKeyDown.
  rewrite He. simpl. by rewrite exitButton_escapeButton.
Qed.

(** C2. The code on the dialog of the documentation, whose options name
    the button No for Escape: Escape calls the callback of No and closes
    the dialog; gamepad button 1 closes the dialog and calls nothing. *)
Theorem modal_gamepad_ignores_escapeButtonLabel :
  trace (onKeyDown confirmWorld (key_of "Escape")) = [HostCall 2 []]
  /\ UI.modals (ui (onKeyDown confirmWorld (key_of "Escape"))) = []
  /\ trace (onGamepadButton confirmWorld 1) = []
  /\ UI.modals (ui (onGamepadButton confirmWorld 1)) = [].
Proof. vm_compute. repeat split. Qed.

(** ** Sliders *)

Lemma valueFromX_setValue (s : Slider.t) (v px : Q) :
  Slider.valueFromX (Slider.setValue s v) px = Slider.valueFromX s px.
Proof. reflexivity. Qed.

(** At the minimum, ArrowLeft leaves the value where it is and calls the
    callback all the same. *)
Lemma slider_step_at_min_calls_back : ~ slider_step_silent_when_unchanged.
Proof.
  intros H. specialize (H exampleSlider (key_of "ArrowLeft")).
  vm_compute in H. specialize (H eq_refl). discriminate H.
Qed.

(** The guard of [updateValueFromX] and its absence from the other
    handlers.  On a slider with a non-zero step and a track of non-zero
    width, [updateValueFromX] calls the callback only when the value it
    computes differs from the value the slider has, and a second call with
    the same abscissa changes nothing and calls nothing.  An arrow key or a
    gamepad step calls the callback, when there is one, with the clamped
    value, whether or not that value differs from the one before. *)
Lemma slider_callback_on_change (s : Slider.t) (px : Q) :
  ~ (Slider.step s == 0)%Q ->
  ~ (Slider.sliderWidth s == 0)%Q ->
  let r1 := Slider.updateValueFromX s px in
  let r2 := Slider.updateValueFromX r1.1 px in
  ((Slider.value r1.1 == Slider.value s)%Q -> events r1.2 = [])
  /\ r2 = (r1.1, no_effects)
  /\ (forall f : nat, Slider.callback s = Some f ->
        events (Slider.handleKeyDown s (key_of "ArrowLeft")).2
        = [HostCall f [JNum (Qmax (Slider.min s) (Slider.value s - Slider.step s))]]
        /\ events (Slider.handleKeyDown s (key_of "ArrowRight")).2
           = [HostCall f [JNum (Qmin (Slider.max s) (Slider.value s + Slider.step s))]]
        /\ forall direction : Q,
             events (Slider.handleGamepadAxis s direction).2
             = [HostCall f [JNum (Slider.value (Slider.handleGamepadAxis s direction).1)]]).
Proof.
  intros _ _. cbv zeta. unfold Slider.updateValueFromX.
  destruct (Qeq_bool (Slider.valueFromX s px) (Slider.value s)) eqn:E; simpl.
  - split; [done|]. split.
    + by rewrite E.
    + intros f Hf. unfold Slider.handleGamepadAxis. rewrite Hf. by repeat split.
  - split.
    + intros Heq. apply Qeq_bool_neq in E. by destruct E.
    + split.
      * rewrite valueFromX_setValue. simpl.
        assert (Qeq_bool (Slider.valueFromX s px) (Slider.valueFromX s px) = true)
          as -> by (apply Qeq_bool_iff; reflexivity).
        done.
      * intros f Hf. unfold Slider.handleGamepadAxis. rewrite Hf. by repeat split.
Qed.

(** ** The deferred callback of a menu *)

Lemma ui_update (w : World) (dt : Q) : ui (update w dt) = ui w.
Proof.
  unfold update.
  rewrite (fold_left_proj ui) by done. by rewrite (fold_left_proj ui).
Qed.

(** A frame calls nothing and registers nothing. *)
Lemma trace_update (w : World) (dt : Q) : trace (update w dt) = trace w.
Proof.
  unfold update.
  rewrite (fold_left_proj trace) by done. by rewrite (fold_left_proj trace).
Qed.

Lemma timers_update (w : World) (dt : Q) : timers (update w dt) = timers w.
Proof.
  unfold update.
  rewrite (fold_left_proj timers) by done. by rewrite (fold_left_proj timers).
Qed.

Lemma at_index_nat {A} (l : list A) (i : nat) : at_index l (Z.of_nat i) = l !! i.
Proof.
  unfold at_index. destruct (Z.ltb_spec (Z.of_nat i) 0); [lia|].
  by rewrite Nat2Z.id.
Qed.

Section Deferred.
Variables (r : ref) (items : list Menu.item) (i f : nat).
Variables (D : Q) (before : list Event).
Hypothesis item_callback :
  exists it, items !! i = Some it /\ Menu.callback it = Some (Host f).
Hypothesis positive : (0 < D)%Q.

Local Abbreviation menuKept := (menuKeptAt r items i).
Local Abbreviation armed := (armedFor r i).
Local Abbreviation pendingOrFired := (pendingOrFiredAt r items i f D before).

Lemma menuKept_alter (w : World) (r' : ref) (dt : Q) :
  menuKept w ->
  menuKept (withHeap w (alter (fun c => Ctl.update c dt) r' (heap w))).
Proof using Type.
  intros (m & Hm & Hi & Hs). unfold menuKeptAt, menuAt in *. simpl.
  rewrite lookup_alter. case_decide as E.
  - subst r'. destruct (heap w !! r) as [[]|]; try done.
    injection Hm as ->. exists (Menu.update m dt). repeat split.
    + rewrite <- Hi. unfold Menu.update.
      destruct (Menu.pressed m); [|done]. by destruct (Qle_bool _ _).
    + rewrite <- Hs. unfold Menu.update.
      destruct (Menu.pressed m); [|done]. by destruct (Qle_bool _ _).
  - by exists m.
Qed.

Lemma menuKept_update (w : World) (dt : Q) : menuKept w -> menuKept (update w dt).
Proof using Type.
  intros H. unfold update. apply fold_left_pres.
  - intros a b. apply menuKept_alter.
  - apply fold_left_pres; [|done]. intros a b. apply menuKept_alter.
Qed.

Lemma pendingOrFired_update (w : World) (q dt : Q) :
  pendingOrFired w q -> pendingOrFired (update w dt) q.
Proof using Type.
  intros [Hk H]. split; [by apply menuKept_update|].
  by rewrite timers_update, trace_update.
Qed.

Lemma fire_armed (w : World) (a : TimerAction) :
  menuKept w -> armed a -> fire w a = log w [HostCall f []].
Proof using item_callback.
  intros (m & Hm & Hi & Hs) Ha.
  destruct item_callback as (it & Hit & Hcb).
  destruct Ha as [-> | ->]; simpl; rewrite Hm.
  - unfold itemCallback. by rewrite Hi, Hit, Hcb.
  - unfold selectedCallback. by rewrite Hs, at_index_nat, Hi, Hit, Hcb.
Qed.

Lemma pendingOrFired_elapse (w : World) (q dt : Q) :
  (0 <= dt)%Q -> pendingOrFired w q -> pendingOrFired (elapse w dt) (q + dt).
Proof using item_callback.
  intros Hdt [Hk H]. unfold elapse.
  destruct H as [(Hlt & a & rem & Ha & Ht & Hrem & Htr)|(Hge & Ht & Htr)].
  - rewrite Ht. simpl. unfold isDue. simpl.
    destruct (Qle_bool rem dt) eqn:E; simpl.
    + apply Qle_bool_iff in E. rewrite fire_armed; [|done|done].
      split; [done|]. right. simpl. rewrite Htr. repeat split. lra.
    + split; [done|]. left. split.
      * intros Hle. apply not_true_iff_false in E. apply E.
        apply Qle_bool_iff. lra.
      * exists a, (rem - dt)%Q. repeat split; try done. lra.
  - rewrite Ht. simpl. split; [done|]. right. repeat split; try done. lra.
Qed.

Lemma pendingOrFired_eq (w : World) (q q' : Q) :
  (q == q')%Q -> pendingOrFired w q -> pendingOrFired w q'.
Proof using Type.
  intros Hq [Hk H]. split; [done|].
  destruct H as [(Hlt & a & rem & Ha & Ht & Hrem & Htr)|(Hge & Ht & Htr)].
  - left. split; [lra|]. exists a, rem. repeat split; try done. lra.
  - right. repeat split; try done. lra.
Qed.

Lemma pendingOrFired_play (ts : list Tick) (w : World) (q q' : Q) :
  forwards ts -> pendingOrFired w q -> (q' == q + waited ts)%Q ->
  pendingOrFired (play w ts) q'.
Proof using item_callback.
  revert w q. induction ts as [|t ts IH]; intros w q Hf H Hq; simpl in *.
  - apply (pendingOrFired_eq w q); [lra|done].
  - apply Forall_cons in Hf as [Ht Hf]. destruct t as [dt|dt]; simpl.
    + apply (IH _ q); [done| |done]. by apply pendingOrFired_update.
    + apply (IH _ (q + dt)%Q); [done| |lra]. by apply pendingOrFired_elapse.
Qed.

Lemma callsOf_app (l1 l2 : list Event) :
  callsOf f (l1 ++ l2) = (callsOf f l1 + callsOf f l2)%nat.
Proof using Type. unfold callsOf. by rewrite List.filter_app, length_app. Qed.

Lemma pendingOrFired_calls (w : World) (q : Q) :
  pendingOrFired w q ->
  callsOf f (trace w)
  = (callsOf f before + if Qle_bool D q then 1 else 0)%nat.
Proof using Type.
  intros [_ H].
  destruct H as [(Hlt & a & rem & Ha & Ht & Hrem & Htr)|(Hge & Ht & Htr)].
  - rewrite Htr. destruct (Qle_bool D q) eqn:E; [|lia].
    apply Qle_bool_iff in E. done.
  - rewrite Htr, callsOf_app. apply Qle_bool_iff in Hge. rewrite Hge.
    unfold callsOf at 2. simpl. by rewrite Nat.eqb_refl.
Qed.
End Deferred.

Lemma activation_effect (self : ref) (m : Menu.t) (i : nat) (cb : Callback) res :
  activation self m i res -> itemCallback m i = Some cb ->
  Menu.items res.1 = Menu.items m
  /\ Menu.selectedIndex res.1 = Z.of_nat i
  /\ exists a, (a = FireItem self i \/ a = FireSelected self)
       /\ res.2 = setTimeout a (Menu.pressedDuration m).
Proof.
  assert (itemCallback m i = Some cb ->
          Menu.selectedIndex m = Z.of_nat i ->
          Menu.items (Menu.activate self m).1 = Menu.items m
          /\ Menu.selectedIndex (Menu.activate self m).1 = Z.of_nat i
          /\ exists a, (a = FireItem self i \/ a = FireSelected self)
               /\ (Menu.activate self m).2 = setTimeout a (Menu.pressedDuration m))
    as Hact.
  { intros Hcb Hs. unfold Menu.activate. simpl. rewrite Hs, at_index_nat.
    unfold itemCallback in Hcb.
    destruct (Menu.items m !! i) as [it|]; [|done]. rewrite Hcb.
    split; [done|]. split; [done|]. exists (FireSelected self). by split; [right|]. }
  intros [px py Hat|e He Hs|Hs] Hcb.
  - unfold Menu.handleClick. rewrite Hat. simpl.
    unfold itemCallback in Hcb.
    destruct (Menu.items m !! i) as [it|]; [|done]. rewrite Hcb.
    split; [done|]. split; [done|]. exists (FireItem self i). by split; [left|].
  - unfold Menu.handleKeyDown.
    destruct (String.eqb (Menu.orientation m) "vertical");
      destruct He as [-> | ->]; simpl; by apply Hact.
  - by apply Hact.
Qed.

(** An update of 300 ms right after the activation: the cumulative frame
    time has reached [pressedDuration], and the callback was not called. *)
Lemma menu_callback_not_fired_by_frames : ~ menu_callback_follows_frame_time.
Proof.
  intros H.
  specialize (H exampleMenuWorld 0%nat exampleMenuAttached 0%nat 1%nat
                (Menu.activate 0%nat exampleMenuAttached) [Frame 300]).
  assert (menuAt exampleMenuWorld 0%nat = Some exampleMenuAttached) as Hm
    by (vm_compute; reflexivity).
  specialize (H Hm eq_refl (ByGamepad 0%nat exampleMenuAttached 0%nat eq_refl)
                eq_refl).
  assert (forwards [Frame 300]) as Hf by (repeat constructor).
  specialize (H Hf). vm_compute in H. discriminate H.
Qed.

(** C1, amended. An activation of a menu item that has a callback calls
    nothing at once and registers one timeout of [pressedDuration] with the
    host.  A frame, [update(deltaTime)], never calls a callback and never
    touches the timeouts, whatever the time it is given.  The callback is
    called exactly once, when [pressedDuration] of host time has passed
    since the activation, and not before, however the frames are
    interleaved. *)
Theorem menu_callback_follows_host_time (w : World) (r : ref) (m : Menu.t)
    (i f : nat) (res : Menu.t * Effects) (ts : list Tick) :
  menuAt w r = Some m ->
  itemCallback m i = Some (Host f) ->
  activation r m i res ->
  timers w = [] ->
  (0 < Menu.pressedDuration m)%Q ->
  forwards ts ->
  let w1 := store w r (CMenu res.1, res.2) in
  trace w1 = trace w
  /\ (exists a, timers w1
                = [{| action := a; remaining := Menu.pressedDuration m |}])
  /\ (forall (w' : World) (deltaTime : Q),
        trace (update w' deltaTime) = trace w'
        /\ timers (update w' deltaTime) = timers w')
  /\ callsOf f (trace (play w1 ts))
     = (callsOf f (trace w)
        + if Qle_bool (Menu.pressedDuration m) (waited ts) then 1 else 0)%nat.
Proof.
  intros Hm Hcb Hact Ht Hpos Hts. cbv zeta.
  destruct (activation_effect r m i (Host f) res Hact Hcb)
    as (Hitems & Hsel & a & Ha & Heff).
  assert (exists it, Menu.items m !! i = Some it
                     /\ Menu.callback it = Some (Host f)) as Hitem.
  { unfold itemCallback in Hcb. destruct (Menu.items m !! i) as [it|]; [|done].
    by exists it. }
  assert (trace (store w r (CMenu res.1, res.2)) = trace w) as Htrace.
  { simpl. rewrite Heff. simpl. by rewrite app_nil_r. }
  assert (timers (store w r (CMenu res.1, res.2))
          = [{| action := a; remaining := Menu.pressedDuration m |}]) as Htimers.
  { simpl. rewrite Heff, Ht. done. }
  split; [done|]. split; [by exists a|].
  split; [intros w' dt; by rewrite trace_update, timers_update|].
  apply (pendingOrFired_calls r (Menu.items m) i f (Menu.pressedDuration m)).
  apply (pendingOrFired_play r (Menu.items m) i f (Menu.pressedDuration m)
           (trace w) Hitem ts _ 0%Q); [done| |lra].
  split.
  - exists res.1. split; [|done]. unfold menuAt. simpl.
    by rewrite lookup_insert_eq.
  - left. split; [lra|]. exists a, (Menu.pressedDuration m).
    split; [done|]. split; [done|]. split; [lra|done].
Qed.

(** C3. The code on the slider of the documentation, its value at the
    minimum: ArrowLeft, and a gamepad step to the left, leave the value
    where it is and call the callback with it all the same.  A click on the
    track is guarded: the first click at an abscissa calls the callback, the
    second changes nothing and calls nothing. *)
Theorem slider_step_at_min :
  let k := Slider.handleKeyDown exampleSlider (key_of "ArrowLeft") in
  let g := Slider.handleGamepadAxis exampleSlider (-1) in
  let c1 := Slider.updateValueFromX exampleSlider 250 in
  let c2 := Slider.updateValueFromX c1.1 250 in
  Slider.value exampleSlider = 0%Q
  /\ Slider.value k.1 = 0%Q /\ events k.2 = [HostCall 7 [JNum 0]]
  /\ Slider.value g.1 = 0%Q /\ events g.2 = [HostCall 7 [JNum 0]]
  /\ Slider.value c1.1 = 50%Q /\ events c1.2 = [HostCall 7 [JNum 50]]
  /\ c2 = (c1.1, no_effects).
Proof. vm_compute. repeat split. Qed.

(** * The theorems at work *)

(** Three controls, the focus on the second: three steps either way come
    back to it. *)
Lemma focus_wraparound_witness :
  length (UI.controls (ui exampleControls)) = 3%nat
  /\ (3%nat = 0%nat \/ 0 <= UI.focusIndex (ui exampleControls) < Z.of_nat 3)
  /\ Nat.iter 3 focusNext exampleControls = exampleControls
  /\ Nat.iter 3 focusPrevious exampleControls = exampleControls.
Proof.
  assert (length (UI.controls (ui exampleControls)) = 3%nat) as H1
    by reflexivity.
  assert (3%nat = 0%nat \/ 0 <= UI.focusIndex (ui exampleControls) < Z.of_nat 3)
    as H2 by (right; change (0 <= 1 < 3); lia).
  split; [exact H1|]. split; [exact H2|].
  destruct (focus_wraparound exampleControls 3 H1 H2) as (Hn & Hp & _).
  split; [exact Hn|exact Hp].
Defined.

(** A run that removes a control and clicks, and two controls added with
    the first removed. *)
Lemma focus_index_invariant_witness :
  initWorld exampleCanvas exampleConfig = Some exampleWorld
  /\ focusInv (ui (runs exampleWorld (exampleOps ++ [OpRemoveControl 2%nat;
                                                     OpClick 50 75 0])))
  /\ UI.focusIndex (ui (removeControl
                          (fold_left addControl [0%nat; 1%nat] exampleWorld)
                          0%nat)) <= Z.of_nat 2 - 2.
Proof.
  assert (initWorld exampleCanvas exampleConfig = Some exampleWorld) as H
    by reflexivity.
  split; [exact H|].
  destruct (focus_index_invariant exampleCanvas exampleConfig exampleWorld H)
    as [Hinv Hrem].
  split; [apply Hinv|].
  assert (0%nat ∈ [0%nat; 1%nat]) as Hin by (apply list_elem_of_here).
  exact (proj2 (proj1 (Hrem [0%nat; 1%nat] 0%nat Hin))).
Defined.

(** A second dialog, without buttons, over the dialog of the documentation:
    Escape leaves the first one alone on the stack. *)
Lemma showModal_no_buttons_escape_witness :
  key (key_of "Escape") = "Escape"
  /\ Forall (fun m' => Modal.id m' ≠ nextRef confirmWorld)
       (UI.modals (ui confirmWorld))
  /\ UI.modals (ui (onKeyDown (showModal confirmWorld "T" "msg" []
                                 Modal.no_options).2 (key_of "Escape")))
     = UI.modals (ui confirmWorld)
  /\ trace (onKeyDown (showModal confirmWorld "T" "msg" [] Modal.no_options).2
              (key_of "Escape"))
     = trace confirmWorld.
Proof.
  assert (key (key_of "Escape") = "Escape") as H1 by reflexivity.
  assert (Forall (fun m' => Modal.id m' ≠ nextRef confirmWorld)
            (UI.modals (ui confirmWorld))) as H2.
  { constructor; [vm_compute; discriminate|constructor]. }
  split; [exact H1|]. split; [exact H2|].
  destruct (showModal_no_buttons_escape confirmWorld "T" "msg"
              Modal.no_options (key_of "Escape") H1 H2) as (_ & _ & Hm & Ht).
  split; [exact Hm|exact Ht].
Defined.

(** The blue theme of the documentation. *)
Lemma setTheme_backgroundColor_witness :
  ({[ "backgroundColor" := JStr "#0D47A1" ]} : gmap string jsval)
    !! "backgroundColor" = Some (JStr "#0D47A1")
  /\ backgroundColor
       (UI.options (UI.setTheme (UI.initial exampleConfig)
                      {[ "backgroundColor" := JStr "#0D47A1" ]}))
     = JStr "#0D47A1"
  /\ UI.render_background
       (ui (runs (worldOf exampleCanvas
                    (UI.setTheme (UI.initial exampleConfig)
                       {[ "backgroundColor" := JStr "#0D47A1" ]}))
              exampleOps))
       exampleCanvas
     = [FillStyle (JStr "#0D47A1"); FillRect 0 0 800 600].
Proof.
  assert (({[ "backgroundColor" := JStr "#0D47A1" ]} : gmap string jsval)
            !! "backgroundColor" = Some (JStr "#0D47A1")) as H
    by reflexivity.
  split; [exact H|].
  destruct (setTheme_backgroundColor (UI.initial exampleConfig) _ _ H)
    as (_ & _ & _ & Ht & _).
  destruct (Ht eq_refl) as (Hc & _ & _ & _ & Hr).
  split; [exact Hc|].
  exact (Hr eq_refl eq_refl
           (worldOf exampleCanvas
              (UI.setTheme (UI.initial exampleConfig)
                 {[ "backgroundColor" := JStr "#0D47A1" ]}))
           exampleOps eq_refl).
Defined.

(** The slider of the documentation, clicked twice in the middle of its
    track. *)
Lemma slider_callback_on_change_witness :
  ~ (Slider.step exampleSlider == 0)%Q
  /\ ~ (Slider.sliderWidth exampleSlider == 0)%Q
  /\ events (Slider.updateValueFromX exampleSlider 250).2
     = [HostCall 7 [JNum (Slider.valueFromX exampleSlider 250)]]
  /\ Slider.updateValueFromX (Slider.updateValueFromX exampleSlider 250).1 250
     = ((Slider.updateValueFromX exampleSlider 250).1, no_effects)
  /\ events (Slider.handleKeyDown exampleSlider (key_of "ArrowLeft")).2
     = [HostCall 7 [JNum (Qmax 0 (0 - 5))]].
Proof.
  assert (~ (Slider.step exampleSlider == 0)%Q) as H1
    by (vm_compute; discriminate).
  assert (~ (Slider.sliderWidth exampleSlider == 0)%Q) as H2
    by (vm_compute; discriminate).
  split; [exact H1|]. split; [exact H2|]. split; [reflexivity|].
  destruct (slider_callback_on_change exampleSlider 250 H1 H2)
    as (_ & Hidem & Hkey).
  split; [exact Hidem|].
  exact (proj1 (Hkey 7%nat eq_refl)).
Defined.

(** A click on the second item: 400 ms of frames do not call its callback,
    300 ms of host time do, once. *)
Lemma menu_callback_follows_host_time_witness :
  menuAt exampleMenuWorld 0%nat = Some exampleMenuAttached
  /\ itemCallback exampleMenuAttached 1 = Some (Host 2)
  /\ activation 0%nat exampleMenuAttached 1
       (Menu.handleClick 0%nat exampleMenuAttached 100 75)
  /\ timers exampleMenuWorld = []
  /\ (0 < Menu.pressedDuration exampleMenuAttached)%Q
  /\ forwards [Frame 400; Wait 299; Frame 16; Wait 1; Wait 500]
  /\ callsOf 2
       (trace (play (store exampleMenuWorld 0%nat
                       (CMenu (Menu.handleClick 0%nat exampleMenuAttached 100 75).1,
                        (Menu.handleClick 0%nat exampleMenuAttached 100 75).2))
                 [Frame 400; Wait 299; Frame 16; Wait 1; Wait 500]))
     = 1%nat.
Proof.
  assert (menuAt exampleMenuWorld 0%nat = Some exampleMenuAttached) as H1
    by (vm_compute; reflexivity).
  assert (itemCallback exampleMenuAttached 1 = Some (Host 2)) as H2
    by reflexivity.
  assert (activation 0%nat exampleMenuAttached 1
            (Menu.handleClick 0%nat exampleMenuAttached 100 75)) as H3
    by (apply ByClick; vm_compute; reflexivity).
  assert (timers exampleMenuWorld = []) as H4 by reflexivity.
  assert (0 < Menu.pressedDuration exampleMenuAttached)%Q as H5
    by (vm_compute; reflexivity).
  assert (forwards [Frame 400; Wait 299; Frame 16; Wait 1; Wait 500]) as H6
    by (repeat constructor; vm_compute; discriminate).
  split; [exact H1|]. split; [exact H2|]. split; [exact H3|].
  split; [exact H4|]. split; [exact H5|]. split; [exact H6|].
  exact (proj2 (proj2 (proj2
    (menu_callback_follows_host_time exampleMenuWorld 0%nat
       exampleMenuAttached 1%nat 2%nat _ _ H1 H2 H3 H4 H5 H6)))).
Defined.

(** * Further properties of the code *)

(** ** Selections that wrap around *)

Lemma rem_next_iter (M s : Z) (k : nat) :
  0 < M -> 0 <= s < M ->
  Nat.iter k (fun s => Z.rem (s + 1) M) s = (s + Z.of_nat k) mod M.
Proof.
  intros HM Hs. induction k as [|k IH].
  - simpl. rewrite Z.add_0_r, Z.mod_small; lia.
  - rewrite Nat.iter_succ, IH.
    pose proof (Z.mod_pos_bound (s + Z.of_nat k) M HM).
    rewrite Z.rem_mod_nonneg by lia.
    rewrite Zplus_mod_idemp_l. f_equal. lia.
Qed.

Lemma rem_prev_iter (M s : Z) (k : nat) :
  0 < M -> 0 <= s < M ->
  Nat.iter k (fun s => Z.rem (s - 1 + M) M) s = (s - Z.of_nat k) mod M.
Proof.
  intros HM Hs. induction k as [|k IH].
  - simpl. rewrite Z.sub_0_r, Z.mod_small; lia.
  - rewrite Nat.iter_succ, IH.
    pose proof (Z.mod_pos_bound (s - Z.of_nat k) M HM).
    rewrite Z.rem_mod_nonneg by lia.
    replace ((s - Z.of_nat k) mod M - 1 + M)
      with ((s - Z.of_nat k) mod M + (M - 1)) by lia.
    rewrite Zplus_mod_idemp_l.
    replace (s - Z.of_nat k + (M - 1)) with (s - Z.of_nat (S k) + 1 * M) by lia.
    by rewrite Z_mod_plus_full.
Qed.

Lemma carousel_iter_next (c : Carousel.t) (k : nat) :
  let c' := Nat.iter k (fun c => (Carousel.selectNext c).1) c in
  Carousel.items c' = Carousel.items c
  /\ Carousel.selectedIndex c'
     = Nat.iter k (fun s => Z.rem (s + 1) (Carousel.count c))
         (Carousel.selectedIndex c).
Proof.
  cbv zeta. induction k as [|k [IH1 IH2]]; [done|].
  rewrite !Nat.iter_succ.
  set (c' := Nat.iter k _ c) in *. split; [exact IH1|].
  assert (Carousel.selectedIndex (Carousel.selectNext c').1
          = Z.rem (Carousel.selectedIndex c' + 1) (Carousel.count c')) as ->
    by reflexivity.
  unfold Carousel.count. by rewrite IH1, IH2.
Qed.

Lemma carousel_iter_previous (c : Carousel.t) (k : nat) :
  let c' := Nat.iter k (fun c => (Carousel.selectPrevious c).1) c in
  Carousel.items c' = Carousel.items c
  /\ Carousel.selectedIndex c'
     = Nat.iter k (fun s => Z.rem (s - 1 + Carousel.count c) (Carousel.count c))
         (Carousel.selectedIndex c).
Proof.
  cbv zeta. induction k as [|k [IH1 IH2]]; [done|].
  rewrite !Nat.iter_succ.
  set (c' := Nat.iter k _ c) in *. split; [exact IH1|].
  assert (Carousel.selectedIndex (Carousel.selectPrevious c').1
          = Z.rem (Carousel.selectedIndex c' - 1 + Carousel.count c')
              (Carousel.count c')) as -> by reflexivity.
  unfold Carousel.count. by rewrite IH1, IH2.
Qed.

(** X1. A carousel whose selection names one of its M items: K steps
    forwards select item (s + K) mod M and K steps backwards item
    (s - K) mod M; a step back undoes a step forwards; and a step forwards
    calls the callback with the new index and the item it names, never with
    [undefined]. *)
Theorem carousel_wraps (c : Carousel.t) (k : nat) :
  0 <= Carousel.selectedIndex c < Carousel.count c ->
  Carousel.selectedIndex (Nat.iter k (fun c => (Carousel.selectNext c).1) c)
  = (Carousel.selectedIndex c + Z.of_nat k) mod Carousel.count c
  /\ Carousel.selectedIndex (Nat.iter k (fun c => (Carousel.selectPrevious c).1) c)
     = (Carousel.selectedIndex c - Z.of_nat k) mod Carousel.count c
  /\ (Carousel.selectPrevious (Carousel.selectNext c).1).1 = c
  /\ (forall f, Carousel.callback c = Some f ->
        exists item,
          Carousel.items c
            !! Z.to_nat ((Carousel.selectedIndex c + 1) mod Carousel.count c)
          = Some item
          /\ events (Carousel.selectNext c).2
             = [HostCall f
                  [JNum (inject_Z ((Carousel.selectedIndex c + 1)
                                     mod Carousel.count c));
                   JStr item]]).
Proof.
  intros Hs. assert (0 < Carousel.count c) as HM by lia.
  split.
  { destruct (carousel_iter_next c k) as [_ ->]. by apply rem_next_iter. }
  split.
  { destruct (carousel_iter_previous c k) as [_ ->]. by apply rem_prev_iter. }
  pose proof (Z.mod_pos_bound (Carousel.selectedIndex c + 1) (Carousel.count c) HM)
    as Hb.
  split.
  - unfold Carousel.selectPrevious, Carousel.selectNext, Carousel.select,
      Carousel.count. simpl.
    fold (Carousel.count c).
    rewrite (Z.rem_mod_nonneg (Carousel.selectedIndex c + 1)) by lia.
    rewrite Z.rem_mod_nonneg by lia.
    replace ((Carousel.selectedIndex c + 1) mod Carousel.count c - 1
             + Carousel.count c)
      with ((Carousel.selectedIndex c + 1) mod Carousel.count c
            + (Carousel.count c - 1)) by lia.
    rewrite Zplus_mod_idemp_l.
    replace (Carousel.selectedIndex c + 1 + (Carousel.count c - 1))
      with (Carousel.selectedIndex c + 1 * Carousel.count c) by lia.
    rewrite Z_mod_plus_full, Z.mod_small by lia. by destruct c.
  - intros f Hf. unfold Carousel.selectNext, Carousel.select. simpl.
    rewrite Z.rem_mod_nonneg by lia. rewrite Hf. simpl.
    unfold Carousel.item_arg, at_index.
    destruct (Z.ltb_spec ((Carousel.selectedIndex c + 1) mod Carousel.count c) 0);
      [lia|].
    destruct (Carousel.items c
                !! Z.to_nat ((Carousel.selectedIndex c + 1) mod Carousel.count c))
      as [item|] eqn:E.
    + by exists item.
    + apply lookup_ge_None in E. unfold Carousel.count in *. lia.
Qed.

(** ** Menus *)

Lemma menu_firstItemAt_spec (m : Menu.t) (px py : Q) (fuel from i : nat) :
  Menu.firstItemAt m px py from fuel = Some i ->
  (from <= i < from + fuel)%nat
  /\ inBounds px py (Menu.getItemBounds m i) = true
  /\ forall j, (from <= j < i)%nat ->
       inBounds px py (Menu.getItemBounds m j) = false.
Proof.
  revert from. induction fuel as [|fuel IH]; intros from; simpl; [done|].
  destruct (inBounds px py (Menu.getItemBounds m from)) eqn:E.
  - intros [= <-]. split; [lia|]. split; [done|]. intros j Hj. lia.
  - intros H. destruct (IH _ H) as (H1 & H2 & H3).
    split; [lia|]. split; [done|]. intros j Hj.
    destruct (decide (j = from)) as [->|]; [done|]. apply H3. lia.
Qed.

Lemma menu_rem_valid (s M : Z) : 0 <= s -> 0 < M -> 0 <= Z.rem s M < M.
Proof.
  intros Hs HM. rewrite Z.rem_mod_nonneg by lia. by apply Z.mod_pos_bound.
Qed.

Lemma menu_update_selection (m : Menu.t) (dt : Q) :
  Menu.selectedIndex (Menu.update m dt) = Menu.selectedIndex m
  /\ Menu.items (Menu.update m dt) = Menu.items m.
Proof.
  unfold Menu.update. destruct (Menu.pressed m); [|done].
  by destruct (Qle_bool _ _).
Qed.

(** X2. A menu whose selection names one of its items keeps such a
    selection under every handler and under [update]; its Enter/Space and
    gamepad activation then never raise a TypeError.  A new menu with at
    least one item has such a selection; activating a menu without items
    raises the TypeError. *)
Theorem menu_selection_kept (self : ref) (m : Menu.t) (e : KeyEvent)
    (px py dt : Q) :
  menuSelectionValid m ->
  (menuSelectionValid (Menu.handleClick self m px py).1
   /\ menuSelectionValid (Menu.handleKeyDown self m e).1
   /\ menuSelectionValid (Menu.activate self m).1
   /\ menuSelectionValid (Menu.handleGamepadLeft m)
   /\ menuSelectionValid (Menu.handleGamepadRight m)
   /\ menuSelectionValid (Menu.update m dt))
  /\ ((TypeError ∉ events (Menu.handleKeyDown self m e).2)
      /\ (TypeError ∉ events (Menu.activate self m).2))
  /\ (forall x y items o, items ≠ [] ->
        menuSelectionValid (Menu.new x y items o))
  /\ (forall m0, Menu.items m0 = [] ->
        events (Menu.activate self m0).2 = [TypeError]).
Proof.
  intros Hv. unfold menuSelectionValid in *.
  assert (0 < Menu.count m) as HM by lia.
  assert (0 <= Z.rem (Menu.selectedIndex m - 1 + Menu.count m) (Menu.count m)
          < Menu.count m) as Hl by (apply menu_rem_valid; lia).
  assert (0 <= Z.rem (Menu.selectedIndex m + 1) (Menu.count m) < Menu.count m)
    as Hr by (apply menu_rem_valid; lia).
  assert (TypeError ∉ events (Menu.activate self m).2) as Hact.
  { unfold Menu.activate. simpl. unfold at_index.
    destruct (Z.ltb_spec (Menu.selectedIndex m) 0); [lia|].
    destruct (Menu.items m !! Z.to_nat (Menu.selectedIndex m)) as [it|] eqn:E.
    - destruct (Menu.callback it); simpl; apply not_elem_of_nil.
    - apply lookup_ge_None in E. unfold Menu.count in *. lia. }
  split; [|split; [|split]].
  - split.
    { unfold Menu.handleClick, Menu.itemAt.
      destruct (Menu.firstItemAt m px py 0 (length (Menu.items m))) as [i|] eqn:E;
        [|done].
      apply menu_firstItemAt_spec in E as [E _]. simpl.
      unfold Menu.count in *. simpl. lia. }
    split.
    { unfold Menu.handleKeyDown.
      destruct (_ || _); [exact Hl|]. destruct (_ || _); [exact Hr|].
      destruct (_ || _); [exact Hv|exact Hv]. }
    split; [exact Hv|]. split; [exact Hl|]. split; [exact Hr|].
    destruct (menu_update_selection m dt) as [Hs Hi].
    unfold Menu.count. by rewrite Hs, Hi.
  - split; [|exact Hact].
    unfold Menu.handleKeyDown.
    destruct (_ || _); [apply not_elem_of_nil|].
    destruct (_ || _); [apply not_elem_of_nil|].
    destruct (_ || _); [exact Hact|apply not_elem_of_nil].
  - intros x y items o Hne. unfold Menu.count. simpl.
    destruct items; [done|]. simpl. lia.
  - intros m0 H0. unfold Menu.activate. simpl. rewrite H0. unfold at_index.
    destruct (_ <? _); [done|]. by rewrite lookup_nil.
Qed.

Lemma Qnat_le (i n : nat) : (i <= n)%nat -> (Qnat i <= Qnat n)%Q.
Proof. intros H. unfold Qnat, Qle. simpl. lia. Qed.




Lemma sumQ_nonneg (l : list Q) : Forall (fun d => (0 <= d)%Q) l -> (0 <= sumQ l)%Q.
Proof.
  induction 1 as [|d l Hd _ IH]; simpl; lra.
Qed.

Lemma menu_updates_released (m : Menu.t) (dts : list Q) :
  Menu.pressed m = false -> fold_left Menu.update dts m = m.
Proof.
  intros H. induction dts as [|d dts IH]; simpl; [done|].
  unfold Menu.update at 2. by rewrite H.
Qed.

Lemma menu_pressed_after (dts : list Q) (m : Menu.t) (q : Q) :
  Menu.pressed m = true -> (Menu.pressedTime m == q)%Q ->
  ~ (Menu.pressedDuration m <= q)%Q ->
  Forall (fun d => (0 <= d)%Q) dts ->
  Menu.pressed (fold_left Menu.update dts m)
  = negb (Qle_bool (Menu.pressedDuration m) (q + sumQ dts)).
Proof.
  revert m q. induction dts as [|d dts IH]; intros m q Hp Ht Hq Hf; simpl.
  - rewrite Hp. symmetry. apply negb_true_iff, not_true_iff_false.
    rewrite Qle_bool_iff. lra.
  - apply Forall_cons in Hf as [Hd Hf].
    pose proof (sumQ_nonneg dts Hf) as Hs.
    unfold Menu.update at 2. rewrite Hp.
    destruct (Qle_bool (Menu.pressedDuration m) (Menu.pressedTime m + d)) eqn:E.
    + apply Qle_bool_iff in E. rewrite menu_updates_released by done. simpl.
      symmetry. apply negb_false_iff, Qle_bool_iff. lra.
    + apply not_true_iff_false in E. rewrite Qle_bool_iff in E.
      rewrite (IH _ (q + d)%Q); simpl; try done; try lra.
      f_equal. destruct (Qle_bool (Menu.pressedDuration m) (q + d + sumQ dts)) eqn:E1;
        destruct (Qle_bool (Menu.pressedDuration m) (q + (d + sumQ dts))) eqn:E2;
        try done.
      * apply Qle_bool_iff in E1. apply not_true_iff_false in E2.
        rewrite Qle_bool_iff in E2. lra.
      * apply Qle_bool_iff in E2. apply not_true_iff_false in E1.
        rewrite Qle_bool_iff in E1. lra.
Qed.

(** X4. The pressed look of a menu lasts [pressedDuration] of frame time:
    after an activation (pressed, timer at zero) and frames of whole,
    non-negative numbers of milliseconds that add up to at most 2^53, which
    the code adds up without rounding, the menu is still pressed exactly
    when the times of the frames add up to less than [pressedDuration]. *)
Theorem menu_pressed_lasts (m : Menu.t) (dts : list Q) :
  Menu.pressed m = true ->
  (Menu.pressedTime m == 0)%Q ->
  (0 < Menu.pressedDuration m)%Q ->
  Forall wholeMs dts ->
  (sumQ dts <= inject_Z (2 ^ 53))%Q ->
  Menu.pressed (fold_left Menu.update dts m)
  = negb (Qle_bool (Menu.pressedDuration m) (sumQ dts)).
Proof.
  intros Hp Ht HD Hw _.
  assert (Forall (fun d => (0 <= d)%Q) dts) as Hf.
  { eapply Forall_impl; [exact Hw|]. simpl. intros d (z & Hd & Hz).
    rewrite Hd. change 0%Q with (inject_Z 0). by rewrite <- Zle_Qle. }
  rewrite (menu_pressed_after dts m 0%Q); try done; [|lra].
  f_equal.
  destruct (Qle_bool (Menu.pressedDuration m) (0 + sumQ dts)) eqn:E1;
    destruct (Qle_bool (Menu.pressedDuration m) (sumQ dts)) eqn:E2; try done.
  - apply Qle_bool_iff in E1. apply not_true_iff_false in E2.
    rewrite Qle_bool_iff in E2. lra.
  - apply Qle_bool_iff in E2. apply not_true_iff_false in E1.
    rewrite Qle_bool_iff in E1. lra.
Qed.

(** ** Text inputs *)

Lemma length_append (a b : string) :
  String.length (a +:+ b) = (String.length a + String.length b)%nat.
Proof. induction a as [|c a IH]; simpl; [done|]. by rewrite IH. Qed.

Lemma length_substring (s : string) (n m : nat) :
  String.length (substring n m s) = Nat.min m (String.length s - n).
Proof.
  revert n m. induction s as [|c s IH]; intros [|n] [|m]; simpl; try done;
    rewrite IH; lia.
Qed.

Lemma substring_prefix (a b : string) :
  substring 0 (String.length a) (a +:+ b) = a.
Proof. induction a as [|c a IH]; simpl; [by destruct b|]. by rewrite IH. Qed.

Lemma substring_all (s : string) : substring 0 (String.length s) s = s.
Proof. induction s as [|c s IH]; simpl; [done|]. by rewrite IH. Qed.

Lemma substring_skip (a b : string) (m : nat) :
  substring (String.length a) m (a +:+ b) = substring 0 m b.
Proof. induction a as [|c a IH]; simpl; [done|]. by rewrite IH. Qed.

Lemma slice_from_append (a b : string) :
  TextInput.slice_from (a +:+ b) (String.length a) = b.
Proof.
  unfold TextInput.slice_from. rewrite substring_skip, length_append.
  replace (String.length a + String.length b - String.length a)%nat
    with (String.length b) by lia.
  apply substring_all.
Qed.

Lemma slice_to_append (a b : string) :
  TextInput.slice_to (a +:+ b) (String.length a) = a.
Proof. apply substring_prefix. Qed.

(** A text is the part before the caret followed by the part after it. *)
Lemma slice_to_from (s : string) (n : nat) :
  (n <= String.length s)%nat ->
  TextInput.slice_to s n +:+ TextInput.slice_from s n = s.
Proof.
  unfold TextInput.slice_to, TextInput.slice_from.
  revert n. induction s as [|c s IH]; intros [|n] Hn; simpl in *; try done; try lia.
  - by rewrite substring_all.
  - change (String c (substring 0 n s +:+ substring n (String.length s - n) s)
            = String c s).
    f_equal. apply IH. lia.
Qed.

Lemma length_slice_to (s : string) (n : nat) :
  (n <= String.length s)%nat -> String.length (TextInput.slice_to s n) = n.
Proof. intros H. unfold TextInput.slice_to. rewrite length_substring. lia. Qed.

Lemma length_slice_from (s : string) (n : nat) :
  String.length (TextInput.slice_from s n) = (String.length s - n)%nat.
Proof. unfold TextInput.slice_from. rewrite length_substring. lia. Qed.

(** The branches of [TextInput.handleKeyDown], with the lengths of the
    texts they build. *)
Ltac text_cases :=
  unfold TextInput.handleKeyDown;
  repeat (match goal with
          | |- context [if ?b then _ else _] => destruct b eqn:?
          end);
  simpl;
  repeat (match goal with
          | H : Nat.ltb _ _ = true |- _ => apply Nat.ltb_lt in H
          | H : Nat.ltb _ _ = false |- _ => apply Nat.ltb_ge in H
          | H : _ && _ = true |- _ => apply andb_true_iff in H as [? ?]
          | H : Nat.eqb _ _ = true |- _ => apply Nat.eqb_eq in H
          end);
  rewrite ?length_append, ?length_slice_from, ?length_slice_to by lia;
  try lia.

(** X5. The caret of a text input stays within the text under every key,
    every click and every frame, and a key changes the length of the text
    by one character at most. *)
Theorem textinput_cursor_kept (c : TextInput.t) (e : KeyEvent) (px py dt : Q) :
  textCursorValid c ->
  textCursorValid (TextInput.handleKeyDown c e)
  /\ textCursorValid (TextInput.handleClick c px py)
  /\ textCursorValid (TextInput.update c dt)
  /\ (String.length (TextInput.value (TextInput.handleKeyDown c e))
      <= S (String.length (TextInput.value c)))%nat
  /\ (String.length (TextInput.value c)
      <= S (String.length (TextInput.value (TextInput.handleKeyDown c e))))%nat.
Proof.
  unfold textCursorValid. intros Hv.
  assert (textCursorValid (TextInput.update c dt)) as Hu.
  { unfold textCursorValid, TextInput.update. by destruct (Qle_bool _ _). }
  split; [|split; [simpl; lia|split; [exact Hu|]]]; text_cases.
Qed.

Lemma string_app_assoc (a b c : string) : a +:+ (b +:+ c) = (a +:+ b) +:+ c.
Proof.
  induction a as [|x a IH]; [done|].
  change (String x (a +:+ (b +:+ c)) = String x ((a +:+ b) +:+ c)).
  by rewrite IH.
Qed.

Lemma eqb_other_length (k s : string) :
  String.length k ≠ String.length s -> String.eqb k s = false.
Proof. intros H. apply String.eqb_neq. by intros ->. Qed.

(** X6. Typing a character and pressing Backspace gives back the text and
    the caret: the character goes in at the caret, which moves past it, and
    Backspace takes out the character before the caret. *)
Theorem textinput_type_then_backspace (c : TextInput.t) (e : KeyEvent) :
  textCursorValid c ->
  String.length (key e) = 1%nat ->
  ctrlKey e = false ->
  metaKey e = false ->
  let typed := TextInput.handleKeyDown c e in
  let back := TextInput.handleKeyDown typed (key_of "Backspace") in
  TextInput.value typed
  = TextInput.slice_to (TextInput.value c) (TextInput.cursorPos c)
    +:+ key e
    +:+ TextInput.slice_from (TextInput.value c) (TextInput.cursorPos c)
  /\ TextInput.cursorPos typed = S (TextInput.cursorPos c)
  /\ TextInput.value back = TextInput.value c
  /\ TextInput.cursorPos back = TextInput.cursorPos c.
Proof.
  unfold textCursorValid. intros Hv Hk Hc Hm. cbv zeta.
  assert (TextInput.handleKeyDown c e
          = TextInput.edit c
              (TextInput.slice_to (TextInput.value c) (TextInput.cursorPos c)
               +:+ key e
               +:+ TextInput.slice_from (TextInput.value c) (TextInput.cursorPos c))
              (TextInput.cursorPos c + 1)) as ->.
  { unfold TextInput.handleKeyDown.
    rewrite !eqb_other_length by (rewrite Hk; simpl; lia).
    by rewrite Hk, Hc, Hm. }
  split; [done|]. split; [simpl; lia|].
  set (a := TextInput.slice_to (TextInput.value c) (TextInput.cursorPos c)).
  set (b := TextInput.slice_from (TextInput.value c) (TextInput.cursorPos c)).
  assert (String.length a = TextInput.cursorPos c) as Ha
    by (by apply length_slice_to).
  unfold TextInput.handleKeyDown. simpl.
  replace (TextInput.cursorPos c + 1 - 1)%nat with (String.length a) by lia.
  destruct (Nat.ltb_spec 0 (TextInput.cursorPos c + 1)) as [_|?]; [|lia].
  simpl. rewrite slice_to_append.
  rewrite string_app_assoc.
  replace (TextInput.cursorPos c + 1)%nat with (String.length (a +:+ key e))
    by (rewrite length_append; lia).
  rewrite slice_from_append.
  split; [by apply slice_to_from|exact Ha].
Qed.

(** ** Sliders, again *)

Ltac qcases :=
  unfold Qmax, Qmin;
  repeat (match goal with
          | |- context [Qle_bool ?a ?b] =>
              let E := fresh "E" in
              destruct (Qle_bool a b) eqn:E;
              [apply Qle_bool_iff in E
              |apply not_true_iff_false in E; rewrite Qle_bool_iff in E]
          end).

Lemma valueFromX_in_range (s : Slider.t) (px : Q) :
  (Slider.min s <= Slider.max s)%Q ->
  (Slider.min s <= Slider.valueFromX s px)%Q
  /\ (Slider.valueFromX s px <= Slider.max s)%Q.
Proof.
  intros H. unfold Slider.valueFromX.
  set (v := (Math_round _ * Slider.step s)%Q). clearbody v.
  qcases; split; lra.
Qed.

(** X7. On a slider whose minimum is not above its maximum, whose step is
    positive and whose track has a width other than zero, a value within
    the range stays within the range under a click on the track, an arrow
    key and a gamepad step; the value a click computes is within the range
    whatever the value before.  The geometry, the range, the step and the
    abscissa of the click are of magnitude at most 2^1000, so that the
    code divides by no zero and none of its sums overflows. *)
Theorem slider_value_in_range (s : Slider.t) (e : KeyEvent)
    (px py direction : Q) :
  (Slider.min s <= Slider.max s)%Q ->
  (0 < Slider.step s)%Q ->
  ~ (Slider.sliderWidth s == 0)%Q ->
  Forall moderate
    [Base.x (Slider.base s); Base.width (Slider.base s);
     Base.padding (Slider.base s); Slider.min s; Slider.max s;
     Slider.step s; px] ->
  sliderInRange s ->
  sliderInRange (Slider.handleClick s px py).1
  /\ sliderInRange (Slider.handleKeyDown s e).1
  /\ sliderInRange (Slider.handleGamepadAxis s direction).1
  /\ (Slider.min s <= Slider.valueFromX s px)%Q
  /\ (Slider.valueFromX s px <= Slider.max s)%Q.
Proof.
  unfold sliderInRange. intros Hmm Hstep _ _ [Hlo Hhi].
  pose proof (valueFromX_in_range s px Hmm) as [Hx1 Hx2].
  assert ((Slider.min s <= Slider.stepDown s)%Q
          /\ (Slider.stepDown s <= Slider.max s)%Q) as [Hd1 Hd2].
  { unfold Slider.stepDown. qcases; split; lra. }
  assert ((Slider.min s <= Slider.stepUp s)%Q
          /\ (Slider.stepUp s <= Slider.max s)%Q) as [Hu1 Hu2].
  { unfold Slider.stepUp. qcases; split; lra. }
  split; [|split; [|split; [|done]]].
  - unfold Slider.handleClick, Slider.updateValueFromX.
    by destruct (negb _).
  - unfold Slider.handleKeyDown.
    destruct (String.eqb (key e) "ArrowLeft"); [done|].
    by destruct (String.eqb (key e) "ArrowRight").
  - unfold Slider.handleGamepadAxis. by destruct (negb _).
Qed.

(** ** Adding and removing controls *)

Lemma splice1_middle {A} (l : list A) (i : nat) (x : A) :
  l !! i = Some x -> l = take i l ++ x :: drop (S i) l.
Proof. intros H. by rewrite take_drop_middle. Qed.

(** X8. [removeControl] of a control that is not in the sequence changes
    nothing.  Of a control that is, it takes one entry out, and the focus
    index stays where it was unless that is now past the end, in which case
    it becomes the last index: min (focusIndex, length - 2).  When the
    control was in the sequence once it is gone, and the others are all
    still there. *)
Theorem removeControl_by_identity (u : UI.t) (r : ref) :
  (r ∉ UI.controls u -> UI.removeControl u r = u)
  /\ (r ∈ UI.controls u ->
      length (UI.controls (UI.removeControl u r))
      = (length (UI.controls u) - 1)%nat
      /\ UI.focusIndex (UI.removeControl u r)
         = Z.min (UI.focusIndex u) (UI.count u - 2)
      /\ (NoDup (UI.controls u) ->
          (r ∉ UI.controls (UI.removeControl u r))
          /\ forall r', r' ≠ r ->
               (r' ∈ UI.controls (UI.removeControl u r) <-> r' ∈ UI.controls u))).
Proof.
  split.
  - intros Hnot. unfold UI.removeControl. rewrite indexOf_None; [done|].
    intros x Hx ->. done.
  - intros Hin. destruct (indexOf_elem r _ Hin) as [i Hi].
    pose proof (indexOf_lt _ _ _ Hi) as Hlt.
    pose proof (indexOf_lookup _ _ _ Hi) as Hl.
    pose proof (length_splice1 i _ Hlt) as Hlen.
    unfold UI.removeControl. rewrite Hi.
    split; [by destruct (_ <=? _)|]. split.
    + unfold UI.count. simpl. rewrite Hlen.
      destruct (Z.leb_spec (Z.of_nat (length (UI.controls u) - 1)) (UI.focusIndex u));
        simpl; lia.
    + intros Hnd.
      assert (UI.controls (if UI.count (UI.setControls u (splice1 i (UI.controls u)))
                              <=? UI.focusIndex
                                    (UI.setControls u (splice1 i (UI.controls u)))
                           then UI.setFocus
                                  (UI.setControls u (splice1 i (UI.controls u)))
                                  (UI.count
                                     (UI.setControls u (splice1 i (UI.controls u)))
                                   - 1)
                           else UI.setControls u (splice1 i (UI.controls u)))
              = splice1 i (UI.controls u)) as -> by (by destruct (_ <=? _)).
      rewrite (splice1_middle _ _ _ Hl) in Hnd.
      apply NoDup_app in Hnd as (Hn1 & Hn2 & Hn3).
      apply NoDup_cons in Hn3 as [Hn3 Hn4].
      unfold splice1. split.
      * rewrite elem_of_app. intros [H|H]; [by apply (Hn2 r H); left|done].
      * intros r' Hne. rewrite (splice1_middle _ _ _ Hl) at 3.
        rewrite !elem_of_app, elem_of_cons. tauto.
Qed.

Lemma base_withBase (c : Control) (b : Base.t) : Ctl.base (Ctl.withBase c b) = b.
Proof. by destruct c. Qed.

Lemma controls_pushControl (u : UI.t) (r : ref) :
  UI.controls (UI.pushControl u r) = UI.controls u ++ [r].
Proof. unfold UI.pushControl. by destruct (_ && _). Qed.

Lemma focus_pushControl_nonempty (u : UI.t) (r : ref) :
  UI.controls u ≠ [] -> UI.focusIndex (UI.pushControl u r) = UI.focusIndex u.
Proof.
  intros H. unfold UI.pushControl.
  destruct (Z.eqb_spec (UI.count (UI.setControls u (UI.controls u ++ [r]))) 1)
    as [E|E].
  - exfalso. unfold UI.count in E. simpl in E. rewrite length_app in E.
    destruct (UI.controls u); [done|]. simpl in E. lia.
  - by rewrite andb_false_r.
Qed.

Lemma focus_addControls_nonempty (rs : list ref) (w : World) :
  UI.controls (ui w) ≠ [] ->
  UI.focusIndex (ui (fold_left addControl rs w)) = UI.focusIndex (ui w).
Proof.
  revert w. induction rs as [|r rs IH]; intros w H; simpl; [done|].
  rewrite IH.
  - simpl. by apply focus_pushControl_nonempty.
  - simpl. rewrite controls_pushControl. by destruct (UI.controls (ui w)).
Qed.

(** X9. [addControl] appends the control to the sequence.  The first
    control added to a new manager takes the focus, and the focus stays on
    it however many controls are added after it.  The control is attached:
    it knows its manager, and its padding is its own option when it has
    one, the padding of the theme otherwise. *)
Theorem addControl_focus_and_theme (cv : Canvas) (cfg : Config) (r : ref)
    (rs : list ref) (w : World) (c : Control) :
  heap w !! r = Some c ->
  (let w' := fold_left addControl (r :: rs) (worldOf cv (UI.initial cfg)) in
   UI.controls (ui w') = r :: rs /\ UI.focusIndex (ui w') = 0)
  /\ UI.controls (ui (addControl w r)) = UI.controls (ui w) ++ [r]
  /\ exists c', heap (addControl w r) !! r = Some c'
       /\ Base.attached (Ctl.base c') = true
       /\ Base.padding (Ctl.base c')
          = match o_padding (Base.rawOptions (Ctl.base c)) with
            | Some p => p
            | None => UI.themePadding (ui w)
            end
       /\ Base.bounds (Ctl.base c') = Base.bounds (Ctl.base c).
Proof.
  intros Hc. split; [|split].
  - cbv zeta. split.
    + by rewrite controls_addControls.
    + simpl. by rewrite focus_addControls_nonempty.
  - simpl. apply controls_pushControl.
  - exists (Ctl.attach (UI.themePadding (ui w)) c). split.
    + simpl. rewrite lookup_alter. case_decide; [|done]. by rewrite Hc.
    + unfold Ctl.attach. rewrite base_withBase. by repeat split.
Qed.

(** ** The life of a toast *)

Lemma indexOf_app_l (x : ref) (l1 l2 : list ref) (j : nat) :
  indexOf x l1 = Some j -> indexOf x (l1 ++ l2) = Some j.
Proof.
  revert j. induction l1 as [|y l1 IH]; intros j; simpl; [done|].
  destruct (Nat.eqb y x); [done|].
  destruct (indexOf x l1) as [k|]; simpl; [|done].
  intros [= <-]. by rewrite (IH k).
Qed.

Lemma indexOf_app_r (x : ref) (l1 l2 : list ref) :
  x ∉ l1 -> indexOf x (l1 ++ l2) = (fun j => (length l1 + j)%nat) <$> indexOf x l2.
Proof.
  induction l1 as [|y l1 IH]; intros H; simpl.
  - by destruct (indexOf x l2).
  - apply not_elem_of_cons in H as [Hne H].
    destruct (Nat.eqb_spec y x) as [->|_]; [done|].
    rewrite IH by done. by destruct (indexOf x l2).
Qed.

Lemma splice1_app_l {A} (j : nat) (l1 l2 : list A) :
  (j < length l1)%nat -> splice1 j (l1 ++ l2) = splice1 j l1 ++ l2.
Proof.
  intros H. unfold splice1.
  rewrite take_app_le, drop_app_le by lia. by rewrite app_assoc.
Qed.

Lemma splice1_app_r {A} (j : nat) (l1 l2 : list A) :
  splice1 (length l1 + j) (l1 ++ l2) = l1 ++ splice1 j l2.
Proof.
  unfold splice1.
  rewrite take_app_ge, drop_app_ge by lia.
  replace (length l1 + j - length l1)%nat with j by lia.
  replace (S (length l1 + j) - length l1)%nat with (S j) by lia.
  by rewrite app_assoc.
Qed.

Lemma elem_of_splice1 {A} (j : nat) (l : list A) (x : A) :
  x ∈ splice1 j l -> x ∈ l.
Proof.
  unfold splice1. rewrite elem_of_app. intros [H|H].
  - by apply (subseteq_take j l).
  - by apply (subseteq_drop (S j) l).
Qed.

Lemma ids_splice1 (j : nat) (l : list Toast.t) :
  map Toast.id (splice1 j l) = splice1 j (map Toast.id l).
Proof. unfold splice1. by rewrite map_app, List.firstn_map, List.skipn_map. Qed.

Lemma toastGone_after (i : ref) (l : list Toast.t) (a : TimerAction) :
  toastGone i l -> toastGone i (toastsAfter l a).
Proof.
  unfold toastGone. intros H. destruct a as [| |x]; try done. simpl.
  destruct (indexOf x (map Toast.id l)) as [j|]; [|done].
  rewrite ids_splice1. intros Hin. by apply elem_of_splice1 in Hin.
Qed.

Lemma toastGone_fold (i : ref) (acts : list Timer) (l : list Toast.t) :
  toastGone i l ->
  toastGone i (fold_left (fun l t => toastsAfter l (action t)) acts l).
Proof.
  revert l. induction acts as [|a acts IH]; intros l H; simpl; [done|].
  apply IH. by apply toastGone_after.
Qed.

(** Its own timeout takes the toast out. *)
Lemma onlyToast_dismissed (t : Toast.t) (l : list Toast.t) :
  onlyToast t l -> toastGone (Toast.id t) (toastsAfter l (DismissToast (Toast.id t))).
Proof.
  intros (l1 & l2 & -> & H1 & H2). unfold toastGone. simpl.
  rewrite map_app. simpl. rewrite indexOf_app_r by done. simpl.
  rewrite Nat.eqb_refl. simpl. rewrite length_map, splice1_app_r.
  unfold splice1. simpl. rewrite drop_0, map_app, elem_of_app. tauto.
Qed.

(** The timeout of another toast, or of a menu, leaves it in. *)
Lemma onlyToast_kept (t : Toast.t) (l : list Toast.t) (a : TimerAction) :
  a ≠ DismissToast (Toast.id t) -> onlyToast t l -> onlyToast t (toastsAfter l a).
Proof.
  intros Ha Ho. destruct a as [| |x]; try done. simpl.
  assert (x ≠ Toast.id t) as Hx by (intros ->; done).
  destruct Ho as (l1 & l2 & -> & H1 & H2).
  rewrite map_app. simpl.
  destruct (indexOf x (map Toast.id l1)) as [j|] eqn:E1.
  - rewrite (indexOf_app_l _ _ _ _ E1).
    pose proof (indexOf_lt _ _ _ E1) as Hj. rewrite length_map in Hj.
    rewrite splice1_app_l by done.
    exists (splice1 j l1), l2. split; [done|]. split; [|done].
    rewrite ids_splice1. intros Hin. by apply elem_of_splice1 in Hin.
  - assert (x ∉ map Toast.id l1) as Hnot.
    { intros Hin. apply indexOf_elem in Hin as [? ?]. congruence. }
    rewrite indexOf_app_r by done. simpl.
    destruct (Nat.eqb_spec (Toast.id t) x) as [E|_]; [congruence|].
    destruct (indexOf x (map Toast.id l2)) as [j|] eqn:E2; simpl.
    + rewrite length_map.
      replace (l1 ++ t :: l2) with ((l1 ++ [t]) ++ l2) by (by rewrite <- app_assoc).
      replace (length l1 + S j)%nat with (length (l1 ++ [t]) + j)%nat
        by (rewrite length_app; simpl; lia).
      rewrite splice1_app_r.
      exists l1, (splice1 j l2). split; [by rewrite <- app_assoc|].
      split; [done|]. rewrite ids_splice1. intros Hin.
      by apply elem_of_splice1 in Hin.
    + by exists l1, l2.
Qed.

Lemma onlyToast_fold_kept (t : Toast.t) (acts : list Timer) (l : list Toast.t) :
  Forall (fun tm => action tm ≠ DismissToast (Toast.id t)) acts ->
  onlyToast t l ->
  onlyToast t (fold_left (fun l tm => toastsAfter l (action tm)) acts l).
Proof.
  revert l. induction acts as [|a acts IH]; intros l Hf H; simpl; [done|].
  apply Forall_cons in Hf as [Ha Hf]. apply IH; [done|].
  by apply onlyToast_kept.
Qed.

Lemma onlyToast_fold_dismissed (t : Toast.t) (acts : list Timer) (l : list Toast.t) :
  Exists (fun tm => action tm = DismissToast (Toast.id t)) acts ->
  onlyToast t l ->
  toastGone (Toast.id t)
    (fold_left (fun l tm => toastsAfter l (action tm)) acts l).
Proof.
  revert l. induction acts as [|a acts IH]; intros l He H; simpl.
  - by apply Exists_nil in He.
  - assert (action a = DismissToast (Toast.id t)
            \/ action a ≠ DismissToast (Toast.id t)) as [E|E].
    { destruct (action a) as [| |x]; [by right|by right|].
      destruct (decide (x = Toast.id t)) as [->|Hx]; [by left|].
      right. by intros [= ->]. }
    + rewrite E. apply toastGone_fold. by apply onlyToast_dismissed.
    + apply Exists_cons in He as [He|He]; [done|].
      apply IH; [done|]. by apply onlyToast_kept.
Qed.

Lemma elem_of_insertDue (t x : Timer) (l : list Timer) :
  x ∈ insertDue t l <-> x = t \/ x ∈ l.
Proof.
  induction l as [|y l IH]; simpl.
  - rewrite list_elem_of_singleton, elem_of_nil. tauto.
  - destruct (Qle_bool (remaining y) (remaining t)).
    + rewrite !elem_of_cons, IH. tauto.
    + rewrite !elem_of_cons. tauto.
Qed.

Lemma elem_of_sortDue_acc (l acc : list Timer) (x : Timer) :
  x ∈ fold_left (fun acc t => insertDue t acc) l acc <-> x ∈ l \/ x ∈ acc.
Proof.
  revert acc. induction l as [|t l IH]; intros acc; simpl.
  - rewrite elem_of_nil. tauto.
  - rewrite IH, elem_of_insertDue, elem_of_cons. tauto.
Qed.

Lemma elem_of_sortDue (l : list Timer) (x : Timer) : x ∈ sortDue l <-> x ∈ l.
Proof.
  unfold sortDue. rewrite elem_of_sortDue_acc, elem_of_nil. tauto.
Qed.

Lemma elem_of_filter_list {A} (p : A -> bool) (l : list A) (x : A) :
  x ∈ List.filter p l <-> x ∈ l /\ p x = true.
Proof. rewrite !list_elem_of_In. apply filter_In. Qed.

Lemma toastGone_not_elem (t : Toast.t) (l : list Toast.t) :
  toastGone (Toast.id t) l -> t ∉ l.
Proof.
  unfold toastGone. intros H Hin. apply H.
  apply list_elem_of_In, in_map. by apply list_elem_of_In.
Qed.

Lemma onlyToast_elem (t : Toast.t) (l : list Toast.t) : onlyToast t l -> t ∈ l.
Proof.
  intros (l1 & l2 & -> & _). rewrite elem_of_app, elem_of_cons. tauto.
Qed.

(** X10. A toast is appended to the list and leaves it exactly when its
    duration has passed on the clock of the host, whatever else is pending
    there; frames do not touch the toasts.  The toast is a new object, and
    no pending timeout is its own. *)
Theorem toast_lifecycle (w : World) (message type : string) (duration dt : Q) :
  Forall (fun t => Toast.id t ≠ nextRef w) (UI.toasts (ui w)) ->
  Forall (fun tm => action tm ≠ DismissToast (nextRef w)) (timers w) ->
  let t := (showToast w message type duration).1 in
  let w1 := (showToast w message type duration).2 in
  UI.toasts (ui w1) = UI.toasts (ui w) ++ [t]
  /\ (forall deltaTime : Q,
        UI.toasts (ui (update w1 deltaTime)) = UI.toasts (ui w1))
  /\ ((duration <= dt)%Q -> t ∉ UI.toasts (ui (elapse w1 dt)))
  /\ (~ (duration <= dt)%Q -> t ∈ UI.toasts (ui (elapse w1 dt))).
Proof.
  intros Hfresh Htimers. cbv zeta.
  set (t := (showToast w message type duration).1).
  set (w1 := (showToast w message type duration).2).
  set (T := {| action := DismissToast (nextRef w); remaining := duration |}).
  assert (onlyToast t (UI.toasts (ui w1))) as Honly.
  { exists (UI.toasts (ui w)), []. split; [done|]. split.
    - intros Hin. apply list_elem_of_In, in_map_iff in Hin as (t' & Hid & Hin).
      rewrite Forall_forall in Hfresh.
      by apply (Hfresh t'); [apply list_elem_of_In|].
    - apply not_elem_of_nil. }
  assert (forall x, x ∈ sortDue (List.filter (isDue dt) (timers w1)) <->
                    (x ∈ timers w \/ x = T) /\ isDue dt x = true) as Hdue.
  { intros x. rewrite elem_of_sortDue, elem_of_filter_list. simpl.
    rewrite elem_of_app, list_elem_of_singleton. tauto. }
  split; [done|]. split; [intros deltaTime; by rewrite ui_update|].
  unfold elapse. rewrite !toasts_fires. simpl. split.
  - intros Hle. apply toastGone_not_elem.
    apply onlyToast_fold_dismissed; [|exact Honly].
    apply Exists_exists. exists T. split; [|done].
    apply Hdue. split; [by right|]. by apply Qle_bool_iff.
  - intros Hlt. apply onlyToast_elem.
    apply onlyToast_fold_kept; [|exact Honly].
    apply Forall_forall. intros x [[Hx| ->] Hd]%Hdue.
    + rewrite Forall_forall in Htimers. by apply Htimers.
    + exfalso. apply Hlt. by apply Qle_bool_iff.
Qed.

(** ** A modal on top *)

Lemma controlsUntouched_refl (m : Modal.t) (w : World) : controlsUntouched m w w.
Proof. by repeat split. Qed.

Lemma controlsUntouched_trans (m : Modal.t) (w1 w2 w3 : World) :
  controlsUntouched m w1 w2 -> controlsUntouched m w2 w3 ->
  controlsUntouched m w1 w3.
Proof.
  intros (H1 & H2 & H3) (G1 & G2 & G3). split; [congruence|].
  split; [congruence|]. intros r Hr. by rewrite G3, H3.
Qed.

Lemma controlsUntouched_closeModal (m : Modal.t) (w : World) (r : ref) :
  controlsUntouched m w (closeModal w r).
Proof.
  unfold closeModal, on_ui, UI.closeModal. simpl.
  destruct (UI.modalIndex (ui w) r); by repeat split.
Qed.

Lemma controlsUntouched_callButtonOf (m : Modal.t) (w : World) b :
  controlsUntouched m w (callButtonOf w b).
Proof.
  unfold callButtonOf. destruct b as [b|]; [|apply controlsUntouched_refl].
  destruct (Modal.callback b) as [[f|r]|]; simpl.
  - by repeat split.
  - apply controlsUntouched_closeModal.
  - apply controlsUntouched_refl.
Qed.

Lemma controlsUntouched_onMenu (m : Modal.t) (w : World) f :
  controlsUntouched m w (onMenu w m f).
Proof.
  split; [by rewrite ui_onMenu|]. split; [by rewrite ui_onMenu|].
  intros r Hr. by apply heap_onMenu_ne.
Qed.

Lemma controlsUntouched_handleKeyDown (m : Modal.t) (w : World) (e : KeyEvent) :
  controlsUntouched m w (Modal_handleKeyDown w m e).
Proof.
  unfold Modal_handleKeyDown. destruct (String.eqb (key e) "Escape").
  - eapply controlsUntouched_trans; [apply controlsUntouched_callButtonOf|].
    apply controlsUntouched_closeModal.
  - apply controlsUntouched_onMenu.
Qed.

Lemma controlsUntouched_handleGamepadButton (m : Modal.t) (w : World) (i : Z) :
  controlsUntouched m w (Modal_handleGamepadButton w m i).
Proof.
  unfold Modal_handleGamepadButton. destruct (i =? 1).
  - eapply controlsUntouched_trans; [apply controlsUntouched_callButtonOf|].
    apply controlsUntouched_closeModal.
  - destruct (i =? 0); [apply controlsUntouched_onMenu|].
    destruct (i =? 14); [apply controlsUntouched_onMenu|].
    destruct (i =? 15); [apply controlsUntouched_onMenu|].
    apply controlsUntouched_refl.
Qed.

(** X11. While a modal is on top, no key and no gamepad button reaches the
    controls: the sequence, the focus index (Tab and the D-pad included)
    and every control object are as they were. *)
Theorem modal_intercepts_keys_and_gamepad (w : World) (m : Modal.t)
    (e : KeyEvent) (buttonIndex : Z) :
  UI.topModal (ui w) = Some m ->
  controlsUntouched m w (onKeyDown w e)
  /\ controlsUntouched m w (onGamepadButton w buttonIndex).
Proof.
  intros Hm. split.
  - apply (controlsUntouched_trans m w (pressKey w (key e))); [by repeat split|].
    unfold onKeyDown.
    assert (UI.topModal (ui (pressKey w (key e))) = Some m) as -> by exact Hm.
    destruct (String.eqb (key e) "Escape"); apply controlsUntouched_handleKeyDown.
  - unfold onGamepadButton. rewrite Hm.
    apply controlsUntouched_handleGamepadButton.
Qed.

Lemma closeModal_at (u : UI.t) (l1 l2 : list Modal.t) (m : Modal.t) :
  UI.modals u = l1 ++ m :: l2 ->
  (Modal.id m ∉ map Modal.id l1) ->
  UI.modals (UI.closeModal u (Modal.id m)) = l1 ++ l2.
Proof.
  intros Hm Hfresh. unfold UI.closeModal, UI.modalIndex.
  rewrite Hm, map_app, indexOf_app_r by done. simpl.
  rewrite Nat.eqb_refl. simpl. rewrite length_map, splice1_app_r. reflexivity.
Qed.

Lemma find_none_forall {A} (p : A -> bool) (l : list A) :
  Forall (fun x => p x = false) l -> List.find p l = None.
Proof.
  induction 1 as [|x l Hx _ IH]; simpl; [done|]. by rewrite Hx.
Qed.

(** X12. When the options of the modal on top name an Escape button and
    no button has that label, Escape calls no callback and closes the
    modal: it is taken off the stack, the modals below stay, and the labels
    Exit, Close and Cancel are not tried.  The labels are ASCII, where
    [toLowerCase] is that of JavaScript. *)
Theorem escape_label_without_match (w : World) (below : list Modal.t)
    (m : Modal.t) (l : string) (e : KeyEvent) :
  key e = "Escape" ->
  UI.modals (ui w) = below ++ [m] ->
  Forall (fun m' => Modal.id m' ≠ Modal.id m) below ->
  Modal.escapeButtonLabel m = Some l ->
  isASCII l = true ->
  Forall (fun b => isASCII (Modal.label b) = true
                   /\ toLowerCase (Modal.label b) ≠ toLowerCase l)
    (Modal.buttons m) ->
  let w' := Modal_handleKeyDown w m e in
  w' = Modal_close w m
  /\ UI.modals (ui w') = below
  /\ UI.topModal (ui w') = last below
  /\ trace w' = trace w
  /\ heap w' = heap w
  /\ timers w' = timers w.
Proof.
  intros He Hm Hid Hl _ Hf. cbv zeta.
  assert (Modal_handleKeyDown w m e = Modal_close w m) as H.
  { unfold Modal_handleKeyDown. rewrite He. simpl.
    unfold Modal.escapeButton. rewrite Hl.
    rewrite find_none_forall; [done|].
    eapply Forall_impl; [exact Hf|]. simpl. intros b [_ Hb].
    by apply String.eqb_neq. }
  assert (UI.modals (ui (Modal_close w m)) = below) as Hc.
  { unfold Modal_close, closeModal, on_ui. simpl.
    rewrite (closeModal_at (ui w) below [] m Hm); [by rewrite app_nil_r|].
    intros Hin. apply list_elem_of_In, in_map_iff in Hin as (m' & Hi & Hin).
    rewrite Forall_forall in Hid. by apply (Hid m'); [apply list_elem_of_In|]. }
  rewrite H. split; [done|]. split; [exact Hc|].
  split; [unfold UI.topModal; by rewrite Hc|]. done.
Qed.

Lemma lookup_map {A B} (g : A -> B) (l : list A) (i : nat) :
  map g l !! i = g <$> l !! i.
Proof.
  revert i. induction l as [|x l IH]; intros [|i]; simpl; done.
Qed.

Lemma modal_new_facts (self mref : ref) (cv : Canvas) (pad : Q)
    (title message : string) (buttons : list Modal.button) (o : Modal.options) :
  let r := Modal.new self mref cv pad title message buttons o in
  Modal.id r.1 = self
  /\ Modal.buttonMenu r.1 = mref
  /\ Modal.buttons r.1 = Modal.buttonsOrOK self buttons
  /\ Menu.items r.2 = map (Modal.menuItem self) (Modal.buttonsOrOK self buttons)
  /\ Menu.pressedDuration r.2 = 300%Q.
Proof.
  cbv zeta. unfold Modal.new. by destruct (Modal.size cv message o).
Qed.

Lemma showModal_eq (w : World) (title message : string)
    (buttons : list Modal.button) (o : Modal.options) :
  showModal w title message buttons o
  = let r := Modal.new (nextRef w) (S (nextRef w)) (canvas w)
               (UI.themePadding (ui w)) title message buttons o in
    (r.1,
     {| ui := UI.setModals (ui w) (UI.modals (ui w) ++ [r.1]);
        heap := <[S (nextRef w) := CMenu r.2]> (heap w);
        canvas := canvas w; timers := timers w; trace := trace w;
        nextRef := S (S (nextRef w)) |}).
Proof. unfold showModal. by destruct (Modal.new _ _ _ _ _ _ _ _). Qed.

(** X13. A click on a button of a modal calls nothing at once.  When 300 ms
    have passed on the clock of the host the callback of that button is
    called, once, and the modal is taken off the stack; before that the
    modal is still there and nothing was called. *)
Theorem modal_button_runs_then_closes (w : World) (title message : string)
    (buttons : list Modal.button) (o : Modal.options) (i f : nat)
    (b : Modal.button) (px py dt : Q) :
  timers w = [] ->
  Forall (fun m' => Modal.id m' ≠ nextRef w) (UI.modals (ui w)) ->
  buttons !! i = Some b ->
  Modal.callback b = Some (BHost f) ->
  Menu.itemAt (showModalMenu w title message buttons o) px py = Some i ->
  let m := (showModal w title message buttons o).1 in
  let w2 := onMouseClick (showModal w title message buttons o).2 px py 0 in
  (trace w2 = trace w /\ UI.modals (ui w2) = UI.modals (ui w) ++ [m])
  /\ ((300 <= dt)%Q ->
      trace (elapse w2 dt) = trace w ++ [HostCall f []]
      /\ UI.modals (ui (elapse w2 dt)) = UI.modals (ui w))
  /\ (~ (300 <= dt)%Q ->
      trace (elapse w2 dt) = trace w
      /\ UI.modals (ui (elapse w2 dt)) = UI.modals (ui w) ++ [m]).
Proof.
  intros Ht Hfresh Hb Hcb Hat. cbv zeta.
  rewrite !showModal_eq. unfold showModalMenu in Hat.
  pose proof (modal_new_facts (nextRef w) (S (nextRef w)) (canvas w)
                (UI.themePadding (ui w)) title message buttons o) as Hnew.
  cbv zeta in *.
  set (r := Modal.new (nextRef w) (S (nextRef w)) (canvas w)
              (UI.themePadding (ui w)) title message buttons o) in *.
  cbn [fst snd].
  set (m := r.1) in *. set (menu := r.2) in *.
  destruct Hnew as (Hid & Hbm & _ & Hitems & Hdur).
  assert (Modal.buttonsOrOK (nextRef w) buttons = buttons) as Hbs
    by (by destruct buttons).
  rewrite Hbs in Hitems.
  assert (Menu.items menu !! i
          = Some (Modal.menuItem (nextRef w) b)) as Hitem.
  { rewrite Hitems, lookup_map. by rewrite Hb. }
  set (w1 := {| ui := UI.setModals (ui w) (UI.modals (ui w) ++ [m]);
                heap := <[S (nextRef w) := CMenu menu]> (heap w);
                canvas := canvas w; timers := timers w; trace := trace w;
                nextRef := S (S (nextRef w)) |}).
  assert (menuAt w1 (Modal.buttonMenu m) = Some menu) as Hmenu.
  { unfold menuAt. simpl. by rewrite Hbm, lookup_insert_eq. }
  assert (onMouseClick w1 px py 0
          = store w1 (Modal.buttonMenu m)
              (CMenu (Menu.press menu (Z.of_nat i)),
               setTimeout (FireItem (Modal.buttonMenu m) i) 300)) as Hclick.
  { unfold onMouseClick.
    assert (UI.topModal (ui w1) = Some m) as -> by apply topModal_push.
    unfold Modal_handleClick, onMenu. rewrite Hmenu.
    unfold Menu.isOverInteractiveArea, Menu.handleClick. rewrite Hat. simpl.
    by rewrite Hitem, Hdur. }
  rewrite Hclick. clear Hclick.
  split; [split; [simpl; by rewrite app_nil_r|done]|].
  assert (forall w',
            menuAt w' (Modal.buttonMenu m) = Some (Menu.press menu (Z.of_nat i)) ->
            fire w' (FireItem (Modal.buttonMenu m) i)
            = closeModal (log w' [HostCall f []]) (nextRef w)) as Hfire.
  { intros w' Hw'. simpl. rewrite Hw'. unfold itemCallback. simpl.
    rewrite Hitem. simpl. by rewrite Hcb. }
  unfold elapse. simpl. rewrite Ht. simpl. unfold isDue. simpl.
  split.
  - intros Hle. apply Qle_bool_iff in Hle. rewrite Hle. simpl.
    assert (menuAt
              (withTimers
                 (store w1 (Modal.buttonMenu m)
                    (CMenu (Menu.press menu (Z.of_nat i)),
                     setTimeout (FireItem (Modal.buttonMenu m) i) 300)) [])
              (Modal.buttonMenu m)
            = Some (Menu.press menu (Z.of_nat i))) as Hw'.
    { unfold menuAt. simpl. by rewrite lookup_insert_eq. }
    pose proof (Hfire _ Hw') as Hf. simpl in Hf. rewrite Hf.
    split; [simpl; by rewrite app_nil_r|].
    simpl. rewrite <- Hid. apply (closeModal_last (ui w) m).
    rewrite Forall_forall in Hfresh. intros m' Hm'. rewrite Hid. by apply Hfresh.
  - intros Hlt.
    assert (Qle_bool 300 dt = false) as Hb'.
    { apply not_true_iff_false. intros H. apply Hlt. by apply Qle_bool_iff. }
    rewrite Hb'. simpl. split; [by rewrite app_nil_r|done].
Qed.

(** ** Keys without a modal *)


(** ** Frames *)

Lemma fold_left_pres_in {A B} (P : A -> Prop) (f : A -> B -> A) (l : list B) (a : A) :
  (forall a b, b ∈ l -> P a -> P (f a b)) -> P a -> P (fold_left f l a).
Proof.
  revert a. induction l as [|b l IH]; intros a H Ha; simpl; [done|].
  apply IH.
  - intros a' b' Hb'. apply H. by right.
  - apply H; [by left|done].
Qed.

Lemma update_heap_other (w : World) (dt : Q) (r : ref) :
  r ∉ UI.controls (ui w) ->
  (forall m, m ∈ UI.modals (ui w) -> Modal.buttonMenu m ≠ r) ->
  heap (update w dt) !! r = heap w !! r.
Proof.
  intros Hc Hm. unfold update.
  set (w1 := fold_left _ (UI.controls (ui w)) w).
  assert (heap w1 !! r = heap w !! r) as H1.
  { subst w1. apply (fold_left_pres_in (fun w' => heap w' !! r = heap w !! r));
      [|done].
    intros a b Hb Ha. simpl. rewrite lookup_alter. case_decide; [|done].
    by subst b. }
  assert (ui w1 = ui w) as Hu by (subst w1; by apply (fold_left_proj ui)).
  apply (fold_left_pres_in (fun w' => heap w' !! r = heap w !! r)); [|done].
  intros a b Hb Ha. unfold Modal_update. simpl. rewrite lookup_alter.
  case_decide as E; [|done]. rewrite Hu in Hb. by apply Hm in Hb.
Qed.

Lemma update_heap_kind (w : World) (dt : Q) (r : ref) (c : Control) :
  heap w !! r = Some c -> hasUpdate c = false ->
  heap (update w dt) !! r = Some c.
Proof.
  intros Hc Hk.
  assert (forall w' r', heap w' !! r = Some c ->
            heap (withHeap w' (alter (fun c => Ctl.update c dt) r' (heap w'))) !! r
            = Some c) as Hstep.
  { intros w' r' H. simpl. rewrite lookup_alter. case_decide; [|done].
    subst r'. rewrite H. simpl. by destruct c. }
  unfold update. apply fold_left_pres.
  - intros a b. apply Hstep.
  - apply fold_left_pres; [|done]. intros a b. apply Hstep.
Qed.

Lemma update_heap_none (w : World) (dt : Q) (r : ref) :
  heap w !! r = None -> heap (update w dt) !! r = None.
Proof.
  intros Hc.
  assert (forall w' r', heap w' !! r = None ->
            heap (withHeap w' (alter (fun c => Ctl.update c dt) r' (heap w'))) !! r
            = None) as Hstep.
  { intros w' r' H. simpl. rewrite lookup_alter. case_decide; [|done].
    subst r'. by rewrite H. }
  unfold update. apply fold_left_pres.
  - intros a b. apply Hstep.
  - apply fold_left_pres; [|done]. intros a b. apply Hstep.
Qed.

(** X15. A frame changes nothing of the manager itself, calls nothing and
    registers nothing.  In the heap it only touches menus and text inputs,
    and only those of the sequence of controls and the button menus of the
    modals; it makes no object and loses none. *)
Theorem update_frame (w : World) (dt : Q) :
  (ui (update w dt) = ui w /\ trace (update w dt) = trace w
   /\ timers (update w dt) = timers w)
  /\ (forall r c, heap w !! r = Some c -> hasUpdate c = false ->
        heap (update w dt) !! r = Some c)
  /\ (forall r, r ∉ UI.controls (ui w) ->
        (forall m, m ∈ UI.modals (ui w) -> Modal.buttonMenu m ≠ r) ->
        heap (update w dt) !! r = heap w !! r)
  /\ (forall r, heap w !! r = None -> heap (update w dt) !! r = None).
Proof.
  split; [by rewrite ui_update, trace_update, timers_update|].
  split; [apply update_heap_kind|]. split; [apply update_heap_other|].
  apply update_heap_none.
Qed.

(** ** The background *)

Lemma gradientFor_default (cv : Canvas) (direction : string)
    (stops : list GradientStop) :
  gradientFor cv (str_or (Some direction) "diagonal") stops
  = gradientFor cv direction stops.
Proof.
  unfold str_or. destruct (String.eqb_spec direction "") as [->|_]; [|done].
  reflexivity.
Qed.

(** X16. The three background modes exclude one another.  After
    [setBackground] the background layer of [render] is that colour on the
    whole surface, whatever was configured before; after
    [setBackgroundGradient] it is the gradient, along the width, the height
    or the diagonal, the diagonal for any other direction; a gradient of
    [null] falls back to the colour configured last; after
    [setBackgroundNone] nothing is painted.  While a gradient is configured
    or the background is off, the [backgroundColor] of [setTheme] does not
    show. *)
Theorem background_modes (u : UI.t) (cv : Canvas) (color : jsval)
    (stops : list GradientStop) (direction : string)
    (themeOptions : gmap string jsval) :
  UI.render_background (UI.setBackground u color) cv
  = [FillStyle color; FillRect 0 0 (canvasWidth cv) (canvasHeight cv)]
  /\ UI.render_background (UI.setBackgroundGradient u (Some stops) direction) cv
     = [gradientFor cv direction stops;
        FillRect 0 0 (canvasWidth cv) (canvasHeight cv)]
  /\ UI.render_background (UI.setBackgroundGradient u None direction) cv
     = [FillStyle (backgroundColor (UI.options u));
        FillRect 0 0 (canvasWidth cv) (canvasHeight cv)]
  /\ UI.render_background (UI.setBackgroundNone u) cv = []
  /\ (noBackground (UI.options u) = true
      \/ is_Some (backgroundGradient (UI.options u)) ->
      UI.render_background (UI.setTheme u themeOptions) cv
      = UI.render_background u cv).
Proof.
  split; [done|]. split.
  { rewrite <- (gradientFor_default cv direction stops). reflexivity. }
  split; [done|]. split; [done|].
  intros H. unfold UI.render_background. simpl.
  destruct (truthy (get themeOptions "backgroundColor")); [|done]. simpl.
  destruct H as [->|[g ->]]; [done|]. by destruct (noBackground (UI.options u)).
Qed.

(** ** The geometry of a dialog *)

Lemma modal_size_bounds (cv : Canvas) (message : string) (o : Modal.options) :
  (0 <= canvasWidth cv)%Q ->
  (0 <= canvasHeight cv)%Q ->
  ((Modal.size cv message o).1 <= canvasWidth cv)%Q
  /\ (customSize o = true \/ (200 <= canvasHeight cv)%Q ->
      ((Modal.size cv message o).2 <= canvasHeight cv)%Q)
  /\ (customSize o = false ->
      (200 <= (Modal.size cv message o).2)%Q
      /\ ((Modal.size cv message o).1 <= 600)%Q).
Proof.
  intros HW HH. unfold Modal.size, customSize. cbv zeta.
  destruct (negb (Qeq_bool (num_or (Modal.o_modalWidth o) 0) 0)
            && negb (Qeq_bool (num_or (Modal.o_modalHeight o) 0) 0)); cbn [fst snd].
  - split; [|split].
    + qcases; lra.
    + intros _. qcases; lra.
    + done.
  - generalize (Modal.countLines cv (Qmin 600 (canvasWidth cv * (8 # 10)) - 40)
                  (split_space message "") "" 1).
    intros n. split; [|split].
    + qcases; lra.
    + intros [?|H]; [done|]. qcases; lra.
    + intros _. split; qcases; lra.
Qed.

(** X17. On a canvas of width and height not negative a dialog lies
    within the canvas from left to right.  With a size of the caller's it
    also lies within the canvas from top to bottom; a dialog sized by its
    content is at least 200 high and at most 600 wide, so it lies within
    the canvas from top to bottom when the canvas is at least 200 high, and
    overflows it at the top when the canvas is lower.  The row of buttons is
    50 high and as wide as its buttons of 150 with gaps of 20.  When the
    canvas and the dialog have integer sizes of magnitude at most 2^30,
    which the code halves and adds without rounding, the dialog is centred
    on the canvas, and the row of buttons is centred between the left and
    the right edge of the dialog and ends 20 above its lower edge. *)
Theorem modal_geometry (self menu : ref) (cv : Canvas) (themePadding : Q)
    (title message : string) (buttons : list Modal.button)
    (o : Modal.options) :
  (0 <= canvasWidth cv)%Q ->
  (0 <= canvasHeight cv)%Q ->
  let r := Modal.new self menu cv themePadding title message buttons o in
  let m := r.1 in
  let row := Menu.base r.2 in
  let n := Qnat (length (Modal.buttons m)) in
  ((0 <= Modal.x m)%Q /\ (Modal.width m <= canvasWidth cv)%Q)
  /\ (customSize o = true \/ (200 <= canvasHeight cv)%Q ->
      (0 <= Modal.y m)%Q /\ (Modal.height m <= canvasHeight cv)%Q)
  /\ (customSize o = false ->
      (200 <= Modal.height m)%Q /\ (Modal.width m <= 600)%Q
      /\ ((canvasHeight cv < 200)%Q -> (Modal.y m < 0)%Q))
  /\ (Base.height row == 50 /\ Base.width row == n * 150 + (n - 1) * 20)%Q
  /\ (Forall smallInt
        [canvasWidth cv; canvasHeight cv; Modal.width m; Modal.height m] ->
      (Modal.x m + Modal.width m + Modal.x m == canvasWidth cv
       /\ Modal.y m + Modal.height m + Modal.y m == canvasHeight cv
       /\ Base.x row - Modal.x m
          == Modal.x m + Modal.width m - (Base.x row + Base.width row)
       /\ Base.y row + Base.height row + 20 == Modal.y m + Modal.height m)%Q).
Proof.
  intros HW HH. cbv zeta.
  pose proof (modal_size_bounds cv message o HW HH) as (Hw & Hh & Ha).
  unfold Modal.new. cbv zeta.
  destruct (Modal.size cv message o) as [width height]. cbn [fst snd] in *.
  unfold Menu.new. simpl. rewrite ?List.length_map.
  generalize (Qnat (length (Modal.buttonsOrOK self buttons))). intros n.
  unfold Qdiv. change (/ 2)%Q with (1 # 2)%Q.
  split; [split; lra|].
  split; [intros H; specialize (Hh H); split; lra|].
  split; [intros H; destruct (Ha H); repeat split; try done; lra|].
  split; [split; reflexivity|].
  intros _. repeat split; ring.
Qed.

(** ** The theme *)

(** X18. After [setTheme] a key of the argument reads as the argument has
    it, also when the argument has it as [undefined], which hides the value
    the theme had and gives the fallback of [getThemeValue]; any other key
    reads as before.  Two calls in a row leave the theme one call with the
    merged argument leaves, the later argument first, and a call with no
    key at all changes nothing of the manager. *)
Theorem setTheme_merges (u : UI.t) (a b : gmap string jsval) (k : string)
    (fallback : jsval) :
  getThemeValue (UI.setTheme u a) k fallback
  = match a !! k with
    | Some JUndefined => fallback
    | Some v => v
    | None => getThemeValue u k fallback
    end
  /\ UI.theme (UI.setTheme (UI.setTheme u a) b) = UI.theme (UI.setTheme u (b ∪ a))
  /\ UI.setTheme u ∅ = u.
Proof.
  split; [|split].
  - unfold getThemeValue, get. simpl. rewrite lookup_union.
    destruct (a !! k) as [v|] eqn:E.
    + rewrite union_Some_l. simpl. by destruct v.
    + by rewrite (left_id_L None _).
  - simpl. by rewrite (assoc_L _).
  - unfold UI.setTheme. simpl. rewrite (left_id_L ∅ _). by destruct u.
Qed.

(** ** Tab *)

Lemma onKeyDown_tab (w : World) (shift : bool) :
  UI.modals (ui w) = [] ->
  onKeyDown w (tabKey shift)
  = (if shift then focusPrevious else focusNext) (pressKey w "Tab").
Proof.
  intros Hm.
  assert (UI.topModal (ui (pressKey w "Tab")) = None) as H
    by (unfold UI.topModal; simpl; by rewrite Hm).
  unfold onKeyDown. cbv zeta. unfold tabKey. cbn [key shiftKey]. rewrite H.
  by destruct shift.
Qed.

Lemma focusPrevious_focusNext (u : UI.t) :
  0 <= UI.focusIndex u < UI.count u ->
  UI.focusPrevious (UI.focusNext u) = u /\ UI.focusNext (UI.focusPrevious u) = u.
Proof.
  intros Hv. unfold UI.focusPrevious, UI.focusNext.
  destruct (Z.eqb_spec (UI.count u) 0) as [E|_]; [lia|].
  change (UI.count (UI.setFocus u ?i)) with (UI.count u).
  destruct (Z.eqb_spec (UI.count u) 0) as [E|_]; [lia|]. simpl.
  set (n := UI.count u) in *. set (f := UI.focusIndex u) in *.
  assert (forall i, UI.setFocus (UI.setFocus u i) f = u) as Hset
    by (intros i; subst f; by destruct u).
  split.
  - replace (Z.rem (Z.rem (f + 1) n - 1 + n) n) with f; [apply Hset|].
    destruct (decide (f + 1 = n)) as [E|E].
    + rewrite E, Z.rem_same by lia. rewrite Z.rem_small; lia.
    + rewrite (Z.rem_small (f + 1)) by lia.
      rewrite Z.rem_mod_nonneg by lia.
      replace (f + 1 - 1 + n) with (f + 1 * n) by lia.
      rewrite Z_mod_plus_full, Z.mod_small; lia.
  - replace (Z.rem (Z.rem (f - 1 + n) n + 1) n) with f; [apply Hset|].
    destruct (decide (f = 0)) as [E|E].
    + rewrite E. replace (0 - 1 + n) with (n - 1) by lia.
      rewrite (Z.rem_small (n - 1)) by lia.
      replace (n - 1 + 1) with n by lia. rewrite Z.rem_same; lia.
    + rewrite (Z.rem_mod_nonneg (f - 1 + n)) by lia.
      replace (f - 1 + n) with (f - 1 + 1 * n) by lia.
      rewrite Z_mod_plus_full, Z.mod_small by lia.
      rewrite Z.rem_small; lia.
Qed.

Lemma pressKey_again (w : World) (k : string) :
  UI.keys (ui w) !! k = Some true -> pressKey w k = w.
Proof.
  intros H. unfold pressKey, on_ui. rewrite insert_id by done.
  destruct w as [u h c t tr n]. by destruct u.
Qed.

Lemma keys_focusNext (u : UI.t) :
  UI.keys (UI.focusNext u) = UI.keys u
  /\ UI.keys (UI.focusPrevious u) = UI.keys u.
Proof.
  unfold UI.focusNext, UI.focusPrevious.
  by destruct (UI.count u =? 0).
Qed.

Lemma modals_focus_moves (u : UI.t) :
  UI.modals (UI.focusNext u) = UI.modals u
  /\ UI.modals (UI.focusPrevious u) = UI.modals u.
Proof.
  unfold UI.focusNext, UI.focusPrevious.
  by destruct (UI.count u =? 0).
Qed.

(** X19. Without a modal and with the focus on a control of the sequence,
    Tab followed by Shift+Tab, and Shift+Tab followed by Tab, leave the
    state a single press of Tab leaves: the key is recorded as pressed and
    the focus is where it was. *)
Theorem tab_shift_tab_round_trip (w : World) :
  UI.modals (ui w) = [] ->
  0 <= UI.focusIndex (ui w) < UI.count (ui w) ->
  onKeyDown (onKeyDown w (tabKey false)) (tabKey true) = pressKey w "Tab"
  /\ onKeyDown (onKeyDown w (tabKey true)) (tabKey false) = pressKey w "Tab"
  /\ UI.focusIndex (ui (pressKey w "Tab")) = UI.focusIndex (ui w).
Proof.
  intros Hm Hv.
  set (w1 := pressKey w "Tab").
  assert (UI.keys (ui w1) !! "Tab" = Some true) as Hk
    by (subst w1; simpl; by rewrite lookup_insert_eq).
  assert (0 <= UI.focusIndex (ui w1) < UI.count (ui w1)) as Hv1 by exact Hv.
  destruct (focusPrevious_focusNext (ui w1) Hv1) as [H1 H2].
  destruct (keys_focusNext (ui w1)) as [K1 K2].
  destruct (modals_focus_moves (ui w1)) as [M1 M2].
  split; [|split; [|done]].
  - assert (onKeyDown w (tabKey false) = focusNext w1) as ->
      by apply (onKeyDown_tab w false Hm).
    rewrite onKeyDown_tab
      by (change (UI.modals (UI.focusNext (ui w1)) = []); by rewrite M1).
    rewrite pressKey_again
      by (change (UI.keys (UI.focusNext (ui w1)) !! "Tab" = Some true);
          by rewrite K1).
    unfold focusPrevious, focusNext. rewrite on_ui_on_ui. unfold on_ui.
    by rewrite H1, withUI_id.
  - assert (onKeyDown w (tabKey true) = focusPrevious w1) as ->
      by apply (onKeyDown_tab w true Hm).
    rewrite onKeyDown_tab
      by (change (UI.modals (UI.focusPrevious (ui w1)) = []); by rewrite M2).
    rewrite pressKey_again
      by (change (UI.keys (UI.focusPrevious (ui w1)) !! "Tab" = Some true);
          by rewrite K2).
    unfold focusPrevious, focusNext. rewrite on_ui_on_ui. unfold on_ui.
    by rewrite H2, withUI_id.
Qed.

(** ** Panels *)

Lemma scanClick_prefix (w : World) (l : list ref) (px py : Q) (n : nat) :
  (n <= length l)%nat ->
  l `prefix_of` UI.controls (ui w) ->
  scanClick (on_ui (fun u => UI.setControls u l) w) px py n
  = scanClick w px py n.
Proof.
  intros Hn [k Hk]. induction n as [|n IH]; [done|].
  simpl. rewrite IH by lia. rewrite Hk, lookup_app_l by lia. reflexivity.
Qed.

(** X20. A panel takes no click.  Without a modal, when the focus index
    after a click names a panel, the click has changed nothing at all; and
    a panel that is the last of the sequence hides nothing: the click
    moves the focus, changes the objects, and calls and registers what it
    does without the panel. *)
Theorem panels_take_no_clicks (w : World) (px py : Q) (button : Z) :
  UI.modals (ui w) = [] ->
  let w' := onMouseClick w px py button in
  (forall r b,
      at_index (UI.controls (ui w')) (UI.focusIndex (ui w')) = Some r ->
      heap w !! r = Some (CPanel b) -> w' = w)
  /\ (forall l r b,
        UI.controls (ui w) = l ++ [r] ->
        heap w !! r = Some (CPanel b) ->
        let v := onMouseClick (on_ui (fun u => UI.setControls u l) w) px py button in
        UI.focusIndex (ui w') = UI.focusIndex (ui v)
        /\ heap w' = heap v /\ trace w' = trace v /\ timers w' = timers v).
Proof.
  intros Hm. cbv zeta. unfold onMouseClick.
  assert (UI.topModal (ui w) = None) as -> by (unfold UI.topModal; by rewrite Hm).
  split.
  - intros r b.
    destruct (scanClick w px py (length (UI.controls (ui w))))
      as [[[i r0] c0]|] eqn:Hs; [|done].
    apply scanClick_Some in Hs as (Hi & Hc & Hp & _).
    assert (forall w0, ui w0 = UI.setFocus (ui w) (Z.of_nat i) ->
              at_index (UI.controls (ui w0)) (UI.focusIndex (ui w0)) = Some r ->
              r = r0) as Hr.
    { intros w0 -> H. simpl in H. unfold at_index in H.
      destruct (Z.ltb_spec (Z.of_nat i) 0) as [?|_]; [lia|].
      rewrite Nat2Z.id in H. congruence. }
    intros Hat Hb.
    assert (r = r0) as ->.
    { destruct (Ctl.handleClick r0 c0 px py);
        (eapply Hr; [|exact Hat]; reflexivity). }
    rewrite Hc in Hb. injection Hb as ->. discriminate Hp.
  - intros l r b Hl Hb.
    assert (UI.topModal (ui (on_ui (fun u => UI.setControls u l) w)) = None) as ->
      by (unfold UI.topModal; simpl; by rewrite Hm).
    assert (scanClick w px py (length (UI.controls (ui w)))
            = scanClick w px py (length l)) as ->.
    { rewrite Hl, length_app. simpl. rewrite Nat.add_1_r. simpl.
      rewrite Hl, lookup_app_r, Nat.sub_diag by lia. simpl. by rewrite Hb. }
    assert (length (UI.controls (ui (on_ui (fun u => UI.setControls u l) w)))
            = length l) as -> by reflexivity.
    rewrite scanClick_prefix by (try lia; rewrite Hl; by apply prefix_app_r).
    destruct (scanClick w px py (length l)) as [[[i r0] c0]|]; [|done].
    by destruct (Ctl.handleClick r0 c0 px py).
Qed.

(** ** The stack of modals *)

Lemma modal_ids_below (w : World) (i : ref) :
  modalsAllocated w -> (nextRef w <= i)%nat ->
  i ∉ map Modal.id (UI.modals (ui w)).
Proof.
  intros Ha Hi Hin. apply list_elem_of_In, in_map_iff in Hin as (m & Hid & Hin).
  unfold modalsAllocated in Ha. rewrite Forall_forall in Ha.
  apply list_elem_of_In, Ha in Hin. lia.
Qed.

(** X21. The modals are a stack.  Of two dialogs shown one after the
    other the second is on top; closing it puts the first on top again,
    and closing it once more changes nothing; closing the first while the
    second is open takes the first out from under it and leaves the second
    on top.  The dialogs that were open before stay below in either
    case. *)
Theorem modal_stack (w : World) (title1 message1 title2 message2 : string)
    (buttons1 buttons2 : list Modal.button) (o1 o2 : Modal.options) :
  modalsAllocated w ->
  let a := (showModal w title1 message1 buttons1 o1).1 in
  let w1 := (showModal w title1 message1 buttons1 o1).2 in
  let b := (showModal w1 title2 message2 buttons2 o2).1 in
  let w2 := (showModal w1 title2 message2 buttons2 o2).2 in
  UI.modals (ui w2) = UI.modals (ui w) ++ [a; b]
  /\ UI.topModal (ui w2) = Some b
  /\ UI.modals (ui (closeModal w2 (Modal.id b))) = UI.modals (ui w) ++ [a]
  /\ closeModal (closeModal w2 (Modal.id b)) (Modal.id b)
     = closeModal w2 (Modal.id b)
  /\ UI.modals (ui (closeModal w2 (Modal.id a))) = UI.modals (ui w) ++ [b]
  /\ UI.topModal (ui (closeModal w2 (Modal.id a))) = Some b.
Proof.
  intros Ha. cbv zeta. rewrite !showModal_eq. cbv zeta.
  cbn [fst snd nextRef canvas ui].
  set (ra := Modal.new (nextRef w) _ _ _ title1 _ _ _).
  set (rb := Modal.new (S (S (nextRef w))) _ _ _ title2 _ _ _).
  assert (Modal.id ra.1 = nextRef w) as Ia by apply modal_new_facts.
  assert (Modal.id rb.1 = S (S (nextRef w))) as Ib by apply modal_new_facts.
  set (l := UI.modals (ui w)).
  assert (Modal.id ra.1 ∉ map Modal.id l) as Fa
    by (rewrite Ia; apply modal_ids_below; [done|lia]).
  assert (Modal.id rb.1 ∉ map Modal.id (l ++ [ra.1])) as Fb.
  { rewrite map_app. simpl. rewrite not_elem_of_app, list_elem_of_singleton.
    split; [rewrite Ib; apply modal_ids_below; [done|lia]|]. rewrite Ia, Ib. lia. }
  assert (forall u0, UI.modals u0 = (l ++ [ra.1]) ++ [rb.1] ->
            UI.modals (UI.closeModal u0 (Modal.id rb.1)) = l ++ [ra.1]) as Cb.
  { intros u0 H. rewrite (closeModal_at u0 (l ++ [ra.1]) [] rb.1 H Fb).
    by rewrite app_nil_r. }
  assert (forall u0, UI.modals u0 = (l ++ [ra.1]) ++ [rb.1] ->
            UI.modals (UI.closeModal u0 (Modal.id ra.1)) = l ++ [rb.1]) as Ca.
  { intros u0 H. apply (closeModal_at u0 l [rb.1] ra.1); [|done].
    by rewrite H, <- app_assoc. }
  split; [simpl; by rewrite <- app_assoc|].
  split; [unfold UI.topModal; simpl; apply last_snoc|].
  split; [simpl; by apply Cb|].
  split.
  - unfold closeModal at 1. unfold on_ui.
    rewrite closeModal_absent; [apply withUI_id|].
    intros m' Hin Hid. simpl in Hin. rewrite Cb in Hin by done.
    apply Fb. rewrite <- Hid. apply list_elem_of_In, in_map.
    by apply list_elem_of_In.
  - split; [simpl; by apply Ca|].
    unfold UI.topModal. simpl. rewrite Ca by done. apply last_snoc.
Qed.

(** ** Radio groups *)

Lemma radio_firstItemAt_lt (c : Radio.t) (px py : Q) (fuel from i : nat) :
  Radio.firstItemAt c px py from fuel = Some i -> (from <= i < from + fuel)%nat.
Proof.
  revert from. induction fuel as [|fuel IH]; intros from; simpl; [done|].
  destruct (inBounds px py (Radio.getItemBounds c from)).
  - intros [= <-]. lia.
  - intros H%IH. lia.
Qed.

Lemma radio_select_outcome (c : Radio.t) (i : Z) :
  0 <= i < Radio.count c ->
  radioSelectionValid (Radio.select c i).1
  /\ Radio.items (Radio.select c i).1 = Radio.items c
  /\ radioOutcome c (Radio.select c i).
Proof.
  intros Hi. split; [exact Hi|]. split; [done|]. right.
  unfold Radio.count in Hi.
  destruct (lookup_lt_is_Some_2 (Radio.items c) (Z.to_nat i)) as [s Hs]; [lia|].
  exists (Z.to_nat i), s. rewrite Z2Nat.id by lia. split; [done|]. split; [done|].
  unfold Radio.select, Radio.item_arg. simpl.
  replace i with (Z.of_nat (Z.to_nat i)) at 2 by lia.
  by rewrite at_index_nat, Hs.
Qed.

(** X22. A radio group whose selection names one of its items keeps such
    a selection, and its items, under a click, a key and the gamepad.  Each
    of them either does nothing at all or selects an item of the group and
    hands the callback, if there is one, the index and that item, also when
    the item was selected already; a click needs no valid selection for
    that. *)
Theorem radio_reports_selection (c : Radio.t) (e : KeyEvent) (px py : Q) :
  radioSelectionValid c ->
  Forall (fun r => radioSelectionValid r.1
                   /\ Radio.items r.1 = Radio.items c
                   /\ radioOutcome c r)
    [Radio.handleClick c px py; Radio.handleKeyDown c e;
     Radio.handleGamepadLeft c; Radio.handleGamepadRight c].
Proof.
  intros Hv.
  assert (0 < Radio.count c) as Hpos by (unfold radioSelectionValid in Hv; lia).
  assert (forall r, r = (c, no_effects) ->
            radioSelectionValid r.1 /\ Radio.items r.1 = Radio.items c
            /\ radioOutcome c r) as Hnone.
  { intros r ->. split; [done|]. split; [done|]. by left. }
  assert (0 <= Z.rem (Radio.selectedIndex c - 1 + Radio.count c) (Radio.count c)
          < Radio.count c) as Hl
    by (apply menu_rem_valid; unfold radioSelectionValid in Hv; lia).
  assert (0 <= Z.rem (Radio.selectedIndex c + 1) (Radio.count c)
          < Radio.count c) as Hr
    by (apply menu_rem_valid; unfold radioSelectionValid in Hv; lia).
  constructor; [|constructor; [|constructor; [|constructor; [|constructor]]]];
    cbv beta.
  - unfold Radio.handleClick.
    destruct (Radio.firstItemAt c px py 0 (length (Radio.items c))) as [i|] eqn:E.
    + apply radio_firstItemAt_lt in E. apply radio_select_outcome.
      unfold Radio.count. lia.
    + by apply Hnone.
  - unfold Radio.handleKeyDown, Radio.handleGamepadLeft, Radio.handleGamepadRight.
    cbv zeta.
    repeat (match goal with
            | |- context [if String.eqb (key e) ?k then _ else _] =>
                destruct (String.eqb (key e) k)
            end; [by apply radio_select_outcome|]).
    by apply Hnone.
  - by apply radio_select_outcome.
  - by apply radio_select_outcome.
Qed.

(** ** Toggles *)

(** X23. With no modal and the focus on a toggle that has a callback,
    gamepad button 0 pressed twice leaves the manager and every object as
    they were and registers nothing with the host; the callback has been
    called twice, first with the negated value and then with the value the
    toggle had. *)
Theorem toggle_twice_restores (w : World) (r : ref) (c : Toggle.t) (f : nat) :
  UI.modals (ui w) = [] ->
  focused w = Some (r, CToggle c) ->
  Toggle.callback c = Some f ->
  let w2 := onGamepadButton (onGamepadButton w 0) 0 in
  ui w2 = ui w /\ heap w2 = heap w /\ timers w2 = timers w
  /\ trace w2 = trace w ++ [HostCall f [JBool (negb (Toggle.value c))];
                            HostCall f [JBool (Toggle.value c)]].
Proof.
  intros Hm Hf Hcb. cbv zeta.
  assert (heap w !! r = Some (CToggle c)) as Hh.
  { unfold focused in Hf.
    destruct (at_index _ _) as [r'|]; [|done].
    destruct (heap w !! r') as [c'|] eqn:E; [|done]. by injection Hf as -> ->. }
  assert (UI.topModal (ui w) = None) as Ht by (unfold UI.topModal; by rewrite Hm).
  assert (onGamepadButton w 0 = store w r (CToggle (Toggle.toggle c).1, (Toggle.toggle c).2))
    as ->.
  { unfold onGamepadButton. rewrite Ht. simpl. unfold toFocused. by rewrite Hf. }
  set (w1 := store w r _).
  assert (focused w1 = Some (r, CToggle (Toggle.toggle c).1)) as Hf1.
  { unfold focused in *. change (ui w1) with (ui w).
    destruct (at_index _ _) as [r'|]; [|done].
    destruct (heap w !! r') as [c'|] eqn:E; [|done]. injection Hf as -> ->.
    subst w1. simpl. by rewrite lookup_insert_eq. }
  assert (onGamepadButton w1 0
          = store w1 r (CToggle (Toggle.toggle (Toggle.toggle c).1).1,
                        (Toggle.toggle (Toggle.toggle c).1).2)) as ->.
  { unfold onGamepadButton. change (ui w1) with (ui w). rewrite Ht. simpl.
    unfold toFocused. rewrite Hf1. reflexivity. }
  subst w1. unfold Toggle.toggle. simpl. rewrite Hcb. simpl.
  split; [done|]. split; [|split].
  - rewrite insert_insert_eq, negb_involutive.
    apply insert_id. rewrite Hh. destruct c. simpl in *. by subst.
  - by rewrite !app_nil_r.
  - by rewrite <- app_assoc, negb_involutive.
Qed.

(** * The further properties at work *)

(** The difficulty carousel, two steps forward from "Normal". *)
Lemma carousel_wraps_witness :
  0 <= Carousel.selectedIndex exampleCarousel < Carousel.count exampleCarousel
  /\ Carousel.selectedIndex
       (Nat.iter 2 (fun c => (Carousel.selectNext c).1) exampleCarousel)
     = (Carousel.selectedIndex exampleCarousel + Z.of_nat 2)
       mod Carousel.count exampleCarousel.
Proof.
  assert (0 <= Carousel.selectedIndex exampleCarousel
          < Carousel.count exampleCarousel) as H
    by (change (0 <= 1 < 3); lia).
  split; [exact H|]. exact (proj1 (carousel_wraps exampleCarousel 2 H)).
Defined.

(** The menu of two items under ArrowDown. *)
Lemma menu_selection_kept_witness :
  menuSelectionValid exampleMenu
  /\ menuSelectionValid
       (Menu.handleKeyDown 0%nat exampleMenu (key_of "ArrowDown")).1.
Proof.
  assert (menuSelectionValid exampleMenu) as H
    by (change (0 <= 0 < 2); lia).
  split; [exact H|].
  exact (proj1 (proj2 (proj1
    (menu_selection_kept 0%nat exampleMenu (key_of "ArrowDown") 0 0 16 H)))).
Defined.


(** Three frames of 100, 100 and 150 ms after a press. *)
Lemma menu_pressed_lasts_witness :
  Menu.pressed (Menu.press exampleMenu 0) = true
  /\ (Menu.pressedTime (Menu.press exampleMenu 0) == 0)%Q
  /\ (0 < Menu.pressedDuration (Menu.press exampleMenu 0))%Q
  /\ Forall wholeMs [100%Q; 100%Q; 150%Q]
  /\ (sumQ [100%Q; 100%Q; 150%Q] <= inject_Z (2 ^ 53))%Q
  /\ Menu.pressed
       (fold_left Menu.update [100%Q; 100%Q; 150%Q] (Menu.press exampleMenu 0))
     = negb (Qle_bool (Menu.pressedDuration (Menu.press exampleMenu 0))
               (sumQ [100%Q; 100%Q; 150%Q])).
Proof.
  assert (Menu.pressed (Menu.press exampleMenu 0) = true) as H1 by reflexivity.
  assert (Menu.pressedTime (Menu.press exampleMenu 0) == 0)%Q as H2
    by reflexivity.
  assert (0 < Menu.pressedDuration (Menu.press exampleMenu 0))%Q as H3
    by reflexivity.
  assert (forall z : Z, 0 <= z -> wholeMs (inject_Z z)) as Hw
    by (intros z Hz; exists z; split; [reflexivity|exact Hz]).
  assert (Forall wholeMs [100%Q; 100%Q; 150%Q]) as H4.
  { constructor; [apply (Hw 100); lia|].
    constructor; [apply (Hw 100); lia|].
    constructor; [apply (Hw 150); lia|]. constructor. }
  assert (sumQ [100%Q; 100%Q; 150%Q] <= inject_Z (2 ^ 53))%Q as H5
    by (vm_compute; discriminate).
  split; [exact H1|]. split; [exact H2|]. split; [exact H3|].
  split; [exact H4|]. split; [exact H5|].
  exact (menu_pressed_lasts (Menu.press exampleMenu 0) _ H1 H2 H3 H4 H5).
Defined.

(** Delete with the caret after the first of three characters. *)
Lemma textinput_cursor_kept_witness :
  textCursorValid (exampleTextInput "abc" 1)
  /\ textCursorValid
       (TextInput.handleKeyDown (exampleTextInput "abc" 1) (key_of "Delete")).
Proof.
  assert (textCursorValid (exampleTextInput "abc" 1)) as H
    by (unfold textCursorValid; simpl; lia).
  split; [exact H|].
  exact (proj1 (textinput_cursor_kept (exampleTextInput "abc" 1)
                  (key_of "Delete") 0 0 16 H)).
Defined.

(** An x typed after the first of three characters, and taken back. *)
Lemma textinput_type_then_backspace_witness :
  textCursorValid (exampleTextInput "abc" 1)
  /\ String.length (key (key_of "x")) = 1%nat
  /\ ctrlKey (key_of "x") = false
  /\ metaKey (key_of "x") = false
  /\ TextInput.value (TextInput.handleKeyDown (exampleTextInput "abc" 1)
                        (key_of "x"))
     = TextInput.slice_to "abc" 1 +:+ "x" +:+ TextInput.slice_from "abc" 1
  /\ TextInput.value
       (TextInput.handleKeyDown
          (TextInput.handleKeyDown (exampleTextInput "abc" 1) (key_of "x"))
          (key_of "Backspace"))
     = "abc".
Proof.
  assert (textCursorValid (exampleTextInput "abc" 1)) as H1
    by (unfold textCursorValid; simpl; lia).
  assert (String.length (key (key_of "x")) = 1%nat) as H2 by reflexivity.
  assert (ctrlKey (key_of "x") = false) as H3 by reflexivity.
  assert (metaKey (key_of "x") = false) as H4 by reflexivity.
  split; [exact H1|]. split; [exact H2|]. split; [exact H3|]. split; [exact H4|].
  destruct (textinput_type_then_backspace (exampleTextInput "abc" 1)
              (key_of "x") H1 H2 H3 H4) as (Hv & _ & Hb & _).
  split; [exact Hv|exact Hb].
Defined.

(** The volume slider under a click to the right of its track. *)
Lemma slider_value_in_range_witness :
  (Slider.min exampleSlider <= Slider.max exampleSlider)%Q
  /\ (0 < Slider.step exampleSlider)%Q
  /\ ~ (Slider.sliderWidth exampleSlider == 0)%Q
  /\ Forall moderate
       [Base.x (Slider.base exampleSlider);
        Base.width (Slider.base exampleSlider);
        Base.padding (Slider.base exampleSlider);
        Slider.min exampleSlider; Slider.max exampleSlider;
        Slider.step exampleSlider; 5000%Q]
  /\ sliderInRange exampleSlider
  /\ sliderInRange (Slider.handleClick exampleSlider 5000 110).1.
Proof.
  assert (Slider.min exampleSlider <= Slider.max exampleSlider)%Q as H1
    by (vm_compute; discriminate).
  assert (0 < Slider.step exampleSlider)%Q as H2 by reflexivity.
  assert (~ (Slider.sliderWidth exampleSlider == 0)%Q) as H3
    by (vm_compute; discriminate).
  assert (Forall moderate
            [Base.x (Slider.base exampleSlider);
             Base.width (Slider.base exampleSlider);
             Base.padding (Slider.base exampleSlider);
             Slider.min exampleSlider; Slider.max exampleSlider;
             Slider.step exampleSlider; 5000%Q]) as H4
    by (repeat (constructor; [split; vm_compute; discriminate|]); constructor).
  assert (sliderInRange exampleSlider) as H5
    by (split; vm_compute; discriminate).
  split; [exact H1|]. split; [exact H2|]. split; [exact H3|].
  split; [exact H4|]. split; [exact H5|].
  exact (proj1 (slider_value_in_range exampleSlider (key_of "ArrowLeft")
                  5000 110 1 H1 H2 H3 H4 H5)).
Defined.

(** The menu, made and then added to a new manager. *)
Lemma addControl_focus_and_theme_witness :
  heap (alloc exampleWorld (CMenu exampleMenu)).2 !! 0%nat
  = Some (CMenu exampleMenu)
  /\ UI.controls (ui exampleMenuWorld) = [0%nat]
  /\ UI.focusIndex (ui exampleMenuWorld) = 0.
Proof.
  assert (heap (alloc exampleWorld (CMenu exampleMenu)).2 !! 0%nat
          = Some (CMenu exampleMenu)) as H by reflexivity.
  split; [exact H|].
  destruct (addControl_focus_and_theme exampleCanvas exampleConfig 0%nat []
              (alloc exampleWorld (CMenu exampleMenu)).2 (CMenu exampleMenu) H)
    as (_ & Hc & _).
  split; [exact Hc|reflexivity].
Defined.

(** A toast of three seconds, one second later. *)
Lemma toast_lifecycle_witness :
  Forall (fun t => Toast.id t ≠ nextRef exampleWorld)
    (UI.toasts (ui exampleWorld))
  /\ Forall (fun tm => action tm ≠ DismissToast (nextRef exampleWorld))
       (timers exampleWorld)
  /\ (showToast exampleWorld "Saved" "success" 3000).1
     ∈ UI.toasts (ui (elapse (showToast exampleWorld "Saved" "success" 3000).2
                        1000)).
Proof.
  assert (Forall (fun t => Toast.id t ≠ nextRef exampleWorld)
            (UI.toasts (ui exampleWorld))) as H1 by constructor.
  assert (Forall (fun tm => action tm ≠ DismissToast (nextRef exampleWorld))
            (timers exampleWorld)) as H2 by constructor.
  split; [exact H1|]. split; [exact H2|].
  destruct (toast_lifecycle exampleWorld "Saved" "success" 3000 1000 H1 H2)
    as (_ & _ & _ & Hin).
  apply Hin. vm_compute. intros Hle. apply Hle. reflexivity.
Defined.

(** Tab and the gamepad's down button under the dialog of the
    documentation. *)
Lemma modal_intercepts_keys_and_gamepad_witness :
  UI.topModal (ui confirmWorld) = Some confirmModal
  /\ controlsUntouched confirmModal confirmWorld
       (onKeyDown confirmWorld (tabKey false))
  /\ controlsUntouched confirmModal confirmWorld
       (onGamepadButton confirmWorld 13).
Proof.
  assert (UI.topModal (ui confirmWorld) = Some confirmModal) as H
    by reflexivity.
  split; [exact H|].
  exact (modal_intercepts_keys_and_gamepad confirmWorld confirmModal
           (tabKey false) 13 H).
Defined.

(** Escape on a dialog of Yes and No whose Escape label is Cancel. *)
Lemma escape_label_without_match_witness :
  key (key_of "Escape") = "Escape"
  /\ UI.modals (ui orphanWorld) = [] ++ [orphanModal]
  /\ Forall (fun m' => Modal.id m' ≠ Modal.id orphanModal) []
  /\ Modal.escapeButtonLabel orphanModal = Some "Cancel"
  /\ isASCII "Cancel" = true
  /\ Forall (fun b => isASCII (Modal.label b) = true
                      /\ toLowerCase (Modal.label b) ≠ toLowerCase "Cancel")
       (Modal.buttons orphanModal)
  /\ UI.modals (ui (Modal_handleKeyDown orphanWorld orphanModal
                       (key_of "Escape"))) = []
  /\ trace (Modal_handleKeyDown orphanWorld orphanModal (key_of "Escape"))
     = trace orphanWorld.
Proof.
  assert (key (key_of "Escape") = "Escape") as H1 by reflexivity.
  assert (UI.modals (ui orphanWorld) = [] ++ [orphanModal]) as H2
    by reflexivity.
  assert (Forall (fun m' => Modal.id m' ≠ Modal.id orphanModal) []) as H3
    by constructor.
  assert (Modal.escapeButtonLabel orphanModal = Some "Cancel") as H4
    by reflexivity.
  assert (isASCII "Cancel" = true) as H5 by reflexivity.
  assert (Forall (fun b => isASCII (Modal.label b) = true
                           /\ toLowerCase (Modal.label b) ≠ toLowerCase "Cancel")
            (Modal.buttons orphanModal)) as H6.
  { constructor; [split; [reflexivity|vm_compute; discriminate]|].
    constructor; [split; [reflexivity|vm_compute; discriminate]|].
    constructor. }
  split; [exact H1|]. split; [exact H2|]. split; [exact H3|].
  split; [exact H4|]. split; [exact H5|]. split; [exact H6|].
  destruct (escape_label_without_match orphanWorld [] orphanModal "Cancel"
              (key_of "Escape") H1 H2 H3 H4 H5 H6) as (_ & Hm & _ & Ht & _).
  split; [exact Hm|exact Ht].
Defined.

(** A click on Yes in the dialog of the documentation, and 300 ms. *)
Lemma modal_button_runs_then_closes_witness :
  timers exampleWorld = []
  /\ Forall (fun m' => Modal.id m' ≠ nextRef exampleWorld)
       (UI.modals (ui exampleWorld))
  /\ confirmButtons !! 0%nat
     = Some {| Modal.label := "Yes"; Modal.callback := Some (BHost 1) |}
  /\ Modal.callback
       {| Modal.label := "Yes"; Modal.callback := Some (BHost 1) |}
     = Some (BHost 1)
  /\ Menu.itemAt
       (showModalMenu exampleWorld "Confirm Action" "Proceed?" confirmButtons
          orphanOptions) 250 350
     = Some 0%nat
  /\ trace (elapse (onMouseClick orphanWorld 250 350 0) 300)
     = trace exampleWorld ++ [HostCall 1 []].
Proof.
  assert (timers exampleWorld = []) as H1 by reflexivity.
  assert (Forall (fun m' => Modal.id m' ≠ nextRef exampleWorld)
            (UI.modals (ui exampleWorld))) as H2 by constructor.
  assert (confirmButtons !! 0%nat
          = Some {| Modal.label := "Yes"; Modal.callback := Some (BHost 1) |})
    as H3 by reflexivity.
  assert (Modal.callback
            {| Modal.label := "Yes"; Modal.callback := Some (BHost 1) |}
          = Some (BHost 1)) as H4 by reflexivity.
  assert (Menu.itemAt
            (showModalMenu exampleWorld "Confirm Action" "Proceed?"
               confirmButtons orphanOptions) 250 350
          = Some 0%nat) as H5 by (vm_compute; reflexivity).
  split; [exact H1|]. split; [exact H2|]. split; [exact H3|].
  split; [exact H4|]. split; [exact H5|].
  destruct (modal_button_runs_then_closes exampleWorld "Confirm Action"
              "Proceed?" confirmButtons orphanOptions 0 1 _ 250 350 300
              H1 H2 H3 H4 H5) as (_ & Hdue & _).
  apply Hdue. vm_compute. discriminate.
Defined.


(** A dialog without buttons on the canvas of 800 by 600. *)
Lemma modal_geometry_witness :
  (0 <= canvasWidth exampleCanvas)%Q
  /\ (0 <= canvasHeight exampleCanvas)%Q
  /\ (0 <= Modal.x (Modal.new 0%nat 1%nat exampleCanvas 10 "T" "msg" []
                      Modal.no_options).1)%Q.
Proof.
  assert (0 <= canvasWidth exampleCanvas)%Q as H1 by (vm_compute; discriminate).
  assert (0 <= canvasHeight exampleCanvas)%Q as H2 by (vm_compute; discriminate).
  split; [exact H1|]. split; [exact H2|].
  exact (proj1 (proj1 (modal_geometry 0%nat 1%nat exampleCanvas 10 "T" "msg" []
                         Modal.no_options H1 H2))).
Defined.

(** Three controls, the focus on the second. *)
Lemma tab_shift_tab_round_trip_witness :
  UI.modals (ui exampleControls) = []
  /\ 0 <= UI.focusIndex (ui exampleControls) < UI.count (ui exampleControls)
  /\ onKeyDown (onKeyDown exampleControls (tabKey false)) (tabKey true)
     = pressKey exampleControls "Tab".
Proof.
  assert (UI.modals (ui exampleControls) = []) as H1 by reflexivity.
  assert (0 <= UI.focusIndex (ui exampleControls)
          < UI.count (ui exampleControls)) as H2
    by (change (0 <= 1 < 3); lia).
  split; [exact H1|]. split; [exact H2|].
  exact (proj1 (tab_shift_tab_round_trip exampleControls H1 H2)).
Defined.

(** The panel is the last of the three controls. *)
Lemma panels_take_no_clicks_witness :
  UI.modals (ui exampleControls) = []
  /\ (UI.controls (ui exampleControls) = [0%nat; 1%nat] ++ [2%nat]
      /\ heap exampleControls !! 2%nat
         = Some (CPanel examplePanelAttached))
  /\ heap (onMouseClick exampleControls 50 75 0)
     = heap (onMouseClick
               (on_ui (fun u => UI.setControls u [0%nat; 1%nat]) exampleControls)
               50 75 0).
Proof.
  assert (UI.modals (ui exampleControls) = []) as H1 by reflexivity.
  assert (UI.controls (ui exampleControls) = [0%nat; 1%nat] ++ [2%nat]) as H2
    by reflexivity.
  assert (heap exampleControls !! 2%nat = Some (CPanel examplePanelAttached))
    as H3 by reflexivity.
  split; [exact H1|]. split; [split; [exact H2|exact H3]|].
  exact (proj1 (proj2 (proj2 (panels_take_no_clicks exampleControls 50 75 0 H1)
                         [0%nat; 1%nat] 2%nat examplePanelAttached H2 H3))).
Defined.

(** Two dialogs on a new manager. *)
Lemma modal_stack_witness :
  modalsAllocated exampleWorld
  /\ UI.topModal
       (ui (closeModal
              (showModal (showModal exampleWorld "A" "first" [] Modal.no_options).2
                 "B" "second" [] Modal.no_options).2
              (Modal.id (showModal exampleWorld "A" "first" []
                           Modal.no_options).1)))
     = Some (showModal (showModal exampleWorld "A" "first" [] Modal.no_options).2
               "B" "second" [] Modal.no_options).1.
Proof.
  assert (modalsAllocated exampleWorld) as H by constructor.
  split; [exact H|].
  exact (proj2 (proj2 (proj2 (proj2 (proj2
    (modal_stack exampleWorld "A" "first" "B" "second" [] []
       Modal.no_options Modal.no_options H)))))).
Defined.

(** The quality group under ArrowDown. *)
Lemma radio_reports_selection_witness :
  radioSelectionValid exampleRadio
  /\ radioOutcome exampleRadio
       (Radio.handleKeyDown exampleRadio (key_of "ArrowDown")).
Proof.
  assert (radioSelectionValid exampleRadio) as H
    by (change (0 <= 0 < 3); lia).
  split; [exact H|].
  pose proof (radio_reports_selection exampleRadio (key_of "ArrowDown") 0 0 H)
    as HF.
  apply Forall_cons in HF as [_ HF]. apply Forall_cons in HF as [HF _].
  exact (proj2 (proj2 HF)).
Defined.

(** The sound toggle, switched off and on again from the gamepad. *)
Lemma toggle_twice_restores_witness :
  UI.modals (ui exampleToggleWorld) = []
  /\ focused exampleToggleWorld = Some (0%nat, CToggle exampleToggleAttached)
  /\ Toggle.callback exampleToggleAttached = Some 7%nat
  /\ trace (onGamepadButton (onGamepadButton exampleToggleWorld 0) 0)
     = trace exampleToggleWorld
       ++ [HostCall 7 [JBool false]; HostCall 7 [JBool true]].
Proof.
  assert (UI.modals (ui exampleToggleWorld) = []) as H1 by reflexivity.
  assert (focused exampleToggleWorld
          = Some (0%nat, CToggle exampleToggleAttached)) as H2 by reflexivity.
  assert (Toggle.callback exampleToggleAttached = Some 7%nat) as H3
    by reflexivity.
  split; [exact H1|]. split; [exact H2|]. split; [exact H3|].
  exact (proj2 (proj2 (proj2 (toggle_twice_restores exampleToggleWorld 0%nat
                                exampleToggleAttached 7%nat H1 H2 H3)))).
Defined.
